(** * SatTraker: a shallow embedding of the tracking core

    The development follows [SatTrakerBetaV5.py]:

    - [Videotrak]   : [videotrak.get_x_y], the target locator (feature
                      search with its int8 difference score, template
                      blending, brightness centroid re-centering);
    - [Codec]       : [rad_to_sexagesimal_alt], [rad_to_sexagesimal_ra],
                      the decimal value of [read_to_hash] and the
                      pixel-offset to sky-delta conversion of [sat_track];
    - [Reader]      : [read_to_hash], the reader of the LX200 answers,
                      with the [int()] conversions it relies on;
    - [Calibration] : the motion loops of [set_calibration];
    - [Controller]  : one iteration of the [sat_track] loop;
    - [Interface]   : the pointer box of [prepare_img_for_tkinter], the
                      wheel handler and the target selection of
                      [left_click].

    Pixels, indices and counters are integers ([Z]); the template after
    blending and the score are rationals ([Q]) extended with the infinities
    and NaN that numpy division produces; angles, rates and times are real
    numbers ([R]): Python floats are read as the reals they approximate. *)

From Stdlib Require Import String Ascii ZArith QArith Qround Qabs List Bool Lia.
From Stdlib Require Import Reals Lra Psatz.
Import ListNotations.

(* ================================================================== *)
(** * The target locator *)
(* ================================================================== *)

Module Videotrak.

Local Open Scope Z_scope.

(** ** numpy scalars and arrays *)

(** A float64 scalar as it occurs in the score: a rational, an infinity
    or NaN ([finalroidiff] starts at [float('inf')]; a division by a zero
    template sum yields an infinity or NaN, not an exception). *)
Inductive fnum : Type :=
| Fin (q : Q)
| PInf
| NInf
| NaN.

(** Python's [a < b] on such scalars: false as soon as one side is NaN. *)
Definition flt (a b : fnum) : bool :=
  match a, b with
  | NaN, _ => false
  | _, NaN => false
  | NInf, NInf => false
  | NInf, _ => true
  | _, NInf => false
  | PInf, _ => false
  | Fin _, PInf => true
  | Fin x, Fin y => if Qlt_le_dec x y then true else false
  end.

(** Python's [a == b]. *)
Definition feqb (a b : fnum) : bool :=
  match a, b with
  | Fin x, Fin y => Qeq_bool x y
  | PInf, PInf => true
  | NInf, NInf => true
  | _, _ => false
  end.

(** [n / d] for numpy scalars. *)
Definition fdiv (n d : Q) : fnum :=
  if Qeq_bool d 0 then
    match (n ?= 0)%Q with
    | Eq => NaN
    | Gt => PInf
    | Lt => NInf
    end
  else Fin (n / d).

Definition fmul (x : fnum) (k : Q) : fnum :=
  match x with
  | Fin q => Fin (q * k)
  | other => other
  end.

(** A grayscale frame, [img[y][x]], pixels of type uint8. *)
Definition image := list (list Z).

(** The template [imageroi]: uint8 when it is cut out of the frame, float64
    once it has been blended; both are held as rationals. *)
Definition template := list (list Q).

(** [roibox = [(x0, y0), (x1, y1)]]. *)
Definition box : Type := (Z * Z) * (Z * Z).

(** [a.shape[:2]] as [(height, width)], for an array with at least one row. *)
Definition shape {A : Type} (m : list (list A)) : Z * Z :=
  (Z.of_nat (length m), Z.of_nat (length (hd [] m))).

(** Python's treatment of one bound of a slice. *)
Definition norm_index (len i : Z) : Z :=
  if i <? 0 then Z.max 0 (len + i) else Z.min len i.

(** [l[start:stop]]. *)
Definition pyslice {A : Type} (l : list A) (start stop : Z) : list A :=
  let len := Z.of_nat (length l) in
  let a := norm_index len start in
  let b := norm_index len stop in
  firstn (Z.to_nat (b - a)) (skipn (Z.to_nat a) l).

(** [img[y:y+h, x:x+w]]. *)
Definition crop {A : Type} (m : list (list A)) (y x h w : Z) : list (list A) :=
  map (fun row => pyslice row x (x + w)) (pyslice m y (y + h)).

(** Elementwise combination of two arrays; numpy raises when the shapes
    differ ([None]). *)
Fixpoint zip_strict {A B C : Type} (f : A -> B -> option C)
         (l1 : list A) (l2 : list B) : option (list C) :=
  match l1, l2 with
  | [], [] => Some []
  | a :: l1', b :: l2' =>
      match f a b, zip_strict f l1' l2' with
      | Some c, Some r => Some (c :: r)
      | _, _ => None
      end
  | _, _ => None
  end.

Definition array_map2 {A B C : Type} (f : A -> B -> C)
           (m1 : list (list A)) (m2 : list (list B)) : option (list (list C)) :=
  zip_strict (zip_strict (fun a b => Some (f a b))) m1 m2.

Definition zsum (l : list Z) : Z := fold_right Z.add 0 l.
Definition qsum (l : list Q) : Q := fold_right Qplus (0 # 1)%Q l.

(** [np.sum] of a two-dimensional array. *)
Definition array_zsum (m : list (list Z)) : Z := zsum (map zsum m).
Definition array_qsum (m : list (list Q)) : Q := qsum (map qsum m).

(** ** The int8 difference score (lines 84-91) *)

(** Two's complement wrap-around to int8. *)
Definition wrap8 (z : Z) : Z := (z + 128) mod 256 - 128.

(** [int(q)]: truncation toward zero. *)
Definition Qtrunc (q : Q) : Z :=
  if Qlt_le_dec q 0 then Qceiling q else Qfloor q.

(** [imagecomp.astype(np.int8)] on uint8 pixels. *)
Definition astype_int8 (p : Z) : Z := wrap8 p.

(** [imageroi.astype(np.int8)]: the template may hold floats, which are
    truncated and then wrapped. *)
Definition astype_int8_q (q : Q) : Z := wrap8 (Qtrunc q).

(** One entry of [np.absolute(imagecompforsub - imageroiforsub)]: the
    subtraction and the absolute value both stay in int8. *)
Definition absdiff8 (c : Z) (r : Q) : Z :=
  wrap8 (Z.abs (wrap8 (astype_int8 c - astype_int8_q r))).

(** [imagediff] for the candidate window at [(xcheck, ycheck)];
    [None] when numpy raises on mismatching shapes. *)
Definition imagediff (img : image) (imageroi : template)
           (xcheck ycheck : Z) : option fnum :=
  let '(roiheight, roiwidth) := shape imageroi in
  let imagecomp := crop img ycheck xcheck roiheight roiwidth in
  match array_map2 absdiff8 imagecomp imageroi with
  | None => None
  | Some d =>
      Some (fmul (fdiv (inject_Z (array_zsum d)) (array_qsum imageroi)) 100)
  end.

(** The score the description asks for: the summed absolute pixel
    difference over the template's total intensity, as a percentage. *)
Definition score_reference (img : image) (imageroi : template)
           (xcheck ycheck : Z) : option fnum :=
  let '(roiheight, roiwidth) := shape imageroi in
  let imagecomp := crop img ycheck xcheck roiheight roiwidth in
  match array_map2 (fun c r => Qabs (inject_Z c - r)) imagecomp imageroi with
  | None => None
  | Some d => Some (fmul (fdiv (array_qsum d) (array_qsum imageroi)) 100)
  end.

(** ** The bounded local search (lines 61-109) *)

(** [range(a, a + n)]. *)
Definition zrange (a : Z) (n : nat) : list Z :=
  map (fun k => a + Z.of_nat k) (seq 0 n).

(** Lines 75-82: keep a candidate coordinate inside [0, limit]. *)
Definition clamp_check (v limit : Z) : Z :=
  if v <? 0 then 0 else if v >? limit then limit else v.

(** The variables of the search.  [clock] counts the evaluations of
    [time.time() > searchend] that are still false: time only moves
    forward, so the test stays true once it has been true.  [searchxy2] is
    [(searchx2, searchy2)], unbound until a first minimum is recorded. *)
Record search : Type := mkSearch {
  clock : nat;
  finalroidiff : fnum;
  searchxy2 : option (Z * Z);
  difflowered : bool
}.

Definition set_clock (n : nat) (s : search) : search :=
  mkSearch n (finalroidiff s) (searchxy2 s) (difflowered s).

Definition record_minimum (d : fnum) (x y : Z) (s : search) : search :=
  mkSearch (clock s) d (Some (x, y)) true.

Section FeatureSearch.

Variable img : image.
Variable imageroi : template.
(** [roibox[0]], the last known top-left corner. *)
Variables searchx1 searchy1 : Z.

Let origheight : Z := fst (shape img).
Let origwidth : Z := snd (shape img).
Let roiheight : Z := fst (shape imageroi).
Let roiwidth : Z := snd (shape imageroi).

(** The body of [for xcheck in range(...)], lines 73-100. *)
Fixpoint scan_x (xs : list Z) (ycheck : Z) (s : search) : option search :=
  match xs with
  | [] => Some s
  | xcheck :: xs' =>
      let xcheck := clamp_check xcheck (origwidth - roiwidth) in
      let ycheck := clamp_check ycheck (origheight - roiheight) in
      match imagediff img imageroi xcheck ycheck with
      | None => None
      | Some d =>
          let s1 := if flt d (finalroidiff s)
                    then record_minimum d xcheck ycheck s else s in
          match clock s1 with
          | O => Some s1
          | S n => scan_x xs' ycheck (set_clock n s1)
          end
      end
  end.

(** The body of [for ycheck in range(...)], lines 70-100. *)
Fixpoint scan_y (ys : list Z) (s : search) : option search :=
  match ys with
  | [] => Some s
  | ycheck :: ys' =>
      match clock s with
      | O => Some s
      | S n =>
          match scan_x (zrange (searchx1 - 15) 30) ycheck (set_clock n s) with
          | None => None
          | Some s1 => scan_y ys' s1
          end
      end
  end.

(** [while keepgoing is True], lines 69-109.  The loop performs one clock
    test per round, so [fuel] above the clock is never used up. *)
Fixpoint keepgoing_loop (fuel : nat) (s : search) : option search :=
  match fuel with
  | O => None
  | S fuel' =>
      match scan_y (zrange (searchy1 - 15) 30) s with
      | None => None
      | Some s1 =>
          let keepgoing := difflowered s1 in
          let s2 := mkSearch (clock s1) (finalroidiff s1) (searchxy2 s1) false in
          match clock s2 with
          | O => Some s2
          | S n =>
              if keepgoing then keepgoing_loop fuel' (set_clock n s2)
              else Some (set_clock n s2)
          end
      end
  end.

(** The search as [get_x_y] starts it, with [budget] clock tests left
    before the 200 ms deadline. *)
Definition feature_search (budget : nat) : option search :=
  keepgoing_loop (S budget) (mkSearch budget PInf None false).

End FeatureSearch.

(** ** Acceptance, blending and the brightness strategy (lines 112-157) *)

(** [imageroi * 0.9 + learnimg * 0.1]. *)
Definition blend (imageroi : template) (learnimg : image) : option template :=
  array_map2 (fun r l => (r * (9 # 10) + inject_Z l * (1 # 10))%Q)
             imageroi learnimg.

(** What OpenCV hands back in the brightness strategy: the thresholded
    region and the moments [m00], [m10], [m01] of its first contour. *)
Record bright_input : Type := mkBright {
  thresh : template;
  m00 : Q;
  m10 : Q;
  m01 : Q
}.

(** Lines 112-126. *)
Definition accept_features (img : image) (roibox : box) (imageroi : template)
           (s : search) : option (box * template * bool) :=
  let '(roiheight, roiwidth) := shape imageroi in
  if flt (finalroidiff s) (Fin 20) then
    match searchxy2 s with
    | None => None
    | Some (searchx1last, searchy1last) =>
        let learnimg := crop img searchy1last searchx1last roiheight roiwidth in
        match blend imageroi learnimg with
        | None => None
        | Some imageroi' =>
            Some (((searchx1last, searchy1last),
                   (searchx1last + roiwidth, searchy1last + roiheight)),
                  imageroi', true)
        end
    end
  else Some (roibox, imageroi, false).

(** Lines 127-156. *)
Definition track_bright (cv : bright_input) (roibox : box)
           (imageroi : template) : box * template * bool :=
  let '(roiheight, roiwidth) := shape imageroi in
  let searchx1 := fst (fst roibox) in
  let searchy1 := snd (fst roibox) in
  if Qeq_bool (m00 cv) 0 then
    (((searchx1, searchy1), (searchx1 + roiwidth, searchy1 + roiheight)),
     thresh cv, false)
  else
    let cX := Qtrunc (m10 cv / m00 cv) in
    let cY := Qtrunc (m01 cv / m00 cv) in
    let cXdiff := (inject_Z roiwidth / 2 - inject_Z cX)%Q in
    let cYdiff := (inject_Z roiheight / 2 - inject_Z cY)%Q in
    let searchx1 := Qtrunc (inject_Z searchx1 - cXdiff) in
    let searchy1 := Qtrunc (inject_Z searchy1 - cYdiff) in
    let searchx1 := if searchx1 <? 0 then 0 else searchx1 in
    let searchy1 := if searchy1 <? 0 then 0 else searchy1 in
    (((searchx1, searchy1), (searchx1 + roiwidth, searchy1 + roiheight)),
     thresh cv, true).

(** [videotrak.get_x_y(img, roibox, imageroi)].  [img] is the frame after
    the grayscale conversion (and CLAHE for features); the result carries
    [trackSettings.foundtarget] next to the returned pair. *)
Definition get_x_y (trackingtype : string) (budget : nat) (cv : bright_input)
           (foundtarget : bool) (img : image) (roibox : box)
           (imageroi : template) : option (box * template * bool) :=
  let searchx1 := fst (fst roibox) in
  let searchy1 := snd (fst roibox) in
  let after_features :=
    if String.eqb trackingtype "Features" then
      match feature_search img imageroi searchx1 searchy1 budget with
      | None => None
      | Some s => accept_features img roibox imageroi s
      end
    else Some (roibox, imageroi, foundtarget) in
  match after_features with
  | None => None
  | Some (roibox1, imageroi1, found1) =>
      if String.eqb trackingtype "Bright"
      then Some (track_bright cv roibox1 imageroi1)
      else Some (roibox1, imageroi1, found1)
  end.

(** The ROI lies inside a frame of the given width and height. *)
Definition roi_in_frame (width height : Z) (roibox : box) : Prop :=
  let '((x0, y0), (x1, y1)) := roibox in
  0 <= x0 /\ x1 <= width /\ 0 <= y0 /\ y1 <= height.

(** [m[y][x]], when the index is inside the array. *)
Definition pixel {A : Type} (m : list (list A)) (y x : nat) : option A :=
  match nth_error m y with
  | Some row => nth_error row x
  | None => None
  end.

(** Two arrays of the same shape. *)
Definition same_shape {A B : Type} (m1 : list (list A)) (m2 : list (list B)) : Prop :=
  Forall2 (fun r1 r2 => length r1 = length r2) m1 m2.

(** Every row has the width that [shape] reports. *)
Definition rectangular {A : Type} (m : list (list A)) : Prop :=
  Forall (fun row => Z.of_nat (length row) = snd (shape m)) m.

(** Invariant of the search: the recorded minimum is the score of the
    recorded position, and that position went through the clamps of
    lines 75-82. *)
Definition search_ok (img : image) (imageroi : template) (s : search) : Prop :=
  match searchxy2 s with
  | None => finalroidiff s = PInf
  | Some (x, y) =>
      imagediff img imageroi x y = Some (finalroidiff s) /\
      exists xc yc,
        x = clamp_check xc (snd (shape img) - snd (shape imageroi)) /\
        y = clamp_check yc (fst (shape img) - fst (shape imageroi))
  end.

(** Two scores that Python's comparisons cannot tell apart. *)
Definition fequiv (a b : fnum) : Prop :=
  match a, b with
  | Fin x, Fin y => (x == y)%Q
  | PInf, PInf => True
  | NInf, NInf => True
  | NaN, NaN => True
  | _, _ => False
  end.

(** The candidate corners of one pass: the 30x30 neighbourhood of the
    last corner, each coordinate after the clamps of lines 75-82. *)
Definition candidate (img : image) (imageroi : template)
           (searchx1 searchy1 x y : Z) : Prop :=
  exists xc yc,
    searchx1 - 15 <= xc < searchx1 + 15 /\
    searchy1 - 15 <= yc < searchy1 + 15 /\
    x = clamp_check xc (snd (shape img) - snd (shape imageroi)) /\
    y = clamp_check yc (fst (shape img) - fst (shape imageroi)).

(** The score at the clamped corner has been taken into account: it is
    not strictly below the recorded minimum. *)
Definition seen (img : image) (imageroi : template) (xc yc : Z) (s : search)
  : Prop :=
  exists d,
    imagediff img imageroi
              (clamp_check xc (snd (shape img) - snd (shape imageroi)))
              (clamp_check yc (fst (shape img) - fst (shape imageroi)))
      = Some d /\
    flt d (finalroidiff s) = false.

(** The recorded corner, when there is one, is a candidate. *)
Definition near_ok (img : image) (imageroi : template) (searchx1 searchy1 : Z)
           (s : search) : Prop :=
  match searchxy2 s with
  | None => True
  | Some (x, y) => candidate img imageroi searchx1 searchy1 x y
  end.

(** The template as cut out of a frame: the same pixels, as rationals. *)
Definition template_of (m : image) : template := map (map inject_Z) m.

(** Every pixel of the array satisfies [P]. *)
Definition all_pixels {A : Type} (P : A -> Prop) (m : list (list A)) : Prop :=
  Forall (Forall P) m.

(** A 3x4 frame with one bright pixel, used in the examples. *)
Definition frame_3x4 : image :=
  [[10; 10; 10; 10]; [10; 200; 10; 10]; [10; 10; 10; 10]].

End Videotrak.

(* ================================================================== *)
(** * The coordinate codec *)
(* ================================================================== *)

Module Codec.

Local Open Scope R_scope.

(** [math.degrees] and [math.radians]. *)
Definition degrees (x : R) : R := x * (180 / PI).
Definition radians (x : R) : R := x * (PI / 180).

(** [math.trunc] and [int()]: the integer part toward zero. *)
Definition trunc (x : R) : Z :=
  if Rle_dec 0 x then Int_part x else (- Int_part (- x))%Z.

(** [math.atan2(y, x)]. *)
Definition atan2 (y x : R) : R :=
  if Rlt_dec 0 x then atan (y / x)
  else if Rlt_dec x 0 then
         if Rle_dec 0 y then atan (y / x) + PI else atan (y / x) - PI
       else if Rlt_dec 0 y then PI / 2
            else if Rlt_dec y 0 then - (PI / 2) else 0.

(** [math.acos(x)] raises [ValueError] outside [-1, 1]. *)
Definition acos_checked (x : R) : option R :=
  if Rle_dec (-1) x then if Rle_dec x 1 then Some (acos x) else None else None.

(** [a / b] raises [ZeroDivisionError] when [b] is zero. *)
Definition div_checked (a b : R) : option R :=
  if Req_dec_T b 0 then None else Some (a / b).

(** ** Decimal to sexagesimal (lines 982-1002) *)

(** Degrees (or hours), minutes, seconds as the attributes
    [az_d, az_m, az_s] and their siblings hold them. *)
Record sexagesimal : Type := mkSexagesimal {
  sx_d : Z;
  sx_m : Z;
  sx_s : R
}.

(** The azimuth and right-ascension form, lines 985-987 and 996-998. *)
Definition sexagesimal_az (azdeg : R) : sexagesimal :=
  let az_d := trunc azdeg in
  let az_m := trunc ((azdeg - IZR az_d) * 60) in
  let az_s := ((azdeg - IZR az_d) * 60 - IZR az_m) * 60 in
  mkSexagesimal az_d az_m az_s.

(** The altitude and declination form, lines 989-991 and 1000-1002. *)
Definition sexagesimal_alt (altdeg : R) : sexagesimal :=
  let alt_d := trunc altdeg in
  let alt_m := trunc ((Rabs altdeg - IZR (Z.abs alt_d)) * 60) in
  let alt_s := ((Rabs altdeg - IZR (Z.abs alt_d)) * 60 - IZR (Z.abs alt_m)) * 60 in
  mkSexagesimal alt_d alt_m alt_s.

(** [rad_to_sexagesimal_alt]: from [radaz], [radalt] to the azimuth and
    altitude fields. *)
Definition rad_to_sexagesimal_alt (radaz radalt : R) : sexagesimal * sexagesimal :=
  let azdeg := degrees radaz in
  let altdeg := degrees radalt in
  (sexagesimal_az azdeg, sexagesimal_alt altdeg).

(** [rad_to_sexagesimal_ra]: from [radra], [raddec] to the right-ascension
    (hours) and declination fields. *)
Definition rad_to_sexagesimal_ra (radra raddec : R) : sexagesimal * sexagesimal :=
  let rahour := degrees radra / 15 in
  let decdeg := degrees raddec in
  (sexagesimal_az rahour, sexagesimal_alt decdeg).

(** ** Sexagesimal to decimal (lines 900-910) *)

(** The three integers [read_to_hash] cuts out of a mount response. *)
Record response : Type := mkResponse {
  r_deg : Z;
  r_min : Z;
  r_sec : Z
}.

(** [respdegrees], line 904. *)
Definition respdegrees (r : response) : R :=
  (IZR (r_sec r) / 60 + IZR (r_min r)) / 60 + IZR (r_deg r).

(** [resphours], line 910 (the leading field is [hr]). *)
Definition resphours (r : response) : R :=
  ((IZR (r_sec r) / 60 + IZR (r_min r)) / 60 + IZR (r_deg r)) * 15.

(** The response that carries the fields of a command: the seconds are
    written as [int(alt_s)]. *)
Definition response_of (e : sexagesimal) : response :=
  mkResponse (sx_d e) (sx_m e) (trunc (sx_s e)).

(** ** Pixel offset to sky delta (lines 665-674 and their copies) *)

Record polar : Type := mkPolar {
  objectvertical : R;
  objecthorizontal : R;
  objectangle : R;
  objectangle2 : R;
  objectdistance : R
}.

(** Lines 665-669. *)
Definition pixel_polar (targetX targetY : R) (mainviewX mainviewY : Z)
           (imagescale : R) : polar :=
  let objectvertical := -1 * ((targetY - IZR mainviewY) * imagescale) in
  let objecthorizontal := (targetX - IZR mainviewX) * imagescale in
  let objectangle := degrees (atan2 objectvertical objecthorizontal) - 90 in
  let objectangle2 := degrees (atan2 objectvertical objecthorizontal) in
  let objectdistance :=
    sqrt (objecthorizontal ^ 2 + objectvertical ^ 2
          - 2 * (objectvertical * objecthorizontal * cos (radians objectangle))) in
  mkPolar objectvertical objecthorizontal objectangle objectangle2 objectdistance.

(** Line 671: the new elevation-like coordinate [objectalt]. *)
Definition object_alt (currentaltdegrees : R) (p : polar) : option R :=
  match acos_checked
          (cos (radians (objectdistance p)) * cos (radians (90 - currentaltdegrees))
           + sin (radians (objectdistance p)) * sin (radians (90 - currentaltdegrees))
             * cos (radians (objectangle p))) with
  | None => None
  | Some a => Some (90 - degrees a)
  end.

(** Line 672: [diffinaz] before its sign is settled. *)
Definition diffinaz_unsigned (currentaltdegrees objectalt : R) (p : polar) : option R :=
  match div_checked
          (cos (radians (objectdistance p))
           - cos (radians (90 - currentaltdegrees)) * cos (radians (90 - objectalt)))
          (sin (radians (90 - currentaltdegrees)) * sin (radians (90 - objectalt))) with
  | None => None
  | Some q =>
      match acos_checked q with
      | None => None
      | Some b => Some (degrees b)
      end
  end.

(** Lines 671-674, the head of each [try] block: [(objectalt, diffinaz)],
    or [None] when the arithmetic raises. *)
Definition sky_delta (currentaltdegrees : R) (p : polar) : option (R * R) :=
  match object_alt currentaltdegrees p with
  | None => None
  | Some objectalt =>
      match diffinaz_unsigned currentaltdegrees objectalt p with
      | None => None
      | Some diffinaz =>
          let diffinaz :=
            if Rlt_dec 90 (Rabs (objectangle2 p)) then -1 * diffinaz else diffinaz in
          Some (objectalt, diffinaz)
      end
  end.

End Codec.

(* ================================================================== *)
(** * The LX200 response reader *)
(* ================================================================== *)

Module Reader.

Import Codec.
Local Open Scope Z_scope.

(** The serial port as [read_to_hash] sees it: the results of the
    successive [self.ser.read()] calls, each one byte, or nothing when the
    read timed out. *)
Definition port : Type := list (option ascii).

Definition is_ascii (b : ascii) : bool := (nat_of_ascii b <? 128)%nat.

(** [bytes.decode("utf-8", errors="ignore")] of what one read returned:
    an ASCII byte is its character; any other byte cannot stand alone in
    UTF-8 and is dropped. *)
Definition decode (r : option ascii) : string :=
  match r with
  | None => EmptyString
  | Some b => if is_ascii b then String b EmptyString else EmptyString
  end.

(** [resp[-1]]; [None] is the [IndexError] of the empty string. *)
Fixpoint last_char (s : string) : option ascii :=
  match s with
  | EmptyString => None
  | String c s' =>
      match s' with
      | EmptyString => Some c
      | String _ _ => last_char s'
      end
  end.

(** Lines 892-894: [while self.resp[-1] != '#'], one read per round.  The
    [IndexError] of an empty answer is caught by the handler around the
    loop, which leaves the loop with the answer as it is; [None] when the
    reads given run out before the loop has ended. *)
Fixpoint read_more (resp : string) (p : port) {struct p}
  : option (string * port) :=
  match last_char resp with
  | None => Some (resp, p)
  | Some c =>
      if Ascii.eqb c "#" then Some (resp, p)
      else
        match p with
        | [] => None
        | r :: p' => read_more (resp ++ decode r) p'
        end
  end.

(** ** [int()] on an ASCII string *)

(** The characters that [int()] skips around an ASCII number. *)
Definition is_space (c : ascii) : bool :=
  let n := nat_of_ascii c in
  ((9 <=? n)%nat && (n <=? 13)%nat) || (n =? 32)%nat.

Definition digit (c : ascii) : option Z :=
  let n := nat_of_ascii c in
  if (48 <=? n)%nat && (n <=? 57)%nat then Some (Z.of_nat (n - 48)) else None.

Fixpoint lstrip (s : string) : string :=
  match s with
  | EmptyString => EmptyString
  | String c s' => if is_space c then lstrip s' else s
  end.

Fixpoint all_space (s : string) : bool :=
  match s with
  | EmptyString => true
  | String c s' => is_space c && all_space s'
  end.

(** The digits of a number: at least one digit, single underscores
    between digits, white space only after the last digit. *)
Fixpoint digits (s : string) (acc : Z) (after_digit : bool) : option Z :=
  match s with
  | EmptyString => if after_digit then Some acc else None
  | String c s' =>
      match digit c with
      | Some d => digits s' (10 * acc + d) true
      | None =>
          if Ascii.eqb c "_" then
            if after_digit then digits s' acc false else None
          else if is_space c && after_digit && all_space s' then Some acc
          else None
      end
  end.

(** [int(s)] for a string of ASCII characters; [None] is [ValueError]. *)
Definition py_int (s : string) : option Z :=
  match lstrip s with
  | String "+" s' => digits s' 0 false
  | String "-" s' => option_map Z.opp (digits s' 0 false)
  | s' => digits s' 0 false
  end.

(** ** [read_to_hash] *)

(** How a call of [read_to_hash] ends: with the fields it assigned and
    what is left on the port, with the [ValueError] of an [int()], or not
    at all on the reads given. *)
Inductive reading : Type :=
| Parsed (r : response) (rest : port)
| ValueError
| Pending.

(** Lines 900-910: the fields cut out of the answer; without a known
    [degorhours] the fields stay as they were. *)
Definition fields (degorhours : string) (previous : response) (resp : string)
  : option response :=
  if String.eqb degorhours "Degrees" then
    match py_int (substring 0 3 resp), py_int (substring 3 2 resp),
          py_int (substring 6 2 resp) with
    | Some deg, Some min, Some sec => Some (mkResponse deg min sec)
    | _, _, _ => None
    end
  else if String.eqb degorhours "Hours" then
    match py_int (substring 0 2 resp), py_int (substring 3 2 resp),
          py_int (substring 6 2 resp) with
    | Some hr, Some min, Some sec => Some (mkResponse hr min sec)
    | _, _, _ => None
    end
  else Some previous.

(** [read_to_hash], lines 889-911. *)
Definition read_to_hash (degorhours : string) (previous : response) (p : port)
  : reading :=
  match p with
  | [] => Pending
  | r :: p' =>
      match read_more (decode r) p' with
      | None => Pending
      | Some (resp, rest) =>
          match fields degorhours previous resp with
          | Some r => Parsed r rest
          | None => ValueError
          end
      end
  end.

(** A character of an answer before its end: ASCII and not ['#']. *)
Definition plain (c : ascii) : Prop :=
  is_ascii c = true /\ Ascii.eqb c "#" = false.

(** A read that lets the loop go on: nothing, a dropped byte or a plain
    character. *)
Definition continues (r : option ascii) : Prop :=
  decode r = EmptyString \/ exists c, r = Some c /\ plain c.

(** The bytes of an answer, with the degree sign of the Meade handbox
    (byte 223) after the degrees. *)
Definition answer_degrees : port :=
  map Some ["1"; "2"; "3"; ascii_of_nat 223; "4"; "5"; "'"; "3"; "0"; "#"]%char.

End Reader.

(* ================================================================== *)
(** * The two transports *)
(* ================================================================== *)

Module Transport.

(** Calls on the ASCOM telescope object [self.tel]. *)
Inductive tel_cmd : Type :=
| MoveAxis (axis : Z) (rate : R)
| SlewToAltAz (az alt : R)
| SlewToCoordinates (ra dec : R)
| AbortSlew.

(** Texts written to the LX200 serial port [self.ser]; a target command
    carries the three numbers printed between its separators. *)
Inductive ser_cmd : Type :=
| Sz (d m s : Z)
| Sa (d m s : Z)
| Sr (h m s : Z)
| Sd (d m s : Z)
| MA
| MS
| GA
| GD
| GZ
| GR
| RC
| Mn
| Ms
| Qn
| Qs.

End Transport.

(* ================================================================== *)
(** * The calibration estimator *)
(* ================================================================== *)

Module Calibration.

Import Transport.
Local Open Scope R_scope.

(** What the calibration thread sees of the shared variables in one round
    of its loop: the target position published by the camera thread and
    [trackSettings.calibratestart]. *)
Record sample : Type := mkSample {
  targetX : R;
  targetY : R;
  calibratestart : bool
}.

(** Line 1041. *)
Definition distance_moved (startx starty : R) (o : sample) : R :=
  sqrt ((startx - targetX o) ^ 2 + (starty - targetY o) ^ 2).

(** The ASCOM loops (lines 1037-1042, 1055-1060, 1078-1083, 1097-1102):
    [while distmoved < 100 and trackSettings.calibratestart is True].
    [obs k] is what round [k] observes; the result is the final
    [distmoved] with the commands sent, or [None] while the loop is still
    running after [fuel] rounds. *)
Fixpoint ascom_loop (rate startx starty : R) (obs : nat -> sample)
         (fuel k : nat) (distmoved : R) : option (R * list tel_cmd) :=
  match fuel with
  | O => None
  | S fuel' =>
      if Rlt_dec distmoved 100 then
        if calibratestart (obs k) then
          match ascom_loop rate startx starty obs fuel' (S k)
                           (distance_moved startx starty (obs k)) with
          | None => None
          | Some (d, cmds) => Some (d, MoveAxis 1 rate :: cmds)
          end
        else Some (distmoved, [])
      else Some (distmoved, [])
  end.

(** One ASCOM calibration move, lines 1035-1043: start the axis, loop,
    stop the axis. *)
Definition ascom_move (rate startx starty : R) (obs : nat -> sample)
           (fuel : nat) : option (R * list tel_cmd) :=
  match ascom_loop rate startx starty obs fuel 0 0 with
  | None => None
  | Some (d, cmds) => Some (d, MoveAxis 1 rate :: cmds ++ [MoveAxis 1 0])
  end.

(** The LX200 loops (lines 1125-1130 and 1144-1149):
    [while distmoved < 100]. *)
Fixpoint lx200_loop (move : ser_cmd) (startx starty : R) (obs : nat -> sample)
         (fuel k : nat) (distmoved : R) : option (R * list ser_cmd) :=
  match fuel with
  | O => None
  | S fuel' =>
      if Rlt_dec distmoved 100 then
        match lx200_loop move startx starty obs fuel' (S k)
                         (distance_moved startx starty (obs k)) with
        | None => None
        | Some (d, cmds) => Some (d, move :: cmds)
        end
      else Some (distmoved, [])
  end.

(** One LX200 calibration move, lines 1123-1131: select the rate, loop,
    quit the motion. *)
Definition lx200_move (move quit : ser_cmd) (startx starty : R)
           (obs : nat -> sample) (fuel : nat) : option (R * list ser_cmd) :=
  match lx200_loop move startx starty obs fuel 0 0 with
  | None => None
  | Some (d, cmds) => Some (d, RC :: cmds ++ [quit])
  end.

(** The motion part of [set_calibration] once its guard at line 1027 has
    passed: the branch is chosen by the telescope type, the mount type
    and the half of the frame the target starts in.  The serial log shows
    the position queries around the move; the image scale derived from
    the answers is left out. *)
Definition set_calibration (telescopetype mounttype : string) (height : R)
           (startx starty : R) (obs : nat -> sample) (fuel : nat)
  : option (R * list tel_cmd * list ser_cmd) :=
  if String.eqb telescopetype "ASCOM" then
    if String.eqb mounttype "AltAz" || String.eqb mounttype "Eq" then
      match ascom_move (if Rlt_dec starty (height / 2) then 0.1 else -0.1)
                       startx starty obs fuel with
      | None => None
      | Some (d, cmds) => Some (d, cmds, [])
      end
    else Some (0, [], [])
  else if String.eqb telescopetype "LX200" then
    match (if Rlt_dec starty (height / 2)
           then lx200_move Mn Qn startx starty obs fuel
           else lx200_move Ms Qs startx starty obs fuel) with
    | None => None
    | Some (d, cmds) => Some (d, [], [GZ; GA] ++ cmds ++ [GZ; GA])
    end
  else Some (0, [], []).

(** The target does not move and the calibration has been cancelled. *)
Definition stalled (x y : R) : nat -> sample := fun _ => mkSample x y false.

(** The target is seen 150 pixels from where it started and nothing is
    cancelled. *)
Definition drifting (x y : R) : nat -> sample :=
  fun _ => mkSample (x + 150) y true.

End Calibration.

(* ================================================================== *)
(** * The tracking controller *)
(* ================================================================== *)

Module Controller.

Import Codec Transport.
Local Open Scope R_scope.

(** [self.sat] after [self.sat.compute(self.observer)]. *)
Record ephemeris : Type := mkEphemeris {
  sat_alt : R;
  sat_az : R;
  sat_ra : R;
  sat_dec : R
}.

(** What one iteration of the [while] loop of [sat_track] reads from
    outside: the settings, the camera thread's target and frame time, the
    ephemeris at the time of the cycle ([sat]) and one second later
    ([sat2]), the ASCOM properties, and the mount's answers to the LX200
    position queries.  Each value is read once per iteration.
    [slew_polls] are the (altitude, azimuth) answers during the first
    slew. *)
Record cycle_env : Type := mkEnv {
  telescopetype : string;
  mounttype : string;
  objectfollow : bool;
  trackingsat : bool;
  mainviewX : Z;
  mainviewY : Z;
  imagescale : R;
  targetX : R;
  targetY : R;
  dnow : R;
  sat : ephemeris;
  sat2 : ephemeris;
  Azimuth : R;
  Altitude : R;
  RightAscension : R;
  Declination : R;
  resp_alt : response;
  resp_az : response;
  resp_dec : response;
  resp_ra : response;
  slew_polls : list (response * response)
}.

(** The variables of [sat_track] that live across iterations.
    [objectdec] and [diffinra] are locals that only the ASCOM equatorial
    visual branch binds.  The attributes [diffazlast], [diffaltlast],
    [diffralast], [diffdeclast] are written and never read; they are
    omitted. *)
Record state : Type := mkState {
  firstslew : bool;
  altcorrect : R;
  azcorrect : R;
  deccorrect : R;
  racorrect : R;
  i : Z;
  lasttotaldiff : R;
  dlast : R;
  objectdec : option R;
  diffinra : option R
}.

(** The state at the head of [sat_track], lines 369-374; [lasttotaldiff]
    and [dlast] are assigned by the first-slew block before any read. *)
Definition sat_track_init : state :=
  mkState true 0 0 0 0 0 0 0 None None.

(** The result of an iteration: the new state and the calls made on the
    two transports, in order. *)
Definition outcome : Type := state * list tel_cmd * list ser_cmd.

(** The four accumulators. *)
Definition corrections (s : state) : R * R * R * R :=
  (altcorrect s, azcorrect s, deccorrect s, racorrect s).

Definition is_ASCOM (e : cycle_env) : bool := String.eqb (telescopetype e) "ASCOM".
Definition is_LX200 (e : cycle_env) : bool := String.eqb (telescopetype e) "LX200".
Definition is_AltAz (e : cycle_env) : bool := String.eqb (mounttype e) "AltAz".
Definition is_Eq (e : cycle_env) : bool := String.eqb (mounttype e) "Eq".
(** The spelling tested at line 799. *)
Definition is_EQ (e : cycle_env) : bool := String.eqb (mounttype e) "EQ".

(** The clamp that precedes every [MoveAxis] pair, e.g. lines 523-526. *)
Definition clamp_rate (rate limit : R) : R :=
  let rate := if Rgt_dec rate limit then limit else rate in
  if Rlt_dec rate (-1 * limit) then -1 * limit else rate.

(** Lines 387-391: the LX200 azimuth convention. *)
Definition flip_az (az : R) : R :=
  let sataz := degrees az + 180 in
  let sataz := if Rgt_dec sataz 360 then sataz - 360 else sataz in
  radians sataz.

(** Lines 392-397: [:Sz], [:Sa], [:MA#]. *)
Definition goto_altaz (radaz radalt : R) : list ser_cmd :=
  let '(a, l) := rad_to_sexagesimal_alt radaz radalt in
  [Sz (sx_d a) (sx_m a) (trunc (sx_s a));
   Sa (sx_d l) (sx_m l) (trunc (sx_s l)); MA].

(** Lines 405-410: [:Sr], [:Sd], [:MS#]. *)
Definition goto_radec (radra raddec : R) : list ser_cmd :=
  let '(r, d) := rad_to_sexagesimal_ra radra raddec in
  [Sr (sx_d r) (sx_m r) (trunc (sx_s r));
   Sd (sx_d d) (sx_m d) (trunc (sx_s d)); MS].

(** [LX200_alt_degrees], [LX200_az_degrees], [LX200_dec_degrees]:
    the decoded answer. *)
Definition telalt (e : cycle_env) : R := respdegrees (resp_alt e).
Definition telaz (e : cycle_env) : R := respdegrees (resp_az e).
Definition teldec (e : cycle_env) : R := respdegrees (resp_dec e).
(** [LX200_ra_degrees], line 1205. *)
Definition telra (e : cycle_env) : R := resphours (resp_ra e) * 15.

Section Session.

(** [self.axis0rate] and [self.axis1rate], read once at connect time
    (lines 956-957). *)
Variables axis0rate axis1rate : R.

(** [MoveAxis(0, r0)]; [MoveAxis(1, r1)] after the clamps. *)
Definition move_axes (rate0 rate1 : R) : list tel_cmd :=
  [MoveAxis 0 (clamp_rate rate0 axis0rate);
   MoveAxis 1 (clamp_rate rate1 axis1rate)].

(** ** The first slew (lines 376-493) *)

(** Lines 421-423 and 432-434. *)
Definition slew_distance (radalt radaz : R) (poll : response * response) : R :=
  let currentalt := respdegrees (fst poll) in
  let currentaz := respdegrees (snd poll) in
  let altdiff := degrees radalt - currentalt in
  let azdiff := degrees radaz - currentaz in
  sqrt (altdiff ^ 2 + azdiff ^ 2).

(** Lines 426-435: [while totaldiff > 1], one poll per round; [None]
    when the polls run out before the mount has arrived. *)
Fixpoint slew_wait (radalt radaz : R) (polls : list (response * response))
         (totaldiff : R) : option (list ser_cmd) :=
  match polls with
  | [] => if Rgt_dec totaldiff 1 then None else Some []
  | poll :: polls' =>
      if Rgt_dec totaldiff 1 then
        match slew_wait radalt radaz polls' (slew_distance radalt radaz poll) with
        | None => None
        | Some cmds => Some ([GA; GA; GZ] ++ cmds)
        end
      else Some []
  end.

(** Lines 385-435: the LX200 goto, the first distance and the wait.  The
    result is the new [lasttotaldiff] with the serial log. *)
Definition first_slew_lx200 (e : cycle_env) : option (R * list ser_cmd) :=
  let radalt := sat_alt (sat e) in
  let radaz := if is_AltAz e then flip_az (sat_az (sat e)) else sat_az (sat e) in
  let altaz := if is_AltAz e then goto_altaz radaz radalt else [] in
  let radec := if is_Eq e then goto_radec (sat_ra (sat e)) (sat_dec (sat e)) else [] in
  match slew_polls e with
  | [] => None
  | poll :: polls =>
      let totaldiff := slew_distance radalt radaz poll in
      match slew_wait radalt radaz polls totaldiff with
      | None => None
      | Some cmds => Some (totaldiff, altaz ++ radec ++ [GA; GA; GZ] ++ cmds)
      end
  end.

(** Lines 437-492: the ASCOM slew and the first rates. *)
Definition first_slew_ascom (e : cycle_env) : list tel_cmd :=
  let altaz :=
    if is_AltAz e && trackingsat e then
      let azrate := degrees (sat_az (sat2 e) - sat_az (sat e)) in
      let altrate := degrees (sat_alt (sat2 e) - sat_alt (sat e)) in
      SlewToAltAz (degrees (sat_az (sat2 e))) (degrees (sat_alt (sat2 e)))
        :: move_axes azrate altrate
    else [] in
  let eq :=
    if is_Eq e && trackingsat e then
      let rarate := -1 * degrees (sat_ra (sat2 e) - sat_ra (sat e))
                    * cos (sat_dec (sat2 e)) in
      let decrate := degrees (sat_dec (sat2 e) - sat_dec (sat e)) in
      SlewToCoordinates (degrees (sat_ra (sat2 e)) / 15) (degrees (sat_dec (sat2 e)))
        :: move_axes rarate decrate
    else [] in
  altaz ++ eq.

(** The block [if firstslew is True], lines 376-493. *)
Definition first_slew (e : cycle_env) (s : state) : option outcome :=
  let lx :=
    if is_LX200 e then
      match first_slew_lx200 e with
      | None => None
      | Some (totaldiff, cmds) => Some (totaldiff, dnow e, cmds)
      end
    else Some (0, dlast s, []) in
  match lx with
  | None => None
  | Some (last, dl, ser) =>
      let dl := if is_ASCOM e then dnow e else dl in
      let tel := if is_ASCOM e then first_slew_ascom e else [] in
      Some (mkState false (altcorrect s) (azcorrect s) (deccorrect s)
                    (racorrect s) (i s) last dl (objectdec s) (diffinra s),
            tel, ser)
  end.

(** ** Following the ephemeris (lines 494-641) *)

(** Lines 504-536. *)
Definition ephemeris_ascom_altaz (e : cycle_env) : list tel_cmd :=
  let diffaz := degrees (sat_az (sat e)) - Azimuth e in
  let diffalt := degrees (sat_alt (sat e)) - Altitude e in
  let trueazrate := degrees (sat_az (sat2 e) - sat_az (sat e)) in
  let truealtrate := degrees (sat_alt (sat2 e) - sat_alt (sat e)) in
  let azrate := trueazrate + diffaz * 0.75 in
  let altrate := truealtrate + diffalt * 0.75 in
  move_axes azrate altrate.

(** Lines 537-575. *)
Definition ephemeris_ascom_eq (e : cycle_env) : list tel_cmd :=
  let currentra := RightAscension e * 15 in
  let diffra := degrees (sat_ra (sat e)) - currentra in
  let diffdec := degrees (sat_dec (sat e)) - Declination e in
  let truerarate := -1 * degrees (sat_ra (sat2 e) - sat_ra (sat e)) in
  let truedecrate := degrees (sat_dec (sat2 e) - sat_dec (sat e)) in
  let rarate := truerarate - diffra * 0.3 in
  let decrate := truedecrate + diffdec * 0.3 in
  move_axes rarate decrate.

(** Lines 578-609; [i1] is the counter after line 495. *)
Definition ephemeris_lx200_altaz (e : cycle_env) (s : state) (i1 : Z) : outcome :=
  let radalt := sat_alt (sat e) in
  let radaz := flip_az (sat_az (sat e)) in
  if (i1 >? 100)%Z then
    let currentalt := radians (telalt e) in
    let currentaz := radians (telaz e) in
    let altdiff := radalt - currentalt in
    let azdiff := radaz - currentaz in
    let altcorrect1 := altcorrect s + altdiff in
    let azcorrect1 := azcorrect s + azdiff in
    let totaldiff := sqrt (altdiff ^ 2 + azdiff ^ 2) in
    (mkState (firstslew s) altcorrect1 azcorrect1 (deccorrect s) (racorrect s)
             0 totaldiff (dlast s) (objectdec s) (diffinra s),
     [],
     [GA; GA; GZ] ++ goto_altaz (radaz + azcorrect1) (radalt + altcorrect1))
  else
    (mkState (firstslew s) (altcorrect s) (azcorrect s) (deccorrect s)
             (racorrect s) i1 (lasttotaldiff s) (dlast s) (objectdec s)
             (diffinra s),
     [],
     goto_altaz (radaz + azcorrect s) (radalt + altcorrect s)).

(** Lines 610-641. *)
Definition ephemeris_lx200_eq (e : cycle_env) (s : state) : outcome :=
  let radra := sat_ra (sat e) in
  let raddec := sat_dec (sat e) in
  let currentdec := radians (teldec e) in
  let currentra := radians (telra e) in
  let decdiff := raddec - currentdec in
  let radiff := radra - currentra in
  let totaldiff := sqrt (decdiff ^ 2 + radiff ^ 2) in
  let grew := if Rlt_dec (lasttotaldiff s) totaldiff then true else false in
  let deccorrect1 := if grew then deccorrect s + decdiff else deccorrect s in
  let racorrect1 := if grew then racorrect s + radiff else racorrect s in
  (mkState (firstslew s) (altcorrect s) (azcorrect s) deccorrect1 racorrect1
           0 totaldiff (dlast s) (objectdec s) (diffinra s),
   [],
   [GD; GD; GR] ++ goto_radec (radra + racorrect1) (raddec + deccorrect1)).

(** The branch [if trackSettings.objectfollow is False], lines 494-641. *)
Definition follow_ephemeris (e : cycle_env) (s : state) : outcome :=
  let i1 := (i s + 1)%Z in
  if is_ASCOM e then
    let altaz := is_AltAz e && trackingsat e in
    let eq := is_Eq e && trackingsat e in
    (mkState (firstslew s)
             (if altaz then 0 else altcorrect s)
             (if altaz then 0 else azcorrect s)
             (if eq then 0 else deccorrect s)
             (if eq then 0 else racorrect s)
             i1 (lasttotaldiff s) (dlast s) (objectdec s) (diffinra s),
     (if altaz then ephemeris_ascom_altaz e else [])
       ++ (if eq then ephemeris_ascom_eq e else []),
     [])
  else if is_LX200 e then
    if is_AltAz e then ephemeris_lx200_altaz e s i1
    else if is_Eq e then ephemeris_lx200_eq e s
    else
      (mkState (firstslew s) (altcorrect s) (azcorrect s) (deccorrect s)
               (racorrect s) i1 (lasttotaldiff s) (dlast s) (objectdec s)
               (diffinra s), [], [])
  else
    (mkState (firstslew s) (altcorrect s) (azcorrect s) (deccorrect s)
             (racorrect s) i1 (lasttotaldiff s) (dlast s) (objectdec s)
             (diffinra s), [], []).

(** ** Following the visual lock (lines 643-842) *)

Definition polar_of (e : cycle_env) : polar :=
  pixel_polar (targetX e) (targetY e) (mainviewX e) (mainviewY e) (imagescale e).

(** Lines 656-704. *)
Definition visual_ascom_altaz (e : cycle_env) (s : state) : list tel_cmd :=
  if Rgt_dec (dnow e) (dlast s) then
    let currentalt := radians (Altitude e) in
    match sky_delta (Altitude e) (polar_of e) with
    | None => []
    | Some (objectalt, diffinaz) =>
        let altdiff := degrees (radians objectalt - currentalt) in
        let azdiff := diffinaz in
        let azrate := degrees (sat_az (sat2 e) - sat_az (sat e)) + azdiff in
        let altrate := degrees (sat_alt (sat2 e) - sat_alt (sat e)) + altdiff in
        move_axes azrate altrate
    end
  else [].

(** Lines 705-750: the branch that binds [objectdec] and [diffinra]; an
    exception keeps what was bound before it. *)
Definition visual_ascom_eq (e : cycle_env) (s : state)
  : option R * option R * list tel_cmd :=
  if Rgt_dec (dnow e) (dlast s) then
    let currentdec := radians (Declination e) in
    let p := polar_of e in
    match object_alt (Declination e) p with
    | None => (objectdec s, diffinra s, [])
    | Some objectdec1 =>
        match diffinaz_unsigned (Declination e) objectdec1 p with
        | None => (Some objectdec1, diffinra s, [])
        | Some d =>
            let diffinra1 :=
              if Rlt_dec 90 (Rabs (objectangle2 p)) then -1 * d else d in
            let decdiff := radians objectdec1 - currentdec in
            let radiff := radians diffinra1 in
            let rarate := degrees (sat_ra (sat2 e) - sat_ra (sat e))
                          + degrees radiff in
            let decrate := degrees (sat_dec (sat2 e) - sat_dec (sat e))
                           + degrees decdiff in
            (Some objectdec1, Some diffinra1, move_axes rarate decrate)
        end
    end
  else (objectdec s, diffinra s, []).

(** Lines 752-798. *)
Definition visual_lx200_altaz (e : cycle_env) (s : state) : outcome :=
  let radalt := sat_alt (sat e) in
  let radaz := flip_az (sat_az (sat e)) in
  let '(altcorrect1, azcorrect1, last1, reads) :=
    if Rgt_dec (dnow e) (dlast s) then
      let currentalt := radians (telalt e) in
      match sky_delta (telalt e) (polar_of e) with
      | None => (altcorrect s, azcorrect s, lasttotaldiff s, [GA; GA; GZ])
      | Some (objectalt, diffinaz) =>
          let altdiff := radians objectalt - currentalt in
          let azdiff := radians diffinaz in
          let totaldiff := sqrt (altdiff ^ 2 + azdiff ^ 2) in
          if Rlt_dec (lasttotaldiff s) totaldiff
          then (altcorrect s + altdiff, azcorrect s + azdiff, totaldiff,
                [GA; GA; GZ])
          else (altcorrect s, azcorrect s, totaldiff, [GA; GA; GZ])
      end
    else (altcorrect s, azcorrect s, lasttotaldiff s, []) in
  (mkState (firstslew s) altcorrect1 azcorrect1 (deccorrect s) (racorrect s)
           (i s) last1 (dnow e) (objectdec s) (diffinra s),
   [],
   reads ++ goto_altaz (radaz + azcorrect1) (radalt + altcorrect1)).

(** Lines 814-831, the [try] block of the branch tested with ['EQ']: it
    computes [objectalt] and [diffinaz] but then reads [diffinra] and
    [objectdec].  The result is the new [diffinra] and, when no exception
    was raised, [decdiff], [radiff]. *)
Definition visual_lx200_EQ_try (e : cycle_env) (s : state)
  : option R * option (R * R) :=
  let currentdec := radians (teldec e) in
  let p := polar_of e in
  match sky_delta (teldec e) p with
  | None => (diffinra s, None)
  | Some _ =>
      let negated := if Rlt_dec 90 (Rabs (objectangle2 p)) then true else false in
      match diffinra s, negated with
      | None, true => (None, None)
      | _, _ =>
          let diffinra1 :=
            if negated then option_map (fun d => -1 * d) (diffinra s)
            else diffinra s in
          match objectdec s, diffinra1 with
          | Some objectdec0, Some d =>
              (diffinra1, Some (radians objectdec0 - currentdec, radians d))
          | _, _ => (diffinra1, None)
          end
      end
  end.

(** Lines 799-842. *)
Definition visual_lx200_EQ (e : cycle_env) (s : state) : outcome :=
  let radra := sat_ra (sat e) in
  let raddec := sat_dec (sat e) in
  let '(diffinra1, deccorrect1, racorrect1, last1, reads) :=
    if Rgt_dec (dnow e) (dlast s) then
      match visual_lx200_EQ_try e s with
      | (diffinra1, None) =>
          (diffinra1, deccorrect s, racorrect s, lasttotaldiff s, [GD; GD; GR])
      | (diffinra1, Some (decdiff, radiff)) =>
          let totaldiff := sqrt (decdiff ^ 2 + radiff ^ 2) in
          if Rlt_dec (lasttotaldiff s) totaldiff
          then (diffinra1, deccorrect s + decdiff, racorrect s + radiff,
                totaldiff, [GD; GD; GR])
          else (diffinra1, deccorrect s, racorrect s, totaldiff, [GD; GD; GR])
      end
    else (diffinra s, deccorrect s, racorrect s, lasttotaldiff s, []) in
  (mkState (firstslew s) (altcorrect s) (azcorrect s) deccorrect1 racorrect1
           (i s) last1 (dnow e) (objectdec s) diffinra1,
   [],
   reads ++ goto_radec (radra + racorrect1) (raddec + deccorrect1)).

(** The branch [if trackSettings.objectfollow is True], lines 643-842. *)
Definition follow_visual (e : cycle_env) (s : state) : outcome :=
  if is_ASCOM e then
    let altaz := if is_AltAz e && trackingsat e
                 then visual_ascom_altaz e s else [] in
    let '(objectdec1, diffinra1, eq) :=
      if is_Eq e && trackingsat e
      then visual_ascom_eq e s else (objectdec s, diffinra s, []) in
    (mkState (firstslew s) (altcorrect s) (azcorrect s) (deccorrect s)
             (racorrect s) (i s) (lasttotaldiff s) (dlast s) objectdec1
             diffinra1,
     altaz ++ eq, [])
  else if is_LX200 e then
    if is_AltAz e then visual_lx200_altaz e s
    else if is_EQ e then visual_lx200_EQ e s
    else (s, [], [])
  else (s, [], []).

(** The part of an iteration after the first-slew block. *)
Definition follow (e : cycle_env) (s : state) : outcome :=
  if objectfollow e then follow_visual e s else follow_ephemeris e s.

(** ** The loop *)

(** One iteration of [while trackSettings.trackingsat is True]; [None]
    while the first slew has not finished on the polls given. *)
Definition sat_track_cycle (e : cycle_env) (s : state) : option outcome :=
  match (if firstslew s then first_slew e s else Some (s, [], [])) with
  | None => None
  | Some (s1, tel1, ser1) =>
      let '(s2, tel2, ser2) := follow e s1 in
      Some (s2, tel1 ++ tel2, ser1 ++ ser2)
  end.

(** The following parts of a run of iterations, one environment each. *)
Fixpoint follow_run (es : list cycle_env) (s : state) : state :=
  match es with
  | [] => s
  | e :: es' => follow_run es' (fst (fst (follow e s)))
  end.

(** [sat_track] over the iterations that [es] describes: the loop ends at
    the first environment in which [trackingsat] is false, where the ASCOM
    transport gets its [AbortSlew] (lines 845-846); when [es] ends first
    the loop is still running. *)
Fixpoint sat_track_loop (es : list cycle_env) (s : state)
  : option (state * list tel_cmd * list ser_cmd * bool) :=
  match es with
  | [] => Some (s, [], [], false)
  | e :: es' =>
      if trackingsat e then
        match sat_track_cycle e s with
        | None => None
        | Some (s1, tel1, ser1) =>
            match sat_track_loop es' s1 with
            | None => None
            | Some (s2, tel2, ser2, stopped) =>
                Some (s2, tel1 ++ tel2, ser1 ++ ser2, stopped)
            end
        end
      else Some (s, if is_ASCOM e then [AbortSlew] else [], [], true)
  end.

Definition sat_track (es : list cycle_env)
  : option (state * list tel_cmd * list ser_cmd * bool) :=
  sat_track_loop es sat_track_init.

End Session.

(** A [MoveAxis] call stays within the limit of its axis. *)
Definition rate_within (axis0rate axis1rate : R) (c : tel_cmd) : Prop :=
  match c with
  | MoveAxis axis rate =>
      (axis = 0%Z -> - axis0rate <= rate <= axis0rate) /\
      (axis = 1%Z -> - axis1rate <= rate <= axis1rate)
  | _ => True
  end.

(** The gate of lines 584-599: every time the counter passes 100 the
    LX200 alt-az branch corrects, whatever the error did. *)
Definition periodic_correction (e : cycle_env) (s : state) : Prop :=
  is_LX200 e = true /\ is_AltAz e = true /\ objectfollow e = false /\
  (100 < i s + 1)%Z.

(** Each accumulator is what it was or zero (lines 535-536, 574-575). *)
Definition kept_or_zeroed (s s' : state) : Prop :=
  (altcorrect s' = altcorrect s \/ altcorrect s' = 0) /\
  (azcorrect s' = azcorrect s \/ azcorrect s' = 0) /\
  (deccorrect s' = deccorrect s \/ deccorrect s' = 0) /\
  (racorrect s' = racorrect s \/ racorrect s' = 0).

(** A run in which the recorded total error never grows and the periodic
    gate never opens. *)
Fixpoint calm (axis0rate axis1rate : R) (es : list cycle_env) (s : state) : Prop :=
  match es with
  | [] => True
  | e :: es' =>
      let s' := fst (fst (follow axis0rate axis1rate e s)) in
      lasttotaldiff s' <= lasttotaldiff s /\
      ~ periodic_correction e s /\
      calm axis0rate axis1rate es' s'
  end.

(** The menu handlers, lines 851-871: the telescope and mount types they
    assign. *)
Definition setLX200AltAz : string * string := ("LX200"%string, "AltAz"%string).
Definition setLX200Eq : string * string := ("LX200"%string, "Eq"%string).
Definition setASCOMAltAz : string * string := ("ASCOM"%string, "AltAz"%string).
Definition setASCOMEq : string * string := ("ASCOM"%string, "Eq"%string).

(** Line 203 of [__init__], the only other assignment of the mount
    type: [str(clines[11])], the twelfth line of the configuration file
    as it is.  [before] tells whether lines 194-202 ran without an
    exception; a file of fewer than twelve lines raises [IndexError] and
    the handler leaves the mount type as it was. *)
Definition config_mounttype (before : bool) (clines : list string)
           (mounttype : string) : string :=
  if before then
    match nth_error clines 11 with
    | Some line => line
    | None => mounttype
    end
  else mounttype.


(** The cycles of an LX200 alt-az mount under visual lock. *)
Definition lx200_altaz_visual (e : cycle_env) : Prop :=
  telescopetype e = "LX200"%string /\ mounttype e = "AltAz"%string /\
  objectfollow e = true.

(** ** Example situations *)

(** An ASCOM alt-az mount one degree short of a target that moves a tenth
    of a radian per second. *)
Definition env_ascom_altaz : cycle_env :=
  mkEnv "ASCOM" "AltAz" false true 320 240 1 330 250 1
        (mkEphemeris 1 1 0 0) (mkEphemeris (11 / 10) (11 / 10) 0 0)
        0 0 0 0
        (mkResponse 0 0 0) (mkResponse 0 0 0) (mkResponse 0 0 0)
        (mkResponse 0 0 0) [].

(** An LX200 alt-az mount half a radian below the target, on the cycle
    at which the counter passes 100, and the state before that cycle with
    a recorded total error of one radian. *)
Definition env_lx200_altaz : cycle_env :=
  mkEnv "LX200" "AltAz" false true 320 240 1 320 240 0
        (mkEphemeris (1 / 2) 0 0 0) (mkEphemeris (1 / 2) 0 0 0)
        0 0 0 0
        (mkResponse 0 0 0) (mkResponse 180 0 0) (mkResponse 0 0 0)
        (mkResponse 0 0 0) [].

Definition state_before_gate : state :=
  mkState false 0 0 0 0 100 1 0 None None.

(** An LX200 equatorial mount with the visual lock on. *)
Definition env_lx200_eq_visual : cycle_env :=
  mkEnv "LX200" "Eq" true true 320 240 1 330 250 1
        (mkEphemeris 1 1 1 1) (mkEphemeris 1 1 1 1)
        0 0 0 0
        (mkResponse 0 0 0) (mkResponse 0 0 0) (mkResponse 0 0 0)
        (mkResponse 0 0 0) [].

(** An LX200 equatorial mount on target in right ascension and [d]
    radians off in declination, following the ephemeris. *)
Definition env_lx200_eq (d : R) : cycle_env :=
  mkEnv "LX200" "Eq" false true 320 240 1 320 240 0
        (mkEphemeris 0 0 0 d) (mkEphemeris 0 0 0 d)
        0 0 0 0
        (mkResponse 0 0 0) (mkResponse 0 0 0) (mkResponse 0 0 0)
        (mkResponse 0 0 0) [].

(** An LX200 alt-az mount under visual lock with a frame taken at
    time [t]. *)
Definition env_lx200_altaz_visual (t : R) : cycle_env :=
  mkEnv "LX200" "AltAz" true true 320 240 1 330 250 t
        (mkEphemeris 1 1 1 1) (mkEphemeris 1 1 1 1)
        0 0 0 0
        (mkResponse 45 0 0) (mkResponse 0 0 0) (mkResponse 0 0 0)
        (mkResponse 0 0 0) [].

(** An ASCOM alt-az mount at the zenith under visual lock, with a new
    frame. *)
Definition env_ascom_zenith : cycle_env :=
  mkEnv "ASCOM" "AltAz" true true 320 240 1 330 250 1
        (mkEphemeris 1 1 0 0) (mkEphemeris (11 / 10) (11 / 10) 0 0)
        0 90 0 0
        (mkResponse 0 0 0) (mkResponse 0 0 0) (mkResponse 0 0 0)
        (mkResponse 0 0 0) [].

(** The stop button has been pressed on an ASCOM mount. *)
Definition env_stopped : cycle_env :=
  mkEnv "ASCOM" "AltAz" false false 320 240 1 320 240 0
        (mkEphemeris 1 1 0 0) (mkEphemeris 1 1 0 0)
        0 0 0 0
        (mkResponse 0 0 0) (mkResponse 0 0 0) (mkResponse 0 0 0)
        (mkResponse 0 0 0) [].

(** An LX200 equatorial mount whose first poll after the goto already
    answers the target's altitude and azimuth, both zero. *)
Definition env_lx200_arrived : cycle_env :=
  mkEnv "LX200" "Eq" false true 320 240 1 320 240 0
        (mkEphemeris 0 0 0 0) (mkEphemeris 0 0 0 0)
        0 0 0 0
        (mkResponse 0 0 0) (mkResponse 0 0 0) (mkResponse 0 0 0)
        (mkResponse 0 0 0) [(mkResponse 0 0 0, mkResponse 0 0 0)].

(** An LX200 equatorial mount that answers exactly the target's
    position: one hour of right ascension, declination zero. *)
Definition env_lx200_eq_on_target : cycle_env :=
  mkEnv "LX200" "Eq" false true 320 240 1 320 240 0
        (mkEphemeris 0 0 (radians 15) 0) (mkEphemeris 0 0 (radians 15) 0)
        0 0 0 0
        (mkResponse 0 0 0) (mkResponse 0 0 0) (mkResponse 0 0 0)
        (mkResponse 1 0 0) [].

(** An LX200 equatorial mount with the visual lock on, at the head of
    [sat_track]: the first poll after the goto already answers the
    target's altitude and azimuth, both zero. *)
Definition env_lx200_eq_visual_first : cycle_env :=
  mkEnv "LX200" "Eq" true true 320 240 1 330 250 1
        (mkEphemeris 0 0 0 0) (mkEphemeris 0 0 0 0)
        0 0 0 0
        (mkResponse 0 0 0) (mkResponse 0 0 0) (mkResponse 0 0 0)
        (mkResponse 0 0 0) [(mkResponse 0 0 0, mkResponse 0 0 0)].

End Controller.

(* ================================================================== *)
(** * The pointer box and the target selection *)
(* ================================================================== *)

Module Interface.

Import Videotrak.
Local Open Scope Z_scope.

(** [_on_mousewheel], lines 1208-1211; [delta] is [event.delta]. *)
Definition on_mousewheel (boxSize : Q) (delta : Z) : Q :=
  let boxSize := (boxSize + inject_Z delta / 24)%Q in
  if Qlt_le_dec boxSize 5 then 5%Q else boxSize.

(** [trackSettings.boxSize] after a series of wheel events. *)
Definition wheel_run (boxSize : Q) (deltas : list Z) : Q :=
  fold_left on_mousewheel deltas boxSize.


(** [left_click] when no centre is being set, lines 1232-1234: the
    template [img[y0:y1, x0:x1]] cut out of the frame and the ROI box.
    [img] is the frame after the grayscale conversion (and CLAHE for
    features); the brightness threshold of lines 1239-1248 goes through
    OpenCV's blur and is left out. *)
Definition left_click_select (img : image) (mb : box) : box * template :=
  let '((x0, y0), (x1, y1)) := mb in
  (mb, template_of (map (fun row => pyslice row x0 x1) (pyslice img y0 y1))).

(** [(self.targetX, self.targetY)], lines 1328-1330. *)
Definition target (roibox : box) (imageroi : template) : Q * Q :=
  let '(roiheight, roiwidth) := shape imageroi in
  ((inject_Z (fst (fst roibox)) + inject_Z roiwidth / 2)%Q,
   (inject_Z (snd (fst roibox)) + inject_Z roiheight / 2)%Q).

End Interface.

(* ================================================================== *)
(** * Properties of the target locator *)
(* ================================================================== *)

Module VideotrakFacts.

Import Videotrak.
Local Open Scope Z_scope.

Arguments zrange : simpl never.
Arguments imagediff : simpl never.

(** ** Facts about arrays *)

Lemma zip_strict_total {A B C : Type} (f : A -> B -> C) (l1 : list A) (l2 : list B) :
  length l1 = length l2 ->
  exists r, zip_strict (fun a b => Some (f a b)) l1 l2 = Some r.
Proof.
  revert l2; induction l1 as [|a l1 IH]; intros [|b l2] Hlen; simpl in *;
    try discriminate.
  - now exists [].
  - destruct (IH l2) as [r Hr]; [congruence|].
    rewrite Hr. now eexists.
Qed.

Lemma zip_strict_length {A B C : Type} (f : A -> B -> option C) l1 l2 r :
  zip_strict f l1 l2 = Some r -> length l1 = length l2.
Proof.
  revert l2 r; induction l1 as [|a l1 IH]; intros [|b l2] r H; simpl in *;
    try discriminate; auto.
  destruct (f a b); try discriminate.
  destruct (zip_strict f l1 l2) eqn:E; try discriminate.
  f_equal. eapply IH; eauto.
Qed.

Lemma array_map2_same_shape {A B C : Type} (f : A -> B -> C) m1 m2 r :
  array_map2 f m1 m2 = Some r -> same_shape m1 m2.
Proof.
  unfold array_map2, same_shape.
  revert m2 r; induction m1 as [|r1 m1 IH]; intros [|r2 m2] r H; simpl in *;
    try discriminate; constructor.
  - destruct (zip_strict _ r1 r2) eqn:E; try discriminate.
    eapply zip_strict_length; eauto.
  - destruct (zip_strict _ r1 r2); try discriminate.
    destruct (zip_strict _ m1 m2) eqn:E; try discriminate.
    eapply IH; eauto.
Qed.

Lemma array_map2_total {A B C : Type} (f : A -> B -> C) m1 m2 :
  same_shape m1 m2 -> exists r, array_map2 f m1 m2 = Some r.
Proof.
  unfold array_map2, same_shape.
  induction 1 as [|r1 r2 m1 m2 Hlen _ IH]; simpl.
  - now exists [].
  - destruct (zip_strict_total f r1 r2 Hlen) as [row ->].
    destruct IH as [rest ->]. now eexists.
Qed.

Lemma same_shape_sym {A B : Type} (m1 : list (list A)) (m2 : list (list B)) :
  same_shape m1 m2 -> same_shape m2 m1.
Proof.
  unfold same_shape. induction 1; constructor; auto.
Qed.

Lemma zip_strict_nth {A B C : Type} (f : A -> B -> C) l1 l2 r x a b :
  zip_strict (fun a b => Some (f a b)) l1 l2 = Some r ->
  nth_error l1 x = Some a -> nth_error l2 x = Some b ->
  nth_error r x = Some (f a b).
Proof.
  revert l2 r x; induction l1 as [|a1 l1 IH]; intros [|b1 l2] r x H Ha Hb;
    simpl in *; try discriminate.
  - destruct x; discriminate.
  - destruct (zip_strict _ l1 l2) eqn:E; try discriminate.
    injection H as <-.
    destruct x as [|x]; simpl in *.
    + congruence.
    + eapply IH; eauto.
Qed.

Lemma array_map2_pixel {A B C : Type} (f : A -> B -> C) m1 m2 r y x a b :
  array_map2 f m1 m2 = Some r ->
  pixel m1 y x = Some a -> pixel m2 y x = Some b ->
  pixel r y x = Some (f a b).
Proof.
  unfold array_map2, pixel.
  revert m2 r y; induction m1 as [|r1 m1 IH]; intros [|r2 m2] r y H Ha Hb;
    simpl in *; try discriminate.
  - destruct y; discriminate.
  - destruct (zip_strict _ r1 r2) eqn:E1; try discriminate.
    destruct (zip_strict _ m1 m2) eqn:E2; try discriminate.
    injection H as <-.
    destruct y as [|y]; simpl in *.
    + eapply zip_strict_nth; eauto.
    + eapply IH; eauto.
Qed.

Lemma imagediff_eq (img : image) (imageroi : template) (xcheck ycheck : Z) :
  imagediff img imageroi xcheck ycheck =
  match array_map2 absdiff8
          (crop img ycheck xcheck (fst (shape imageroi)) (snd (shape imageroi)))
          imageroi with
  | None => None
  | Some d =>
      Some (fmul (fdiv (inject_Z (array_zsum d)) (array_qsum imageroi)) 100)
  end.
Proof. unfold imagediff. now destruct (shape imageroi). Qed.

(** ** Invariant of the search *)

Section SearchInvariant.

Variable img : image.
Variable imageroi : template.
Variables searchx1 searchy1 : Z.

Lemma search_ok_set_clock n s :
  search_ok img imageroi s -> search_ok img imageroi (set_clock n s).
Proof. now destruct s. Qed.

Lemma scan_x_ok xs : forall ycheck s s',
  search_ok img imageroi s ->
  scan_x img imageroi xs ycheck s = Some s' ->
  search_ok img imageroi s'.
Proof.
  induction xs as [|xcheck xs IH]; intros ycheck s s' Hok H; cbn [scan_x] in H.
  - now injection H as <-.
  - set (xc := clamp_check xcheck _) in H.
    set (yc := clamp_check ycheck _) in H.
    destruct (imagediff img imageroi xc yc) as [d|] eqn:Ed; [|discriminate].
    assert (Hok1 : search_ok img imageroi (if flt d (finalroidiff s)
                              then record_minimum d xc yc s else s)).
    { destruct (flt d (finalroidiff s)); [|exact Hok].
      unfold search_ok; simpl. split; [exact Ed|].
      exists xcheck, ycheck. split; reflexivity. }
    destruct (clock _) eqn:Ec.
    + now injection H as <-.
    + eapply IH; [|exact H]. now apply search_ok_set_clock.
Qed.

Lemma scan_y_ok ys : forall s s',
  search_ok img imageroi s ->
  scan_y img imageroi searchx1 ys s = Some s' ->
  search_ok img imageroi s'.
Proof.
  induction ys as [|ycheck ys IH]; intros s s' Hok H; cbn [scan_y] in H.
  - now injection H as <-.
  - destruct (clock s) eqn:Ec.
    + now injection H as <-.
    + destruct (scan_x _ _ _ _ _) as [s1|] eqn:E1; [|discriminate].
      eapply IH; [|exact H].
      eapply scan_x_ok; [|exact E1]. now apply search_ok_set_clock.
Qed.

Lemma keepgoing_loop_ok fuel : forall s s',
  search_ok img imageroi s ->
  keepgoing_loop img imageroi searchx1 searchy1 fuel s = Some s' ->
  search_ok img imageroi s'.
Proof.
  induction fuel as [|fuel IH]; intros s s' Hok H; cbn [keepgoing_loop] in H; [discriminate|].
  destruct (scan_y _ _ _ _ _) as [s1|] eqn:E1; [|discriminate].
  pose proof (scan_y_ok _ _ _ Hok E1) as Hok1.
  cbn [clock] in H. destruct (clock s1) eqn:Ec.
  - injection H as <-. now destruct s1.
  - destruct (difflowered s1).
    + eapply IH; [|exact H]. now destruct s1.
    + injection H as <-. now destruct s1.
Qed.

Lemma feature_search_ok budget s :
  feature_search img imageroi searchx1 searchy1 budget = Some s -> search_ok img imageroi s.
Proof.
  unfold feature_search. apply keepgoing_loop_ok. reflexivity.
Qed.

End SearchInvariant.

(** ** The search returns *)

Lemma pyslice_length {A : Type} (l : list A) (a n : Z) :
  0 <= a -> 0 <= n -> a + n <= Z.of_nat (length l) ->
  Z.of_nat (length (pyslice l a (a + n))) = n.
Proof.
  intros Ha Hn Hlen. unfold pyslice, norm_index.
  destruct (a <? 0) eqn:E1; [apply Z.ltb_lt in E1; lia|].
  destruct (a + n <? 0) eqn:E2; [apply Z.ltb_lt in E2; lia|].
  rewrite length_firstn, length_skipn. lia.
Qed.

Lemma pyslice_incl {A : Type} (l : list A) (a b : Z) : incl (pyslice l a b) l.
Proof.
  unfold pyslice. intros x Hx.
  set (n1 := Z.to_nat (norm_index (Z.of_nat (length l)) a)) in *.
  set (n2 := Z.to_nat _) in Hx.
  rewrite <- (firstn_skipn n1 l). apply in_or_app. right.
  rewrite <- (firstn_skipn n2 (skipn n1 l)). apply in_or_app. now left.
Qed.

Lemma clamp_check_range v limit :
  0 <= limit -> 0 <= clamp_check v limit <= limit.
Proof.
  intros Hl. unfold clamp_check.
  destruct (v <? 0) eqn:E1; [lia|].
  destruct (v >? limit) eqn:E2; [lia|].
  apply Z.ltb_ge in E1. rewrite Z.gtb_ltb in E2. apply Z.ltb_ge in E2. lia.
Qed.

Lemma same_shape_of_lengths {A B : Type} (c : list (list A)) (m : list (list B)) (w : Z) :
  length c = length m ->
  Forall (fun row => Z.of_nat (length row) = w) c ->
  Forall (fun row => Z.of_nat (length row) = w) m ->
  same_shape c m.
Proof.
  unfold same_shape. revert m.
  induction c as [|rc c IH]; intros [|rm m] Hlen Hc Hm; simpl in *;
    try discriminate; constructor.
  - inversion Hc; inversion Hm; subst. lia.
  - inversion Hc; inversion Hm; subst. apply IH; auto.
Qed.

Lemma crop_same_shape (img : image) (imageroi : template) (x y : Z) :
  rectangular img -> rectangular imageroi ->
  0 <= x <= snd (shape img) - snd (shape imageroi) ->
  0 <= y <= fst (shape img) - fst (shape imageroi) ->
  same_shape (crop img y x (fst (shape imageroi)) (snd (shape imageroi))) imageroi.
Proof.
  intros Himg Hroi Hx Hy. unfold crop.
  assert (Hpos : 0 <= fst (shape imageroi) /\ 0 <= snd (shape imageroi)).
  { unfold shape; simpl; lia. }
  apply same_shape_of_lengths with (w := snd (shape imageroi)).
  - rewrite length_map. apply Nat2Z.inj.
    change (Z.of_nat (length imageroi)) with (fst (shape imageroi)).
    apply pyslice_length; try lia.
    change (Z.of_nat (length img)) with (fst (shape img)). lia.
  - apply Forall_forall. intros row Hin. apply in_map_iff in Hin.
    destruct Hin as [row0 [<- Hin0]].
    apply pyslice_incl in Hin0.
    unfold rectangular in Himg. rewrite Forall_forall in Himg.
    specialize (Himg _ Hin0).
    apply pyslice_length; lia.
  - exact Hroi.
Qed.

Section SearchReturns.

Variable img : image.
Variable imageroi : template.
Variables searchx1 searchy1 : Z.

Hypothesis img_rect : rectangular img.
Hypothesis roi_rect : rectangular imageroi.
Hypothesis roi_width : snd (shape imageroi) <= snd (shape img).
Hypothesis roi_height : fst (shape imageroi) <= fst (shape img).

Lemma imagediff_total xc yc :
  exists d,
    imagediff img imageroi
      (clamp_check xc (snd (shape img) - snd (shape imageroi)))
      (clamp_check yc (fst (shape img) - fst (shape imageroi))) = Some d.
Proof.
  rewrite imagediff_eq.
  assert (Hs : same_shape
                 (crop img (clamp_check yc (fst (shape img) - fst (shape imageroi)))
                       (clamp_check xc (snd (shape img) - snd (shape imageroi)))
                       (fst (shape imageroi)) (snd (shape imageroi))) imageroi).
  { apply crop_same_shape; auto; apply clamp_check_range; lia. }
  destruct (array_map2_total absdiff8 _ _ Hs) as [d ->]. now eexists.
Qed.

Lemma scan_x_total xs : forall ycheck s,
  exists s', scan_x img imageroi xs ycheck s = Some s' /\ (clock s' <= clock s)%nat.
Proof.
  induction xs as [|xcheck xs IH]; intros ycheck s; cbn [scan_x].
  - exists s. split; [reflexivity | lia].
  - destruct (imagediff_total xcheck ycheck) as [d ->].
    set (s1 := if flt d (finalroidiff s) then _ else s).
    assert (Hc : clock s1 = clock s).
    { unfold s1. now destruct (flt d (finalroidiff s)). }
    destruct (clock s1) as [|n] eqn:Ec.
    + exists s1. split; [reflexivity | lia].
    + destruct (IH (clamp_check ycheck (fst (shape img) - fst (shape imageroi)))
                   (set_clock n s1)) as [s' [Hs' Hle]].
      exists s'. split; [exact Hs' | simpl in Hle; lia].
Qed.

Lemma scan_y_total ys : forall s,
  exists s', scan_y img imageroi searchx1 ys s = Some s' /\ (clock s' <= clock s)%nat.
Proof.
  induction ys as [|ycheck ys IH]; intros s; cbn [scan_y].
  - exists s. split; [reflexivity | lia].
  - destruct (clock s) as [|n] eqn:Ec.
    + exists s. split; [reflexivity | lia].
    + destruct (scan_x_total (zrange (searchx1 - 15) 30) ycheck (set_clock n s))
        as [s1 [-> Hle1]].
      destruct (IH s1) as [s' [Hs' Hle]].
      exists s'. split; [exact Hs' | simpl in Hle1; lia].
Qed.

Lemma keepgoing_loop_total fuel : forall s,
  (clock s < fuel)%nat ->
  exists s', keepgoing_loop img imageroi searchx1 searchy1 fuel s = Some s'.
Proof.
  induction fuel as [|fuel IH]; intros s Hfuel; [lia|]. cbn [keepgoing_loop].
  destruct (scan_y_total (zrange (searchy1 - 15) 30) s) as [s1 [-> Hle]].
  destruct (clock s1) as [|n] eqn:Ec.
  - now eexists.
  - destruct (difflowered s1).
    + apply IH. simpl. lia.
    + now eexists.
Qed.

Lemma feature_search_total budget :
  exists s, feature_search img imageroi searchx1 searchy1 budget = Some s.
Proof.
  unfold feature_search. apply keepgoing_loop_total. simpl. lia.
Qed.

End SearchReturns.

(** ** Acceptance *)

Lemma get_x_y_features budget cv found0 img roibox imageroi :
  get_x_y "Features" budget cv found0 img roibox imageroi =
  match feature_search img imageroi (fst (fst roibox)) (snd (fst roibox)) budget with
  | None => None
  | Some s => accept_features img roibox imageroi s
  end.
Proof.
  unfold get_x_y. simpl.
  destruct (feature_search _ _ _ _ _) as [s|]; [|reflexivity].
  destruct (accept_features _ _ _ s) as [[[rb t] f]|]; reflexivity.
Qed.

Lemma accept_features_found img roibox imageroi s :
  search_ok img imageroi s ->
  flt (finalroidiff s) (Fin 20) = true ->
  exists x y imageroi',
    searchxy2 s = Some (x, y) /\
    (exists xc yc,
        x = clamp_check xc (snd (shape img) - snd (shape imageroi)) /\
        y = clamp_check yc (fst (shape img) - fst (shape imageroi))) /\
    blend imageroi (crop img y x (fst (shape imageroi)) (snd (shape imageroi)))
      = Some imageroi' /\
    accept_features img roibox imageroi s =
      Some (((x, y), (x + snd (shape imageroi), y + fst (shape imageroi))),
            imageroi', true).
Proof.
  intros Hok Hlt. unfold search_ok in Hok. unfold accept_features.
  destruct (searchxy2 s) as [[x y]|] eqn:Exy.
  - destruct Hok as [Hd Hclamp]. rewrite imagediff_eq in Hd.
    destruct (array_map2 absdiff8 _ imageroi) as [d|] eqn:Ed; [|discriminate].
    destruct (shape imageroi) as [roiheight roiwidth] eqn:Es.
    cbn [fst snd] in *.
    apply array_map2_same_shape, same_shape_sym in Ed.
    destruct (array_map2_total
                (fun r l => (r * (9 # 10) + inject_Z l * (1 # 10))%Q) _ _ Ed)
      as [imageroi' Hb].
    exists x, y, imageroi'. unfold blend. rewrite Hlt, Hb. auto.
  - rewrite Hok in Hlt. discriminate.
Qed.

Lemma accept_features_not_found img roibox imageroi s :
  flt (finalroidiff s) (Fin 20) = false ->
  accept_features img roibox imageroi s = Some (roibox, imageroi, false).
Proof.
  intros Hlt. unfold accept_features.
  destruct (shape imageroi). now rewrite Hlt.
Qed.

(** The feature strategy keeps the ROI inside the frame: an accepted
    position went through the clamps, a rejected one leaves the box as it
    was. *)
Lemma features_roi_in_frame budget cv found0 img roibox imageroi roibox' imageroi' found :
  snd (shape imageroi) <= snd (shape img) ->
  fst (shape imageroi) <= fst (shape img) ->
  roi_in_frame (snd (shape img)) (fst (shape img)) roibox ->
  get_x_y "Features" budget cv found0 img roibox imageroi
    = Some (roibox', imageroi', found) ->
  roi_in_frame (snd (shape img)) (fst (shape img)) roibox'.
Proof.
  intros Hw Hh Hin H. rewrite get_x_y_features in H.
  destruct (feature_search _ _ _ _ _) as [s|] eqn:Es; [|discriminate].
  apply feature_search_ok in Es.
  destruct (flt (finalroidiff s) (Fin 20)) eqn:Hlt.
  - destruct (accept_features_found img roibox imageroi s Es Hlt)
      as [x [y [t [_ [[xc [yc [Hx Hy]]] [_ Hacc]]]]]].
    rewrite Hacc in H. injection H as <- _ _.
    pose proof (clamp_check_range xc (snd (shape img) - snd (shape imageroi))).
    pose proof (clamp_check_range yc (fst (shape img) - fst (shape imageroi))).
    subst x y. unfold roi_in_frame. unfold shape in *; cbn [fst snd] in *. lia.
  - rewrite (accept_features_not_found _ _ _ _ Hlt) in H.
    now injection H as <- _ _.
Qed.

(** ** The claims about the locator *)

(** C6.  The score that decides [found] is the int8 score, not the
    normalised difference, so a target is reported found although its best
    normalised difference is above 20.  On a frame of one row [0, 255, 219]
    with the template [255, 255, 219] there is one candidate window; its
    normalised difference is 255/729*100, about 35, but the int8 casts
    turn the difference of 0 and 255 into 1, the score is 100/729, and
    [get_x_y] reports the target found and blends the template, whether
    the clock allows the whole scan or a single window.  On a
    black 4x4 frame with a white 2x2 template every candidate window
    differs by 100 per cent, and [get_x_y] reports the target found and
    moves the ROI to the corner (0, 0). *)
Theorem C6_found_at_difference_above_20 :
  let img : image := [[0; 255; 219]] in
  let imageroi : template := template_of [[255; 255; 219]] in
  let roibox : box := ((0, 0), (3, 1)) in
  let black : image := repeat (repeat 0 4%nat) 4%nat in
  let white : template := template_of [[255; 255]; [255; 255]] in
  (forall x y, candidate img imageroi 0 0 x y -> x = 0 /\ y = 0) /\
  option_map (fun d => feqb d (Fin (25500 # 729)))
             (score_reference img imageroi 0 0) = Some true /\
  flt (Fin 20) (Fin (25500 # 729)) = true /\
  option_map (fun d => feqb d (Fin (100 # 729)))
             (imagediff img imageroi 0 0) = Some true /\
  (exists imageroi',
      get_x_y "Features" 1000 (mkBright [] 0 0 0) false img roibox imageroi
        = Some (roibox, imageroi', true) /\
      get_x_y "Features" 1 (mkBright [] 0 0 0) false img roibox imageroi
        = Some (roibox, imageroi', true) /\
      pixel imageroi' 0 0 = Some ((255 * (9 # 10) + inject_Z 0 * (1 # 10))%Q)) /\
  (forall x y,
      candidate black white 1 1 x y ->
      option_map (fun d => feqb d (Fin 100)) (score_reference black white x y)
        = Some true) /\
  (exists imageroi',
      get_x_y "Features" 1000 (mkBright [] 0 0 0) false black
              ((1, 1), (3, 3)) white
        = Some (((0, 0), (2, 2)), imageroi', true)).
Proof.
  cbv zeta. split; [|split; [|split; [|split; [|split; [|split]]]]].
  - intros x y [xc [yc [_ [_ [Hx Hy]]]]].
    change (snd (shape [[0; 255; 219]])
            - snd (shape (template_of [[255; 255; 219]]))) with 0 in Hx.
    change (fst (shape [[0; 255; 219]])
            - fst (shape (template_of [[255; 255; 219]]))) with 0 in Hy.
    pose proof (clamp_check_range xc 0). pose proof (clamp_check_range yc 0).
    lia.
  - vm_compute. reflexivity.
  - vm_compute. reflexivity.
  - vm_compute. reflexivity.
  - eexists. split; [|split]; vm_compute; reflexivity.
  - intros x y [xc [yc [_ [_ [Hx Hy]]]]].
    change (snd (shape (repeat (repeat 0 4%nat) 4%nat))
            - snd (shape (template_of [[255; 255]; [255; 255]]))) with 2 in Hx.
    change (fst (shape (repeat (repeat 0 4%nat) 4%nat))
            - fst (shape (template_of [[255; 255]; [255; 255]]))) with 2 in Hy.
    pose proof (clamp_check_range xc 2). pose proof (clamp_check_range yc 2).
    assert (Cx : x = 0 \/ x = 1 \/ x = 2) by lia.
    assert (Cy : y = 0 \/ y = 1 \/ y = 2) by lia.
    clear - Cx Cy.
    destruct Cx as [->|[->| ->]]; destruct Cy as [->|[->| ->]];
      vm_compute; reflexivity.
  - eexists. vm_compute. reflexivity.
Qed.

(** C7.  The score that [get_x_y] computes is not the normalised absolute
    difference: for a window pixel 200 against a template pixel 50 the
    int8 casts give 106/50*100 = 212, the reference 150/50*100 = 300. *)
Theorem C7_int8_score_differs_from_reference :
  option_map (fun d => feqb d (Fin 212)) (imagediff [[200]] [[inject_Z 50]] 0 0)
    = Some true /\
  option_map (fun d => feqb d (Fin 300)) (score_reference [[200]] [[inject_Z 50]] 0 0)
    = Some true.
Proof. split; vm_compute; reflexivity. Qed.

(** Where every pixel is below 128 the int8 arithmetic is exact. *)
Lemma absdiff8_exact_below_128 (c r : Z) :
  0 <= c <= 127 -> 0 <= r <= 127 ->
  absdiff8 c (inject_Z r) = Z.abs (c - r).
Proof.
  intros Hc Hr. unfold absdiff8, astype_int8, astype_int8_q, Qtrunc.
  assert (Hq : (if Qlt_le_dec (inject_Z r) 0 then Qceiling (inject_Z r)
                else Qfloor (inject_Z r)) = r).
  { destruct (Qlt_le_dec (inject_Z r) 0); [apply Qceiling_Z | apply Qfloor_Z]. }
  rewrite Hq.
  assert (Hw : forall z, -128 <= z <= 127 -> wrap8 z = z).
  { intros z Hz. unfold wrap8. rewrite Z.mod_small; lia. }
  rewrite (Hw c), (Hw r) by lia.
  rewrite (Hw (c - r)) by lia. apply Hw. lia.
Qed.

(** A template of constant 100 under a patch of constant 200 blends to
    constant 110. *)
Lemma blend_constant_example :
  option_map (forallb (forallb (fun q => Qeq_bool q 110)))
             (blend [[100; 100]; [100; 100]]%Q [[200; 200]; [200; 200]])
  = Some true.
Proof. vm_compute. reflexivity. Qed.

(** C9.  When the feature strategy accepts a match, the returned template
    is the elementwise blend of the old template with the patch
    [learnimg] cut out of the frame at the returned corner: every pixel is
    [0.9 * old + 0.1 * patch]; an old pixel 100 under a patch pixel 200
    becomes 110, and a new pixel equals the patch pixel only where the old
    one already did. *)
Theorem C9_template_blend_law :
  forall budget cv found0 img roibox imageroi roibox' imageroi',
    get_x_y "Features" budget cv found0 img roibox imageroi
      = Some (roibox', imageroi', true) ->
    let learnimg := crop img (snd (fst roibox')) (fst (fst roibox'))
                         (fst (shape imageroi)) (snd (shape imageroi)) in
    same_shape imageroi learnimg /\
    same_shape imageroi imageroi' /\
    forall y x t p,
      pixel imageroi y x = Some t -> pixel learnimg y x = Some p ->
      exists t',
        pixel imageroi' y x = Some t' /\
        (t' == t * (9 # 10) + inject_Z p * (1 # 10))%Q /\
        ((t == 100)%Q -> p = 200 -> (t' == 110)%Q) /\
        (~ (t == inject_Z p)%Q -> ~ (t' == inject_Z p)%Q).
Proof.
  intros budget cv found0 img roibox imageroi roibox' imageroi' H learnimg.
  rewrite get_x_y_features in H.
  destruct (feature_search _ _ _ _ _) as [s|] eqn:Es; [|discriminate].
  apply feature_search_ok in Es.
  destruct (flt (finalroidiff s) (Fin 20)) eqn:Hlt.
  2:{ rewrite (accept_features_not_found _ _ _ _ Hlt) in H. discriminate. }
  destruct (accept_features_found img roibox imageroi s Es Hlt)
    as [x0 [y0 [t0 [_ [_ [Hb Hacc]]]]]].
  rewrite Hacc in H. injection H as <- <-.
  subst learnimg. simpl fst; simpl snd.
  unfold blend in Hb.
  split; [eapply array_map2_same_shape; exact Hb|].
  split.
  { pose proof (array_map2_same_shape _ _ _ _ Hb) as Hs.
    clear - Hb. unfold array_map2 in Hb. unfold same_shape.
    revert Hb. generalize (crop img y0 x0 (fst (shape imageroi)) (snd (shape imageroi))).
    revert t0. induction imageroi as [|r m IH]; intros t0 [|r2 m2] Hb;
      simpl in Hb; try discriminate.
    - injection Hb as <-. constructor.
    - destruct (zip_strict _ r r2) as [row|] eqn:E1; [|discriminate].
      destruct (zip_strict _ m m2) as [rest|] eqn:E2; [|discriminate].
      injection Hb as <-. constructor; [|eapply IH; eauto].
      clear - E1. revert r2 row E1.
      induction r as [|a r IH]; intros [|b r2] row E1; simpl in E1;
        try discriminate.
      + now injection E1 as <-.
      + destruct (zip_strict _ r r2) as [rr|] eqn:E; [|discriminate].
        injection E1 as <-. simpl. f_equal. eapply IH; eauto. }
  intros y x t p Ht Hp.
  exists (t * (9 # 10) + inject_Z p * (1 # 10))%Q.
  split; [exact (array_map2_pixel _ _ _ _ _ _ _ _ Hb Ht Hp)|].
  split; [reflexivity|].
  split.
  - intros Ht100 ->. rewrite Ht100. reflexivity.
  - intros Hne Heq. apply Hne.
    assert (E : (t * (9 # 10) == inject_Z p * (9 # 10))%Q).
    { rewrite <- (Qplus_inj_r _ _ (inject_Z p * (1 # 10))).
      rewrite Heq. ring. }
    apply Qmult_inj_r in E; [exact E | discriminate].
Qed.

Lemma C9_template_blend_law_witness :
  let learnimg := crop frame_3x4 0 0 (fst (shape [[inject_Z 11]]))
                       (snd (shape [[inject_Z 11]])) in
  same_shape [[inject_Z 11]] learnimg /\
  same_shape [[inject_Z 11]] [[(11 * (9 # 10) + inject_Z 10 * (1 # 10))%Q]] /\
  forall y x t p,
    pixel [[inject_Z 11]] y x = Some t -> pixel learnimg y x = Some p ->
    exists t',
      pixel [[(11 * (9 # 10) + inject_Z 10 * (1 # 10))%Q]] y x = Some t' /\
      (t' == t * (9 # 10) + inject_Z p * (1 # 10))%Q /\
      ((t == 100)%Q -> p = 200 -> (t' == 110)%Q) /\
      (~ (t == inject_Z p)%Q -> ~ (t' == inject_Z p)%Q).
Proof.
  apply (C9_template_blend_law 5000 (mkBright [] 0 0 0) false frame_3x4
           ((1, 1), (2, 2)) [[inject_Z 11]] ((0, 0), (1, 1))).
  vm_compute. reflexivity.
Defined.

(** C4.  In the brightness strategy the re-centred corner is only clamped
    at zero: a 4x4 ROI at the right edge of an 8x4 frame whose bright
    pixel sits in its last column is moved to x = 5 and now ends at
    x = 9, beyond the frame. *)
Theorem C4_bright_roi_leaves_frame :
  let img : image := repeat (repeat 0 8%nat) 4%nat in
  let imageroi : template := repeat (repeat (inject_Z 0) 4%nat) 4%nat in
  let roibox : box := ((4, 0), (8, 4)) in
  let cv := mkBright imageroi (255 # 1) (765 # 1) (510 # 1) in
  roi_in_frame 8 4 roibox /\
  exists imageroi',
    get_x_y "Bright" 1000 cv false img roibox imageroi
      = Some (((5, 0), (9, 4)), imageroi', true) /\
    ~ roi_in_frame 8 4 ((5, 0), (9, 4)).
Proof.
  cbv zeta. split.
  - unfold roi_in_frame. lia.
  - eexists. split.
    + vm_compute. reflexivity.
    + unfold roi_in_frame. lia.
Qed.

(** ** The search as a minimisation *)

Lemma flt_irrefl (d : fnum) : flt d d = false.
Proof.
  destruct d as [q| | |]; simpl; try reflexivity.
  destruct (Qlt_le_dec q q) as [H|H]; [|reflexivity].
  exfalso. exact (Qlt_irrefl _ H).
Qed.

Lemma flt_trans (a b c : fnum) :
  flt a b = true -> flt b c = true -> flt a c = true.
Proof.
  destruct a as [x| | |], b as [y| | |], c as [z| | |]; simpl;
    try discriminate; try reflexivity.
  destruct (Qlt_le_dec x y) as [Hxy|]; [|discriminate].
  destruct (Qlt_le_dec y z) as [Hyz|]; [|discriminate].
  destruct (Qlt_le_dec x z) as [|Hzx]; [reflexivity|].
  intros _ _. exfalso.
  apply (Qlt_irrefl x). eapply Qlt_le_trans; [|exact Hzx].
  eapply Qlt_trans; eauto.
Qed.

Lemma flt_nan_right (d : fnum) : flt d NaN = false.
Proof. now destruct d. Qed.

Lemma in_zrange (a k : Z) (n : nat) :
  In k (zrange a n) -> a <= k < a + Z.of_nat n.
Proof.
  unfold zrange. intros H. apply in_map_iff in H.
  destruct H as [j [<- Hj]]. apply in_seq in Hj. lia.
Qed.

Lemma zrange_in (a k : Z) (n : nat) :
  a <= k < a + Z.of_nat n -> In k (zrange a n).
Proof.
  intros H. unfold zrange. apply in_map_iff.
  exists (Z.to_nat (k - a)). split; [lia|]. apply in_seq. lia.
Qed.

Lemma zrange_length (a : Z) (n : nat) : length (zrange a n) = n.
Proof. unfold zrange. now rewrite length_map, length_seq. Qed.

Lemma clamp_check_idem (v limit : Z) :
  0 <= limit -> clamp_check (clamp_check v limit) limit = clamp_check v limit.
Proof.
  intros Hl. pose proof (clamp_check_range v limit Hl) as Hr.
  set (c := clamp_check v limit) in *. unfold clamp_check.
  destruct (c <? 0) eqn:E1; [apply Z.ltb_lt in E1; lia|].
  destruct (c >? limit) eqn:E2; [|reflexivity].
  rewrite Z.gtb_ltb in E2. apply Z.ltb_lt in E2. lia.
Qed.

Section SearchMinimum.

Variable img : image.
Variable imageroi : template.
Variables searchx1 searchy1 : Z.

Hypothesis roi_height : fst (shape imageroi) <= fst (shape img).

Let clampx (xc : Z) : Z := clamp_check xc (snd (shape img) - snd (shape imageroi)).
Let clampy (yc : Z) : Z := clamp_check yc (fst (shape img) - fst (shape imageroi)).

(** One step of the scan keeps what has been seen, and the minimum is
    never NaN. *)
Lemma record_keeps d x y s d0 :
  flt d0 (finalroidiff s) = false ->
  flt d0 (finalroidiff (if flt d (finalroidiff s)
                        then record_minimum d x y s else s)) = false.
Proof.
  intros H0. destruct (flt d (finalroidiff s)) eqn:Hd; [|exact H0].
  cbn [record_minimum finalroidiff].
  destruct (flt d0 d) eqn:E; [|reflexivity].
  rewrite (flt_trans _ _ _ E Hd) in H0. discriminate.
Qed.

Lemma record_sees d x y s :
  flt d (finalroidiff (if flt d (finalroidiff s)
                       then record_minimum d x y s else s)) = false.
Proof.
  destruct (flt d (finalroidiff s)) eqn:Hd; [|exact Hd].
  apply flt_irrefl.
Qed.

Lemma record_not_nan d x y s :
  finalroidiff s <> NaN ->
  finalroidiff (if flt d (finalroidiff s)
                then record_minimum d x y s else s) <> NaN.
Proof.
  intros Hn. destruct (flt d (finalroidiff s)) eqn:Hd; [|exact Hn].
  cbn [record_minimum finalroidiff]. intros ->. discriminate.
Qed.

Lemma scan_x_keeps xs : forall ycheck s s',
  scan_x img imageroi xs ycheck s = Some s' ->
  (finalroidiff s <> NaN -> finalroidiff s' <> NaN) /\
  (forall d0, flt d0 (finalroidiff s) = false -> flt d0 (finalroidiff s') = false).
Proof.
  induction xs as [|xcheck xs IH]; intros ycheck s s' H; cbn [scan_x] in H.
  - injection H as <-. auto.
  - destruct (imagediff img imageroi _ _) as [d|] eqn:Ed; [|discriminate].
    set (s1 := if flt d (finalroidiff s) then _ else s) in H.
    assert (Hn1 : finalroidiff s <> NaN -> finalroidiff s1 <> NaN)
      by apply record_not_nan.
    assert (Hk1 : forall d0, flt d0 (finalroidiff s) = false ->
                             flt d0 (finalroidiff s1) = false)
      by (intros d0; apply record_keeps).
    destruct (clock s1) as [|n].
    + injection H as <-. auto.
    + destruct (IH _ _ _ H) as [Hn Hk]. cbn [set_clock finalroidiff] in *.
      split; auto.
Qed.

Lemma scan_y_keeps ys : forall s s',
  scan_y img imageroi searchx1 ys s = Some s' ->
  (finalroidiff s <> NaN -> finalroidiff s' <> NaN) /\
  (forall d0, flt d0 (finalroidiff s) = false -> flt d0 (finalroidiff s') = false).
Proof.
  induction ys as [|ycheck ys IH]; intros s s' H; cbn [scan_y] in H.
  - injection H as <-. auto.
  - destruct (clock s) as [|n].
    + injection H as <-. auto.
    + destruct (scan_x _ _ _ _ _) as [s1|] eqn:E1; [|discriminate].
      destruct (scan_x_keeps _ _ _ _ E1) as [Hn1 Hk1].
      destruct (IH _ _ H) as [Hn Hk]. cbn [set_clock finalroidiff] in *.
      split; auto.
Qed.

Lemma keepgoing_loop_keeps fuel : forall s s',
  keepgoing_loop img imageroi searchx1 searchy1 fuel s = Some s' ->
  (finalroidiff s <> NaN -> finalroidiff s' <> NaN) /\
  (forall d0, flt d0 (finalroidiff s) = false -> flt d0 (finalroidiff s') = false).
Proof.
  induction fuel as [|fuel IH]; intros s s' H; cbn [keepgoing_loop] in H;
    [discriminate|].
  destruct (scan_y _ _ _ _ _) as [s1|] eqn:E1; [|discriminate].
  destruct (scan_y_keeps _ _ _ E1) as [Hn1 Hk1].
  cbn [clock] in H. destruct (clock s1) as [|n].
  - injection H as <-. cbn [finalroidiff]. auto.
  - destruct (difflowered s1).
    + destruct (IH _ _ H) as [Hn Hk]. cbn [set_clock finalroidiff] in *.
      split; auto.
    + injection H as <-. cbn [set_clock finalroidiff]. auto.
Qed.

(** With enough clock a row is scanned to its end. *)
Lemma scan_x_full xs : forall ycheck s s',
  (length xs <= clock s)%nat ->
  scan_x img imageroi xs ycheck s = Some s' ->
  clock s' = (clock s - length xs)%nat /\
  forall xc, In xc xs -> seen img imageroi xc ycheck s'.
Proof.
  induction xs as [|xcheck xs IH]; intros ycheck s s' Hc H; cbn [scan_x] in H.
  - injection H as <-. split; [simpl; lia | intros xc []].
  - destruct (imagediff img imageroi _ _) as [d|] eqn:Ed; [|discriminate].
    set (s1 := if flt d (finalroidiff s) then _ else s) in H.
    assert (Hc1 : clock s1 = clock s).
    { unfold s1. now destruct (flt d (finalroidiff s)). }
    assert (Hsee : flt d (finalroidiff s1) = false) by apply record_sees.
    simpl in Hc.
    destruct (clock s1) as [|n] eqn:Ec; [lia|].
    pose proof (scan_x_keeps _ _ _ _ H) as [_ Hk].
    assert (Hfuel : (length xs <= clock (set_clock n s1))%nat)
      by (cbn [set_clock clock]; lia).
    destruct (IH _ _ _ Hfuel H) as [Hcl Hin].
    cbn [set_clock clock] in Hcl. split; [cbn [length]; lia|].
    intros xc [<-|Hxc].
    + exists d. split; [exact Ed|]. apply Hk. exact Hsee.
    + destruct (Hin xc Hxc) as [d' [Ed' Hd']].
      exists d'. split; [|exact Hd'].
      unfold clampy in *. rewrite <- Ed'. f_equal.
      symmetry. apply clamp_check_idem. lia.
Qed.

Lemma scan_y_full ys : forall s s',
  (31 * length ys <= clock s)%nat ->
  scan_y img imageroi searchx1 ys s = Some s' ->
  clock s' = (clock s - 31 * length ys)%nat /\
  forall xc yc, In xc (zrange (searchx1 - 15) 30) -> In yc ys -> seen img imageroi xc yc s'.
Proof.
  induction ys as [|ycheck ys IH]; intros s s' Hc H; cbn [scan_y] in H.
  - injection H as <-. split; [simpl; lia | intros xc yc _ []].
  - cbn [length] in Hc.
    destruct (clock s) as [|n] eqn:Ec; [lia|].
    destruct (scan_x _ _ _ _ _) as [s1|] eqn:E1; [|discriminate].
    assert (Hrow : (length (zrange (searchx1 - 15) 30)
                    <= clock (set_clock n s))%nat)
      by (rewrite zrange_length; cbn [set_clock clock]; lia).
    destruct (scan_x_full _ _ _ _ Hrow E1) as [Hc1 Hin1].
    rewrite zrange_length in Hc1. cbn [set_clock clock] in Hc1.
    assert (Hrest : (31 * length ys <= clock s1)%nat) by lia.
    destruct (IH _ _ Hrest H) as [Hc2 Hin2].
    destruct (scan_y_keeps _ _ _ H) as [_ Hk].
    split; [cbn [length]; lia|].
    intros xc yc Hxc [<-|Hyc].
    + destruct (Hin1 xc Hxc) as [d [Ed Hd]]. exists d. auto.
    + apply Hin2; assumption.
Qed.

Lemma scan_x_near xs : forall ycheck s s',
  Forall (fun xc => searchx1 - 15 <= xc < searchx1 + 15) xs ->
  searchy1 - 15 <= ycheck < searchy1 + 15 \/
    (exists yc, searchy1 - 15 <= yc < searchy1 + 15 /\ ycheck = clampy yc) ->
  near_ok img imageroi searchx1 searchy1 s ->
  scan_x img imageroi xs ycheck s = Some s' -> near_ok img imageroi searchx1 searchy1 s'.
Proof.
  induction xs as [|xcheck xs IH]; intros ycheck s s' Hxs Hy Hok H;
    cbn [scan_x] in H.
  - now injection H as <-.
  - inversion Hxs as [|? ? Hx Hxs']; subst.
    destruct (imagediff img imageroi _ _) as [d|] eqn:Ed; [|discriminate].
    set (s1 := if flt d (finalroidiff s) then _ else s) in H.
    assert (Hy' : exists yc, searchy1 - 15 <= yc < searchy1 + 15 /\
                             clampy ycheck = clampy yc).
    { destruct Hy as [Hy|[yc [Hyc ->]]].
      - exists ycheck. auto.
      - exists yc. split; [exact Hyc|].
        unfold clampy. apply clamp_check_idem. lia. }
    assert (Hok1 : near_ok img imageroi searchx1 searchy1 s1).
    { unfold s1. destruct (flt d (finalroidiff s)); [|exact Hok].
      unfold near_ok. cbn [record_minimum searchxy2].
      destruct Hy' as [yc [Hyc Ey]].
      exists xcheck, yc. repeat split; try lia. exact Ey. }
    destruct (clock s1) as [|n].
    + now injection H as <-.
    + eapply IH; [exact Hxs' | | | exact H].
      * right. destruct Hy' as [yc [Hyc Ey]]. exists yc. auto.
      * now destruct s1.
Qed.

Lemma scan_y_near ys : forall s s',
  Forall (fun yc => searchy1 - 15 <= yc < searchy1 + 15) ys ->
  near_ok img imageroi searchx1 searchy1 s ->
  scan_y img imageroi searchx1 ys s = Some s' -> near_ok img imageroi searchx1 searchy1 s'.
Proof.
  induction ys as [|ycheck ys IH]; intros s s' Hys Hok H; cbn [scan_y] in H.
  - now injection H as <-.
  - inversion Hys as [|? ? Hy Hys']; subst.
    destruct (clock s) as [|n].
    + now injection H as <-.
    + destruct (scan_x _ _ _ _ _) as [s1|] eqn:E1; [|discriminate].
      eapply IH; [exact Hys' | | exact H].
      eapply scan_x_near; [ | left; exact Hy | | exact E1].
      * apply Forall_forall. intros xc Hxc. apply in_zrange in Hxc. lia.
      * now destruct s.
Qed.

Lemma keepgoing_loop_near fuel : forall s s',
  near_ok img imageroi searchx1 searchy1 s ->
  keepgoing_loop img imageroi searchx1 searchy1 fuel s = Some s' -> near_ok img imageroi searchx1 searchy1 s'.
Proof.
  induction fuel as [|fuel IH]; intros s s' Hok H; cbn [keepgoing_loop] in H;
    [discriminate|].
  destruct (scan_y _ _ _ _ _) as [s1|] eqn:E1; [|discriminate].
  assert (Hok1 : near_ok img imageroi searchx1 searchy1 s1).
  { eapply scan_y_near; [ | exact Hok | exact E1].
    apply Forall_forall. intros yc Hyc. apply in_zrange in Hyc. lia. }
  cbn [clock] in H. destruct (clock s1) as [|n].
  - injection H as <-. now destruct s1.
  - destruct (difflowered s1).
    + eapply IH; [|exact H]. now destruct s1.
    + injection H as <-. now destruct s1.
Qed.

Lemma feature_search_near budget s :
  feature_search img imageroi searchx1 searchy1 budget = Some s -> near_ok img imageroi searchx1 searchy1 s.
Proof. unfold feature_search. apply keepgoing_loop_near. exact I. Qed.

(** With 930 clock tests left, the first pass sees the whole
    neighbourhood, and what it has seen stays seen. *)
Lemma feature_search_minimum budget s :
  (930 <= budget)%nat ->
  feature_search img imageroi searchx1 searchy1 budget = Some s ->
  finalroidiff s <> NaN /\
  forall xc yc,
    searchx1 - 15 <= xc < searchx1 + 15 ->
    searchy1 - 15 <= yc < searchy1 + 15 ->
    seen img imageroi xc yc s.
Proof.
  intros Hb H. unfold feature_search in H. cbn [keepgoing_loop] in H.
  destruct (scan_y _ _ _ _ _) as [s1|] eqn:E1; [|discriminate].
  destruct (scan_y_keeps _ _ _ E1) as [Hn1 _].
  assert (Hpass : (31 * length (zrange (searchy1 - 15) 30)
                   <= clock (mkSearch budget PInf None false))%nat)
    by (rewrite zrange_length; cbn [clock]; lia).
  destruct (scan_y_full _ _ _ Hpass E1) as [_ Hin].
  assert (Hs1 : finalroidiff s1 <> NaN) by (apply Hn1; discriminate).
  assert (Hseen1 : forall xc yc,
             searchx1 - 15 <= xc < searchx1 + 15 ->
             searchy1 - 15 <= yc < searchy1 + 15 -> seen img imageroi xc yc s1).
  { intros xc yc Hx Hy. apply Hin; apply zrange_in; simpl; lia. }
  assert (Hgoal : forall s2, finalroidiff s2 = finalroidiff s1 ->
            finalroidiff s2 <> NaN /\
            forall xc yc,
              searchx1 - 15 <= xc < searchx1 + 15 ->
              searchy1 - 15 <= yc < searchy1 + 15 -> seen img imageroi xc yc s2).
  { intros s2 E. split; [congruence|]. intros xc yc Hx Hy.
    destruct (Hseen1 xc yc Hx Hy) as [d [Ed Hd]]. exists d. rewrite E. auto. }
  cbn [clock] in H. destruct (clock s1) as [|n].
  - injection H as <-. apply Hgoal. reflexivity.
  - destruct (difflowered s1).
    + destruct (keepgoing_loop_keeps _ _ _ H) as [Hn Hk].
      cbn [set_clock finalroidiff] in *. split; [auto|].
      intros xc yc Hx Hy. destruct (Hseen1 xc yc Hx Hy) as [d [Ed Hd]].
      exists d. auto.
    + injection H as <-. apply Hgoal. reflexivity.
Qed.

End SearchMinimum.

(** ** What the feature strategy guarantees *)

Lemma clamp_check_inside (v limit : Z) :
  0 <= v <= limit -> clamp_check v limit = v.
Proof.
  intros H. unfold clamp_check.
  destruct (v <? 0) eqn:E1; [apply Z.ltb_lt in E1; lia|].
  destruct (v >? limit) eqn:E2; [|reflexivity].
  rewrite Z.gtb_ltb in E2. apply Z.ltb_lt in E2. lia.
Qed.

Lemma clamp_check_near (v c limit : Z) :
  0 <= c <= limit -> c - 15 <= v < c + 15 ->
  c - 15 <= clamp_check v limit <= c + 14.
Proof.
  intros Hc Hv. unfold clamp_check.
  destruct (v <? 0) eqn:E1; [apply Z.ltb_lt in E1; lia|].
  destruct (v >? limit) eqn:E2; [|lia].
  rewrite Z.gtb_ltb in E2. apply Z.ltb_lt in E2. lia.
Qed.

(** The feature strategy never moves the corner of the ROI by more than
    15 pixels in a coordinate. *)
Theorem features_roi_moves_at_most_15 :
  forall budget cv found0 img roibox imageroi roibox' imageroi' found,
    0 <= fst (fst roibox) <= snd (shape img) - snd (shape imageroi) ->
    0 <= snd (fst roibox) <= fst (shape img) - fst (shape imageroi) ->
    get_x_y "Features" budget cv found0 img roibox imageroi
      = Some (roibox', imageroi', found) ->
    fst (fst roibox) - 15 <= fst (fst roibox') <= fst (fst roibox) + 14 /\
    snd (fst roibox) - 15 <= snd (fst roibox') <= snd (fst roibox) + 14.
Proof.
  intros budget cv found0 img roibox imageroi roibox' imageroi' found Hx Hy H.
  rewrite get_x_y_features in H.
  destruct (feature_search _ _ _ _ _) as [s|] eqn:Es; [|discriminate].
  pose proof (feature_search_ok _ _ _ _ _ _ Es) as Hok.
  assert (Hfit : fst (shape imageroi) <= fst (shape img)) by lia.
  pose proof (feature_search_near _ _ _ _ Hfit _ _ Es) as Hnear.
  destruct (flt (finalroidiff s) (Fin 20)) eqn:Hlt.
  - destruct (accept_features_found img roibox imageroi s Hok Hlt)
      as [x [y [t [Exy [_ [_ Hacc]]]]]].
    rewrite Hacc in H. injection H as <- _ _.
    unfold near_ok in Hnear. rewrite Exy in Hnear.
    destruct Hnear as [xc [yc [Hxc [Hyc [-> ->]]]]].
    cbn [fst snd].
    split; apply clamp_check_near; assumption.
  - rewrite (accept_features_not_found _ _ _ _ Hlt) in H.
    injection H as <- _ _. lia.
Qed.

Lemma features_roi_moves_at_most_15_witness :
  0 <= 1 <= snd (shape frame_3x4) - snd (shape [[inject_Z 11]]) /\
  0 <= 1 <= fst (shape frame_3x4) - fst (shape [[inject_Z 11]]) /\
  1 - 15 <= 0 <= 1 + 14 /\ 1 - 15 <= 0 <= 1 + 14.
Proof.
  split; [simpl; lia|]. split; [simpl; lia|].
  apply (features_roi_moves_at_most_15 5000 (mkBright [] 0 0 0) false
           frame_3x4 ((1, 1), (2, 2)) [[inject_Z 11]] ((0, 0), (1, 1))
           [[(11 * (9 # 10) + inject_Z 10 * (1 # 10))%Q]] true).
  - simpl; lia.
  - simpl; lia.
  - vm_compute. reflexivity.
Defined.

Lemma features_roi_in_frame_witness :
  roi_in_frame (snd (shape frame_3x4)) (fst (shape frame_3x4)) ((0, 0), (1, 1)).
Proof.
  apply (features_roi_in_frame 5000 (mkBright [] 0 0 0) false frame_3x4
           ((1, 1), (2, 2)) [[inject_Z 11]] ((0, 0), (1, 1))
           [[(11 * (9 # 10) + inject_Z 10 * (1 # 10))%Q]] true).
  - simpl; lia.
  - simpl; lia.
  - simpl; lia.
  - vm_compute. reflexivity.
Defined.

(** ** A window that equals the template *)

Lemma Qtrunc_inject_Z (r : Z) : Qtrunc (inject_Z r) = r.
Proof.
  unfold Qtrunc.
  destruct (Qlt_le_dec (inject_Z r) 0); [apply Qceiling_Z | apply Qfloor_Z].
Qed.

Lemma absdiff8_same (c : Z) : absdiff8 c (inject_Z c) = 0.
Proof.
  unfold absdiff8, astype_int8, astype_int8_q.
  rewrite Qtrunc_inject_Z, Z.sub_diag. reflexivity.
Qed.

Lemma zip_strict_same_row (row : list Z) :
  zip_strict (fun a b => Some (absdiff8 a b)) row (map inject_Z row)
  = Some (map (fun _ => 0) row).
Proof.
  induction row as [|c row IH]; [reflexivity|].
  cbn [map zip_strict]. rewrite IH, absdiff8_same. reflexivity.
Qed.

Lemma array_map2_same (m : image) :
  array_map2 absdiff8 m (template_of m) = Some (map (map (fun _ => 0)) m).
Proof.
  unfold array_map2, template_of.
  induction m as [|row m IH]; [reflexivity|].
  cbn [map zip_strict]. rewrite zip_strict_same_row, IH. reflexivity.
Qed.

Lemma array_zsum_zero (m : image) : array_zsum (map (map (fun _ => 0)) m) = 0.
Proof.
  assert (E : forall row : list Z, zsum (map (fun _ : Z => 0) row) = 0).
  { induction row as [|c row IH]; [reflexivity|].
    unfold zsum in *. cbn [map fold_right]. rewrite IH. reflexivity. }
  unfold array_zsum.
  induction m as [|row m IH]; [reflexivity|].
  cbn [map]. unfold zsum at 1. cbn [fold_right].
  rewrite E. unfold zsum at 1 in IH. rewrite IH. reflexivity.
Qed.

(** The window at the last corner scores zero when it equals the
    template, so the search ends on a score below the threshold. *)
Lemma exact_match_score :
  forall budget img imageroi searchx1 searchy1,
    rectangular img -> rectangular imageroi ->
    0 <= searchx1 <= snd (shape img) - snd (shape imageroi) ->
    0 <= searchy1 <= fst (shape img) - fst (shape imageroi) ->
    imageroi = template_of (crop img searchy1 searchx1
                                 (fst (shape imageroi)) (snd (shape imageroi))) ->
    (0 < array_qsum imageroi)%Q ->
    (930 <= budget)%nat ->
    exists s,
      feature_search img imageroi searchx1 searchy1 budget = Some s /\
      flt (finalroidiff s) (Fin 20) = true.
Proof.
  intros budget img imageroi sx sy Himg Hroi Hx Hy Hcrop Hsum Hb.
  assert (Hw : snd (shape imageroi) <= snd (shape img)) by lia.
  assert (Hh : fst (shape imageroi) <= fst (shape img)) by lia.
  destruct (feature_search_total img imageroi sx sy Himg Hroi Hw Hh budget)
    as [s Hs].
  destruct (feature_search_minimum img imageroi sx sy Hh budget s Hb Hs)
    as [Hnan Hseen].
  destruct (Hseen sx sy ltac:(lia) ltac:(lia)) as [d [Ed Hd]].
  rewrite !clamp_check_inside in Ed by assumption.
  rewrite imagediff_eq in Ed.
  set (comp := crop img sy sx (fst (shape imageroi)) (snd (shape imageroi))) in *.
  assert (Em : forall t, t = template_of comp ->
            array_map2 absdiff8 comp t = Some (map (map (fun _ => 0)) comp)).
  { intros t ->. apply array_map2_same. }
  rewrite (Em imageroi Hcrop) in Ed.
  rewrite array_zsum_zero in Ed. injection Ed as <-.
  exists s. split; [exact Hs|].
  unfold fdiv in Hd.
  destruct (Qeq_bool (array_qsum imageroi) 0) eqn:Ez.
  { apply Qeq_bool_iff in Ez. rewrite Ez in Hsum.
    exfalso. exact (Qlt_irrefl _ Hsum). }
  cbn [fmul] in Hd.
  destruct (finalroidiff s) as [q| | |]; cbn [flt] in *;
    try reflexivity; try discriminate; try contradiction.
  destruct (Qlt_le_dec _ q) as [|Hle]; [discriminate|].
  destruct (Qlt_le_dec q 20) as [|Hge]; [reflexivity|]. exfalso.
  assert (E0 : (inject_Z 0 / array_qsum imageroi * 100 == 0)%Q).
  { unfold Qdiv. change (inject_Z 0) with 0%Q. ring. }
  rewrite E0 in Hle.
  assert (Habs : (20 <= 0)%Q) by (eapply Qle_trans; eauto).
  unfold Qle in Habs. simpl in Habs. lia.
Qed.

(** A template that is found unchanged at its last corner is reported
    found, provided it is not black and the clock allows one full pass. *)
Theorem features_exact_match_found :
  forall budget cv found0 img roibox imageroi,
    rectangular img -> rectangular imageroi ->
    0 <= fst (fst roibox) <= snd (shape img) - snd (shape imageroi) ->
    0 <= snd (fst roibox) <= fst (shape img) - fst (shape imageroi) ->
    imageroi = template_of (crop img (snd (fst roibox)) (fst (fst roibox))
                                 (fst (shape imageroi)) (snd (shape imageroi))) ->
    (0 < array_qsum imageroi)%Q ->
    (930 <= budget)%nat ->
    exists roibox' imageroi',
      get_x_y "Features" budget cv found0 img roibox imageroi
        = Some (roibox', imageroi', true).
Proof.
  intros budget cv found0 img roibox imageroi Himg Hroi Hx Hy Hcrop Hsum Hb.
  destruct (exact_match_score budget img imageroi _ _ Himg Hroi Hx Hy Hcrop
              Hsum Hb) as [s [Hs Hlt]].
  pose proof (feature_search_ok _ _ _ _ _ _ Hs) as Hok.
  destruct (accept_features_found img roibox imageroi s Hok Hlt)
    as [x [y [t [_ [_ [_ Hacc]]]]]].
  rewrite get_x_y_features, Hs, Hacc. eauto.
Qed.

Lemma features_exact_match_found_witness :
  exists roibox' imageroi',
    get_x_y "Features" 1000 (mkBright [] 0 0 0) false frame_3x4
            ((1, 1), (2, 2)) [[inject_Z 200]]
      = Some (roibox', imageroi', true).
Proof.
  apply (features_exact_match_found 1000 (mkBright [] 0 0 0) false frame_3x4
           ((1, 1), (2, 2)) [[inject_Z 200]]).
  - repeat constructor.
  - repeat constructor.
  - simpl; lia.
  - simpl; lia.
  - reflexivity.
  - reflexivity.
  - lia.
Defined.

(** ** The recorded minimum *)

(** With the template inside the frame and 930 clock tests left, the
    search ends on a minimum of the neighbourhood: its score is the score
    of the recorded corner, the corner is a candidate, and no candidate
    scores strictly below it. *)
Theorem feature_search_finds_minimum :
  forall img imageroi searchx1 searchy1 budget s,
    fst (shape imageroi) <= fst (shape img) ->
    (930 <= budget)%nat ->
    feature_search img imageroi searchx1 searchy1 budget = Some s ->
    (forall x y, candidate img imageroi searchx1 searchy1 x y ->
                 exists d, imagediff img imageroi x y = Some d /\
                           flt d (finalroidiff s) = false) /\
    match searchxy2 s with
    | Some (x, y) =>
        candidate img imageroi searchx1 searchy1 x y /\
        imagediff img imageroi x y = Some (finalroidiff s)
    | None => finalroidiff s = PInf
    end.
Proof.
  intros img imageroi sx sy budget s Hh Hb Hs.
  destruct (feature_search_minimum img imageroi sx sy Hh budget s Hb Hs)
    as [_ Hseen].
  pose proof (feature_search_ok _ _ _ _ _ _ Hs) as Hok.
  pose proof (feature_search_near _ _ _ _ Hh _ _ Hs) as Hnear.
  split.
  - intros x y [xc [yc [Hx [Hy [-> ->]]]]]. exact (Hseen xc yc Hx Hy).
  - unfold search_ok in Hok. unfold near_ok in Hnear.
    destruct (searchxy2 s) as [[x y]|]; [|exact Hok].
    split; [exact Hnear | exact (proj1 Hok)].
Qed.

Lemma feature_search_finds_minimum_witness :
  (forall x y, candidate frame_3x4 [[inject_Z 200]] 1 1 x y ->
               exists d, imagediff frame_3x4 [[inject_Z 200]] x y = Some d /\
                         flt d (Fin (0 # 200)) = false) /\
  candidate frame_3x4 [[inject_Z 200]] 1 1 1 1 /\
  imagediff frame_3x4 [[inject_Z 200]] 1 1 = Some (Fin (0 # 200)).
Proof.
  apply (feature_search_finds_minimum frame_3x4 [[inject_Z 200]] 1 1 1000
           (mkSearch 0 (Fin (0 # 200)) (Some (1, 1)) false)).
  - simpl; lia.
  - lia.
  - vm_compute. reflexivity.
Defined.

(** ** The score below 128 *)

Lemma fdiv_equiv (n n' d : Q) : (n == n')%Q -> fequiv (fdiv n d) (fdiv n' d).
Proof.
  intros E. unfold fdiv.
  destruct (Qeq_bool d 0).
  - rewrite E. now destruct (n' ?= 0)%Q.
  - cbn [fequiv]. now rewrite E.
Qed.

Lemma fmul_equiv (a b : fnum) (k : Q) : fequiv a b -> fequiv (fmul a k) (fmul b k).
Proof.
  destruct a, b; cbn [fequiv fmul]; try tauto. intros E. now rewrite E.
Qed.

Lemma row_sums_below_128 (row rz : list Z) r1 r2 :
  Forall (fun p => 0 <= p <= 127) row ->
  Forall (fun p => 0 <= p <= 127) rz ->
  zip_strict (fun a b => Some (absdiff8 a b)) row (map inject_Z rz) = Some r1 ->
  zip_strict (fun a b => Some (Qabs (inject_Z a - b))) row (map inject_Z rz)
    = Some r2 ->
  (inject_Z (zsum r1) == qsum r2)%Q.
Proof.
  revert rz r1 r2. induction row as [|c row IH]; intros [|r rz] r1 r2 Hc Hr H1 H2;
    cbn [map zip_strict] in H1, H2; try discriminate.
  - injection H1 as <-. injection H2 as <-. reflexivity.
  - destruct (zip_strict _ row (map inject_Z rz)) as [t1|] eqn:E1 in H1;
      [|discriminate].
    destruct (zip_strict _ row (map inject_Z rz)) as [t2|] eqn:E2 in H2;
      [|discriminate].
    injection H1 as <-. injection H2 as <-.
    inversion Hc; inversion Hr; subst.
    unfold zsum, qsum in *. cbn [fold_right].
    rewrite inject_Z_plus, (IH rz t1 t2) by assumption.
    rewrite absdiff8_exact_below_128 by assumption.
    replace (c * 1 + - r * 1) with (c - r) by lia. reflexivity.
Qed.

Lemma array_sums_below_128 (c tz : image) d1 d2 :
  all_pixels (fun p => 0 <= p <= 127) c ->
  all_pixels (fun p => 0 <= p <= 127) tz ->
  array_map2 absdiff8 c (template_of tz) = Some d1 ->
  array_map2 (fun a b => Qabs (inject_Z a - b)) c (template_of tz) = Some d2 ->
  (inject_Z (array_zsum d1) == array_qsum d2)%Q.
Proof.
  unfold array_map2, template_of, all_pixels.
  revert tz d1 d2. induction c as [|row c IH]; intros [|rz tz] d1 d2 Hc Hr H1 H2;
    cbn [map zip_strict] in H1, H2; try discriminate.
  - injection H1 as <-. injection H2 as <-. reflexivity.
  - destruct (zip_strict _ row (map inject_Z rz)) as [r1|] eqn:R1 in H1;
      [|discriminate].
    destruct (zip_strict _ c (map (map inject_Z) tz)) as [t1|] eqn:E1 in H1;
      [|discriminate].
    destruct (zip_strict _ row (map inject_Z rz)) as [r2|] eqn:R2 in H2;
      [|discriminate].
    destruct (zip_strict _ c (map (map inject_Z) tz)) as [t2|] eqn:E2 in H2;
      [|discriminate].
    injection H1 as <-. injection H2 as <-.
    inversion Hc; inversion Hr; subst.
    unfold array_zsum, array_qsum in *. cbn [map].
    unfold zsum at 1. unfold qsum at 1. cbn [fold_right].
    rewrite inject_Z_plus.
    rewrite (row_sums_below_128 row rz r1 r2) by assumption.
    unfold zsum at 1 in IH. unfold qsum at 1 in IH.
    rewrite (IH tz t1 t2) by assumption. reflexivity.
Qed.

Lemma all_pixels_crop {A : Type} (P : A -> Prop) (m : list (list A)) y x h w :
  all_pixels P m -> all_pixels P (crop m y x h w).
Proof.
  unfold all_pixels, crop. intros H.
  apply Forall_forall. intros row Hin. apply in_map_iff in Hin.
  destruct Hin as [row0 [<- Hin0]]. apply pyslice_incl in Hin0.
  rewrite Forall_forall in H. specialize (H _ Hin0).
  apply Forall_forall. intros p Hp. apply pyslice_incl in Hp.
  rewrite Forall_forall in H. auto.
Qed.

(** While every pixel of the frame and of an unblended template is below
    128, the score of [get_x_y] is the normalised absolute difference. *)
Theorem imagediff_is_reference_below_128 :
  forall img tz xcheck ycheck,
    all_pixels (fun p => 0 <= p <= 127) img ->
    all_pixels (fun p => 0 <= p <= 127) tz ->
    match imagediff img (template_of tz) xcheck ycheck,
          score_reference img (template_of tz) xcheck ycheck with
    | Some a, Some b => fequiv a b
    | None, None => True
    | _, _ => False
    end.
Proof.
  intros img tz x y Himg Htz.
  rewrite imagediff_eq.
  assert (Eref : score_reference img (template_of tz) x y =
                 match array_map2 (fun c r => Qabs (inject_Z c - r))
                         (crop img y x (fst (shape (template_of tz)))
                               (snd (shape (template_of tz))))
                         (template_of tz) with
                 | None => None
                 | Some d => Some (fmul (fdiv (array_qsum d)
                                              (array_qsum (template_of tz))) 100)
                 end).
  { unfold score_reference. now destruct (shape (template_of tz)). }
  rewrite Eref.
  set (comp := crop img y x _ _).
  assert (Hcomp : all_pixels (fun p => 0 <= p <= 127) comp)
    by (apply all_pixels_crop; exact Himg).
  destruct (array_map2 absdiff8 comp (template_of tz)) as [d1|] eqn:E1.
  - pose proof (array_map2_same_shape _ _ _ _ E1) as Hs.
    destruct (array_map2_total (fun c r => Qabs (inject_Z c - r)) _ _ Hs)
      as [d2 E2].
    rewrite E2. apply fmul_equiv, fdiv_equiv.
    exact (array_sums_below_128 comp tz d1 d2 Hcomp Htz E1 E2).
  - destruct (array_map2 (fun c r => Qabs (inject_Z c - r)) comp
                         (template_of tz)) as [d2|] eqn:E2; [|exact I].
    pose proof (array_map2_same_shape _ _ _ _ E2) as Hs.
    destruct (array_map2_total absdiff8 _ _ Hs) as [d1 E1'].
    congruence.
Qed.

Lemma imagediff_is_reference_below_128_witness :
  match imagediff [[100; 20]; [3; 127]] (template_of [[90; 40]; [0; 1]]) 0 0,
        score_reference [[100; 20]; [3; 127]] (template_of [[90; 40]; [0; 1]]) 0 0
  with
  | Some a, Some b => fequiv a b
  | None, None => True
  | _, _ => False
  end.
Proof.
  apply (imagediff_is_reference_below_128 [[100; 20]; [3; 127]]
           [[90; 40]; [0; 1]] 0 0).
  - repeat constructor; lia.
  - repeat constructor; lia.
Defined.

(** ** The brightness strategy *)

Lemma Qtrunc_comp (q q' : Q) : (q == q')%Q -> Qtrunc q = Qtrunc q'.
Proof.
  intros E. unfold Qtrunc.
  destruct (Qlt_le_dec q 0) as [H|H]; destruct (Qlt_le_dec q' 0) as [H'|H'].
  - now rewrite E.
  - rewrite E in H. exfalso. exact (Qlt_irrefl _ (Qlt_le_trans _ _ _ H H')).
  - rewrite E in H. exfalso. exact (Qlt_irrefl _ (Qlt_le_trans _ _ _ H' H)).
  - now rewrite E.
Qed.

(** The brightness strategy reports the target found exactly when the
    moment [m00] is not zero; with a zero moment the corner stays where
    it was; otherwise the corner is never negative, and for an ROI of even
    width and height it is the old corner moved by the offset of the
    centroid from the centre of the ROI, cut off at zero.  The returned
    template is the thresholded region, and the box has the size of the
    template that came in. *)
Theorem track_bright_recentres :
  forall cv roibox imageroi roibox' imageroi' found,
    track_bright cv roibox imageroi = (roibox', imageroi', found) ->
    imageroi' = thresh cv /\
    (found = false <-> (m00 cv == 0)%Q) /\
    fst (snd roibox') = fst (fst roibox') + snd (shape imageroi) /\
    snd (snd roibox') = snd (fst roibox') + fst (shape imageroi) /\
    (found = false -> fst roibox' = fst roibox) /\
    (found = true -> 0 <= fst (fst roibox') /\ 0 <= snd (fst roibox')) /\
    (found = true ->
     forall kw kh,
       snd (shape imageroi) = 2 * kw -> fst (shape imageroi) = 2 * kh ->
       fst (fst roibox')
         = Z.max 0 (fst (fst roibox) + Qtrunc (m10 cv / m00 cv) - kw) /\
       snd (fst roibox')
         = Z.max 0 (snd (fst roibox) + Qtrunc (m01 cv / m00 cv) - kh)).
Proof.
  intros cv [[sx sy] c2] imageroi roibox' imageroi' found H.
  unfold track_bright in H.
  destruct (shape imageroi) as [h w] eqn:Es. cbn [fst snd] in *.
  destruct (Qeq_bool (m00 cv) 0) eqn:Ez.
  - injection H as <- <- <-. cbn [fst snd].
    apply Qeq_bool_iff in Ez.
    repeat split; auto; try discriminate.
  - injection H as <- <- <-. cbn [fst snd].
    assert (Hz : ~ (m00 cv == 0)%Q).
    { intros E. apply Qeq_bool_iff in E. congruence. }
    assert (Hmax : forall v, (if v <? 0 then 0 else v) = Z.max 0 v).
    { intros v. destruct (v <? 0) eqn:E;
        [apply Z.ltb_lt in E | apply Z.ltb_ge in E]; lia. }
    rewrite !Hmax.
    split; [reflexivity|]. split; [split; [discriminate | contradiction]|].
    split; [reflexivity|]. split; [reflexivity|].
    split; [discriminate|]. split; [intros _; lia|].
    intros _ kw kh -> ->.
    assert (Eh : forall s k c,
               Qtrunc (inject_Z s - (inject_Z (2 * k) / 2 - inject_Z c))
               = s + c - k).
    { intros s k c. rewrite <- (Qtrunc_inject_Z (s + c - k)).
      apply Qtrunc_comp.
      unfold Z.sub. rewrite !inject_Z_plus, inject_Z_opp, inject_Z_mult.
      change (inject_Z 2) with 2%Q. field. }
    rewrite !Eh. split; reflexivity.
Qed.

Lemma track_bright_recentres_witness :
  let imageroi : template := repeat (repeat (inject_Z 0) 4%nat) 4%nat in
  let cv := mkBright imageroi (255 # 1) (765 # 1) (510 # 1) in
  let roibox : box := ((4, 0), (8, 4)) in
  let roibox' : box := ((5, 0), (9, 4)) in
  track_bright cv roibox imageroi = (roibox', imageroi, true) /\
  (true = true ->
   forall kw kh,
     snd (shape imageroi) = 2 * kw -> fst (shape imageroi) = 2 * kh ->
     fst (fst roibox')
       = Z.max 0 (fst (fst roibox) + Qtrunc (m10 cv / m00 cv) - kw) /\
     snd (fst roibox')
       = Z.max 0 (snd (fst roibox) + Qtrunc (m01 cv / m00 cv) - kh)).
Proof.
  cbv zeta.
  assert (H : track_bright
                (mkBright (repeat (repeat (inject_Z 0) 4%nat) 4%nat)
                          (255 # 1) (765 # 1) (510 # 1))
                ((4, 0), (8, 4)) (repeat (repeat (inject_Z 0) 4%nat) 4%nat)
              = (((5, 0), (9, 4)), repeat (repeat (inject_Z 0) 4%nat) 4%nat,
                 true)) by (vm_compute; reflexivity).
  split; [exact H|].
  apply (track_bright_recentres _ _ _ _ _ _ H).
Defined.

End VideotrakFacts.

(* ================================================================== *)
(** * Properties of the coordinate codec *)
(* ================================================================== *)

Module CodecFacts.

Import Codec.
Local Open Scope R_scope.

(** ** Truncation *)

Lemma trunc_nonneg (x : R) (n : Z) :
  0 <= x -> IZR n <= x < IZR n + 1 -> trunc x = n.
Proof.
  intros Hx Hn. unfold trunc.
  destruct (Rle_dec 0 x) as [_|H]; [|contradiction].
  symmetry. apply Int_part_spec. lra.
Qed.

Lemma trunc_neg (x : R) (n : Z) :
  x < 0 -> IZR n - 1 < x <= IZR n -> trunc x = n.
Proof.
  intros Hx Hn. unfold trunc.
  destruct (Rle_dec 0 x) as [H|_]; [lra|].
  assert (E : (- n)%Z = Int_part (- x)).
  { apply Int_part_spec. rewrite opp_IZR. lra. }
  rewrite <- E. lia.
Qed.

Lemma trunc_bounds_nonneg (x : R) :
  0 <= x -> (0 <= trunc x)%Z /\ IZR (trunc x) <= x < IZR (trunc x) + 1.
Proof.
  intros Hx. unfold trunc.
  destruct (Rle_dec 0 x) as [_|H]; [|contradiction].
  destruct (base_Int_part x) as [H1 H2].
  split; [|lra].
  apply le_IZR. apply Rnot_lt_le. intros Hlt.
  assert (Hle : (Int_part x <= -1)%Z).
  { apply lt_IZR in Hlt. lia. }
  apply IZR_le in Hle. lra.
Qed.

(** ** The round trip above zero *)

(** Over the reals, for a value that is not negative the fields decode
    to the value itself, and to within one arc second once the seconds
    are truncated to an integer. *)
Lemma roundtrip_nonneg (v : R) :
  0 <= v ->
  let e := sexagesimal_alt v in
  (sx_s e / 60 + IZR (sx_m e)) / 60 + IZR (sx_d e) = v /\
  0 <= v - respdegrees (response_of e) < 1 / 3600.
Proof.
  intros Hv. unfold sexagesimal_alt, response_of, respdegrees.
  cbn [sx_d sx_m sx_s r_deg r_min r_sec].
  destruct (trunc_bounds_nonneg v Hv) as [Hd0 Hd].
  rewrite (Rabs_pos_eq v Hv), (Z.abs_eq (trunc v) Hd0).
  set (d := IZR (trunc v)) in *.
  assert (Hf : 0 <= (v - d) * 60) by lra.
  destruct (trunc_bounds_nonneg _ Hf) as [Hm0 Hm].
  rewrite (Z.abs_eq _ Hm0).
  set (m := IZR (trunc ((v - d) * 60))) in *.
  assert (Hs : 0 <= ((v - d) * 60 - m) * 60) by lra.
  destruct (trunc_bounds_nonneg _ Hs) as [_ Hst].
  set (s := ((v - d) * 60 - m) * 60) in *.
  set (si := IZR (trunc s)) in *.
  split.
  - unfold s. field.
  - assert (E : v = (s / 60 + m) / 60 + d) by (unfold s; field).
    lra.
Qed.

(** ** The claim about the round trip *)

(** C3.  Below zero the round trip is off by a whole degree: the
    declination -10.5 degrees is encoded as -10, 30, 0 (the minutes and
    seconds are taken from the absolute value), and [read_to_hash] adds
    the minutes to the signed degrees, giving -9.5. *)
Theorem C3_roundtrip_fails_below_zero :
  let e := sexagesimal_alt (-21 / 2) in
  sx_d e = (-10)%Z /\ sx_m e = 30%Z /\ sx_s e = 0 /\
  respdegrees (response_of e) = -19 / 2 /\
  - 360 <= -21 / 2 <= 360 /\
  1 / 3600 < Rabs (respdegrees (response_of e) - (-21 / 2)).
Proof.
  assert (Hd : trunc (-21 / 2) = (-10)%Z).
  { apply trunc_neg; simpl; lra. }
  assert (Ha : Rabs (-21 / 2) = 21 / 2).
  { rewrite Rabs_left; lra. }
  assert (Hm : trunc ((Rabs (-21 / 2) - IZR (Z.abs (trunc (-21 / 2)))) * 60) = 30%Z).
  { rewrite Ha, Hd. apply trunc_nonneg; simpl; lra. }
  assert (Hs : ((Rabs (-21 / 2) - IZR (Z.abs (trunc (-21 / 2)))) * 60
                - IZR (Z.abs (trunc ((Rabs (-21 / 2)
                                      - IZR (Z.abs (trunc (-21 / 2)))) * 60)))) * 60 = 0).
  { rewrite Hm. rewrite Ha, Hd. simpl. lra. }
  assert (H0 : trunc 0 = 0%Z) by (apply trunc_nonneg; simpl; lra).
  cbv zeta. unfold sexagesimal_alt, response_of, respdegrees.
  cbn [sx_d sx_m sx_s r_deg r_min r_sec].
  rewrite Hs, Hm, Hd, H0.
  assert (Hr : (0 / 60 + 30) / 60 + -10 = -19 / 2) by lra.
  repeat split; try lra.
  replace ((0 / 60 + 30) / 60 + -10 - -21 / 2) with 1 by lra.
  rewrite Rabs_R1. lra.
Qed.

(** ** The sign of the azimuth-like delta *)

Lemma degrees_radians (x : R) : radians (degrees x) = x.
Proof. unfold radians, degrees. pose proof PI_RGT_0. field. lra. Qed.

Lemma degrees_pos_factor : 0 < 180 / PI.
Proof.
  pose proof PI_RGT_0. apply Rdiv_lt_0_compat; lra.
Qed.

Lemma degrees_nonneg (x : R) : 0 <= x -> 0 <= degrees x.
Proof.
  intros Hx. unfold degrees. pose proof degrees_pos_factor. nra.
Qed.

Lemma degrees_above_90 (a : R) : 90 < Rabs (degrees a) <-> PI / 2 < Rabs a.
Proof.
  unfold degrees. pose proof degrees_pos_factor as Hk. pose proof PI_RGT_0 as Hpi.
  rewrite Rabs_mult, (Rabs_pos_eq (180 / PI)) by lra.
  assert (E : 90 = PI / 2 * (180 / PI)) by (field; lra).
  rewrite E at 1.
  split; intros H.
  - apply Rmult_lt_reg_r in H; assumption.
  - apply Rmult_lt_compat_r; assumption.
Qed.

(** [atan2] leaves the right half plane exactly when [x] is negative. *)
Lemma atan2_left_half (y x : R) : PI / 2 < Rabs (atan2 y x) <-> x < 0.
Proof.
  pose proof PI_RGT_0 as Hpi.
  pose proof (atan_bound (y / x)) as [Hlo Hhi].
  unfold atan2.
  destruct (Rlt_dec 0 x) as [Hx|Hx].
  - split; [|lra]. intros H. exfalso. revert H.
    unfold Rabs. destruct (Rcase_abs _); lra.
  - destruct (Rlt_dec x 0) as [Hx'|Hx'].
    + split; [auto|]. intros _.
      destruct (Rle_dec 0 y) as [Hy|Hy].
      * assert (Hq : y / x <= 0).
        { unfold Rdiv. assert (/ x < 0) by (apply Rinv_lt_0_compat; lra). nra. }
        assert (Ha : atan (y / x) <= 0).
        { destruct Hq as [Hq|Hq].
          - left. rewrite <- atan_0. now apply atan_increasing.
          - rewrite Hq, atan_0. lra. }
        rewrite Rabs_pos_eq; lra.
      * assert (Hq : 0 < y / x).
        { unfold Rdiv. assert (/ x < 0) by (apply Rinv_lt_0_compat; lra). nra. }
        assert (Ha : 0 < atan (y / x)).
        { rewrite <- atan_0. now apply atan_increasing. }
        rewrite Rabs_left; lra.
    + split; [|lra]. intros H. exfalso. revert H.
      destruct (Rlt_dec 0 y); [|destruct (Rlt_dec y 0)];
        unfold Rabs; destruct (Rcase_abs _); lra.
Qed.

Lemma pixel_polar_angles tx ty mx my scale :
  let p := pixel_polar tx ty mx my scale in
  objectangle2 p = degrees (atan2 (objectvertical p) (objecthorizontal p)) /\
  objectangle p = objectangle2 p - 90.
Proof. split; reflexivity. Qed.

Lemma sky_delta_inv currentalt p objectalt diffinaz :
  sky_delta currentalt p = Some (objectalt, diffinaz) ->
  exists raw,
    object_alt currentalt p = Some objectalt /\
    diffinaz_unsigned currentalt objectalt p = Some raw /\
    0 <= raw /\
    diffinaz = (if Rlt_dec 90 (Rabs (objectangle2 p)) then -1 * raw else raw).
Proof.
  unfold sky_delta. intros H.
  destruct (object_alt currentalt p) as [oa|] eqn:Eoa; [|discriminate].
  destruct (diffinaz_unsigned currentalt oa p) as [raw|] eqn:Eraw; [|discriminate].
  injection H as <- <-.
  exists raw. repeat split; auto.
  unfold diffinaz_unsigned in Eraw.
  destruct (div_checked _ _) as [q|]; [|discriminate].
  unfold acos_checked in Eraw.
  destruct (Rle_dec (-1) q); [|discriminate].
  destruct (Rle_dec q 1); [|discriminate].
  injection Eraw as <-.
  apply degrees_nonneg. apply acos_bound.
Qed.

(** ** The claim about the sign *)

(** C8, as the code has it.  With [angle = atan2(-dy, dx) - 90] the
    azimuth-like delta is the arc-cosine term negated exactly when
    [|angle + 90| > 90], that is when the angle before the subtraction of
    90 degrees leaves [-90, 90]; this is the case exactly when the target
    is left of the view centre ([objecthorizontal < 0]). *)
Theorem C8_delta_negated_iff_target_left :
  forall currentalt targetX targetY mainviewX mainviewY imagescale objectalt diffinaz,
    let p := pixel_polar targetX targetY mainviewX mainviewY imagescale in
    sky_delta currentalt p = Some (objectalt, diffinaz) ->
    exists raw,
      diffinaz_unsigned currentalt objectalt p = Some raw /\
      0 <= raw /\
      objectangle p
        = degrees (atan2 (objectvertical p) (objecthorizontal p)) - 90 /\
      (90 < Rabs (objectangle p + 90) -> diffinaz = - raw) /\
      (~ 90 < Rabs (objectangle p + 90) -> diffinaz = raw) /\
      (90 < Rabs (objectangle p + 90) <-> objecthorizontal p < 0).
Proof.
  intros currentalt tx ty mx my scale objectalt diffinaz p H.
  destruct (sky_delta_inv _ _ _ _ H) as [raw [_ [Hraw [Hpos Hd]]]].
  destruct (pixel_polar_angles tx ty mx my scale) as [H2 H1].
  fold p in H1, H2.
  assert (E : objectangle p + 90 = objectangle2 p) by (rewrite H1; lra).
  exists raw. rewrite E.
  split; [exact Hraw|]. split; [exact Hpos|].
  split; [rewrite H1, H2; reflexivity|].
  split; [|split].
  - intros Hgt. rewrite Hd. destruct (Rlt_dec 90 _); [lra | contradiction].
  - intros Hle. rewrite Hd. destruct (Rlt_dec 90 _); [contradiction | reflexivity].
  - rewrite H2, degrees_above_90. apply atan2_left_half.
Qed.

(** ** A target below and right of the centre *)

(** With the mount on the horizon the arc-cosine term is positive as soon
    as the offset is neither along the vertical nor empty. *)
Lemma delta_positive_at_horizon (p : polar) :
  (cos (radians (objectangle p))) ^ 2 < 1 ->
  sin (radians (objectdistance p)) <> 0 ->
  exists objectalt raw,
    object_alt 0 p = Some objectalt /\
    diffinaz_unsigned 0 objectalt p = Some raw /\
    0 < raw.
Proof.
  intros Hc Hs.
  set (c := cos (radians (objectangle p))) in *.
  set (dl := radians (objectdistance p)) in *.
  pose proof PI_RGT_0 as Hpi.
  assert (H90 : radians (90 - 0) = PI / 2) by (unfold radians; field).
  pose proof (sin2_cos2 dl) as Hsc. unfold Rsqr in Hsc.
  assert (Hs2 : 0 < sin dl * sin dl) by nra.
  set (t := sin dl * c).
  assert (Ht2 : t * t < 1).
  { unfold t. assert (0 <= cos dl * cos dl) by nra. nra. }
  assert (Ht : -1 <= t <= 1) by nra.
  assert (Eoa : object_alt 0 p = Some (90 - degrees (acos t))).
  { unfold object_alt. fold dl. fold c. rewrite H90, cos_PI2, sin_PI2.
    replace (cos dl * 0 + sin dl * 1 * c) with t by (unfold t; ring).
    unfold acos_checked.
    destruct (Rle_dec (-1) t); [|lra].
    destruct (Rle_dec t 1); [|lra]. reflexivity. }
  exists (90 - degrees (acos t)).
  set (S := sqrt (1 - t * t)).
  assert (HS0 : 0 < S) by (apply sqrt_lt_R0; lra).
  assert (HSS : S * S = 1 - t * t) by (apply sqrt_sqrt; lra).
  assert (Hsin : sin (acos t) = S).
  { rewrite sin_acos by exact Ht. unfold S, Rsqr. reflexivity. }
  set (q := cos dl / S).
  assert (HqS : q * S = cos dl) by (unfold q; field; lra).
  assert (Hq2 : q * q < 1).
  { assert (HH : (q * S) * (q * S) < S * S).
    { rewrite HqS, HSS. unfold t.
      assert (sin dl * c * (sin dl * c) = (sin dl * sin dl) * (c * c)) by ring.
      assert (c * c < 1) by (simpl in Hc; lra).
      nra. }
    assert (0 < S * S) by nra.
    apply Rmult_lt_reg_r with (r := S * S); [assumption|].
    replace (q * q * (S * S)) with (q * S * (q * S)) by ring. lra. }
  assert (Hq : -1 < q < 1) by nra.
  assert (Eraw : diffinaz_unsigned 0 (90 - degrees (acos t)) p
                 = Some (degrees (acos q))).
  { unfold diffinaz_unsigned. fold dl.
    replace (90 - (90 - degrees (acos t))) with (degrees (acos t)) by ring.
    rewrite degrees_radians, H90, cos_PI2, sin_PI2, Hsin.
    unfold div_checked.
    destruct (Req_dec_T (1 * S) 0) as [E|_]; [lra|].
    replace ((cos dl - 0 * cos (acos t)) / (1 * S)) with q
      by (unfold q; field; lra).
    unfold acos_checked.
    destruct (Rle_dec (-1) q); [|lra].
    destruct (Rle_dec q 1); [|lra]. reflexivity. }
  exists (degrees (acos q)).
  split; [exact Eoa|]. split; [exact Eraw|].
  assert (Hacos : 0 < acos q).
  { destruct (acos_bound q) as [[Hlt|Heq] _]; [exact Hlt|].
    exfalso. pose proof (cos_acos q) as Hcq.
    rewrite <- Heq, cos_0 in Hcq. lra. }
  unfold degrees. pose proof degrees_pos_factor. nra.
Qed.

(** The offset one pixel right of and one pixel below the centre. *)
Lemma polar_below_right :
  let p := pixel_polar 1 1 0 0 1 in
  objectangle2 p = -45 /\ objectangle p = -135 /\
  (cos (radians (objectangle p))) ^ 2 < 1 /\
  sin (radians (objectdistance p)) <> 0.
Proof.
  pose proof PI_RGT_0 as Hpi.
  assert (Hv : -1 * ((1 - IZR 0) * 1) = -1) by lra.
  assert (Hh : (1 - IZR 0) * 1 = 1) by lra.
  assert (Hat : atan2 (-1) 1 = - (PI / 4)).
  { unfold atan2. destruct (Rlt_dec 0 1); [|lra].
    replace (-1 / 1) with (Ropp 1) by lra. now rewrite atan_opp, atan_1. }
  assert (H2 : degrees (atan2 (-1) 1) = -45).
  { rewrite Hat. unfold degrees. field. lra. }
  assert (Hrad : radians (-45 - 90) = - (3 * (PI / 4))).
  { unfold radians. field. }
  assert (Hsq : sqrt 2 * sqrt 2 = 2) by (apply sqrt_sqrt; lra).
  assert (Hsq1 : 1 < sqrt 2).
  { rewrite <- sqrt_1 at 1. apply sqrt_lt_1; lra. }
  assert (Hc : cos (radians (-45 - 90)) = -1 / sqrt 2).
  { rewrite Hrad, cos_neg. apply cos_3PI4. }
  set (c := -1 / sqrt 2) in *.
  assert (Hcs : c * sqrt 2 = -1) by (unfold c; field; lra).
  assert (Hcb : -1 < c < 0).
  { split.
    - apply Rmult_lt_reg_r with (r := sqrt 2); [lra|]. rewrite Hcs. lra.
    - apply Rmult_lt_reg_r with (r := sqrt 2); [lra|]. rewrite Hcs. lra. }
  cbv zeta. unfold pixel_polar.
  cbn [objectangle objectangle2 objectdistance objectvertical objecthorizontal].
  rewrite Hv, Hh, H2, Hc.
  split; [reflexivity|]. split; [lra|].
  split; [nra|].
  set (D := sqrt (1 ^ 2 + (-1) ^ 2 - 2 * (-1 * 1 * c))).
  assert (HD0 : 0 < D) by (apply sqrt_lt_R0; lra).
  assert (HD2 : D < 2).
  { assert (E : 2 = sqrt (2 * 2)) by (rewrite sqrt_square; lra).
    rewrite E. apply sqrt_lt_1; lra. }
  assert (Hsin : 0 < sin (radians D)).
  { apply sin_gt_0; unfold radians; nra. }
  lra.
Qed.

(** There the conversion succeeds, with a delta that is positive. *)
Lemma sky_delta_below_right :
  exists objectalt raw,
    sky_delta 0 (pixel_polar 1 1 0 0 1) = Some (objectalt, raw) /\
    diffinaz_unsigned 0 objectalt (pixel_polar 1 1 0 0 1) = Some raw /\
    0 < raw.
Proof.
  destruct polar_below_right as [H2 [H1 [Hc Hs]]].
  destruct (delta_positive_at_horizon _ Hc Hs) as [objectalt [raw [Eoa [Eraw Hpos]]]].
  exists objectalt, raw. split; [|split; assumption].
  unfold sky_delta. rewrite Eoa, Eraw, H2.
  destruct (Rlt_dec 90 (Rabs (-45))) as [Hgt|_]; [|reflexivity].
  exfalso. rewrite Rabs_left in Hgt; lra.
Qed.

(** C8, as the description states it, fails: for a target one pixel right
    of and one pixel below the centre the angle is -135 degrees, beyond
    90 in absolute value, and the delta is returned positive. *)
Lemma C8_counterexample :
  ~ (forall currentalt targetX targetY mainviewX mainviewY imagescale objectalt diffinaz,
        let p := pixel_polar targetX targetY mainviewX mainviewY imagescale in
        sky_delta currentalt p = Some (objectalt, diffinaz) ->
        exists raw,
          diffinaz_unsigned currentalt objectalt p = Some raw /\
          (90 < Rabs (objectangle p) -> diffinaz = - raw) /\
          (~ 90 < Rabs (objectangle p) -> diffinaz = raw)).
Proof.
  intros Hclaim.
  destruct polar_below_right as [_ [H1 _]].
  destruct sky_delta_below_right as [objectalt [raw [Hsky [Eraw Hpos]]]].
  destruct (Hclaim 0 1 1 0%Z 0%Z 1 objectalt raw Hsky) as [raw' [Eraw' [Hneg _]]].
  rewrite Eraw in Eraw'. injection Eraw' as <-.
  rewrite H1 in Hneg.
  assert (Hgt : 90 < Rabs (-135)) by (rewrite Rabs_left; lra).
  specialize (Hneg Hgt). lra.
Qed.

Lemma C8_delta_negated_iff_target_left_witness :
  exists objectalt diffinaz,
    let p := pixel_polar 1 1 0 0 1 in
    sky_delta 0 p = Some (objectalt, diffinaz) /\
    exists raw,
      diffinaz_unsigned 0 objectalt p = Some raw /\
      0 <= raw /\
      objectangle p
        = degrees (atan2 (objectvertical p) (objecthorizontal p)) - 90 /\
      (90 < Rabs (objectangle p + 90) -> diffinaz = - raw) /\
      (~ 90 < Rabs (objectangle p + 90) -> diffinaz = raw) /\
      (90 < Rabs (objectangle p + 90) <-> objecthorizontal p < 0).
Proof.
  destruct sky_delta_below_right as [objectalt [raw [Hsky _]]].
  exists objectalt, raw. split; [exact Hsky|].
  exact (C8_delta_negated_iff_target_left 0 1 1 0%Z 0%Z 1 objectalt raw Hsky).
Defined.

(** ** The fields of an encoded value *)

Lemma trunc_opp (v : R) : trunc (- v) = (- trunc v)%Z.
Proof.
  destruct (Rtotal_order v 0) as [Hneg|[->|Hpos]].
  - destruct (trunc_bounds_nonneg (- v)) as [_ Hb]; [lra|].
    assert (E : trunc v = (- trunc (- v))%Z).
    { apply trunc_neg; [exact Hneg | rewrite opp_IZR; lra]. }
    rewrite E. lia.
  - rewrite Ropp_0.
    assert (H0 : trunc 0 = 0%Z) by (apply trunc_nonneg; simpl; lra).
    rewrite H0. reflexivity.
  - destruct (trunc_bounds_nonneg v) as [_ Hb]; [lra|].
    apply trunc_neg; [lra | rewrite opp_IZR; lra].
Qed.

Lemma trunc_abs (v : R) : Z.abs (trunc v) = trunc (Rabs v).
Proof.
  destruct (Rle_dec 0 v) as [Hpos|Hneg].
  - rewrite (Rabs_pos_eq v Hpos).
    destruct (trunc_bounds_nonneg v Hpos). lia.
  - rewrite Rabs_left by lra. rewrite trunc_opp.
    destruct (trunc_bounds_nonneg (- v)) as [Hz _]; [lra|].
    rewrite trunc_opp in Hz. lia.
Qed.

(** For every value the minutes lie in 0..59 and the seconds in [0, 60),
    the three fields add up to the absolute value, and the degrees carry
    the sign, which is therefore lost strictly between -1 and 1. *)
Theorem sexagesimal_alt_fields :
  forall v,
    let e := sexagesimal_alt v in
    (0 <= sx_m e <= 59)%Z /\
    0 <= sx_s e < 60 /\
    IZR (Z.abs (sx_d e)) + IZR (sx_m e) / 60 + sx_s e / 3600 = Rabs v /\
    (0 <= v -> (0 <= sx_d e)%Z) /\
    (v <= 0 -> (sx_d e <= 0)%Z) /\
    (-1 < v < 1 -> sx_d e = 0%Z).
Proof.
  intros v. cbv zeta. unfold sexagesimal_alt. cbn [sx_d sx_m sx_s].
  rewrite trunc_abs.
  pose proof (Rabs_pos v) as Ha.
  destruct (trunc_bounds_nonneg (Rabs v) Ha) as [Hd0 Hd].
  set (d := IZR (trunc (Rabs v))) in *.
  assert (Hf : 0 <= (Rabs v - d) * 60) by lra.
  destruct (trunc_bounds_nonneg _ Hf) as [Hm0 Hm].
  rewrite (Z.abs_eq _ Hm0).
  set (m := trunc ((Rabs v - d) * 60)) in *.
  assert (Hm59 : (m <= 59)%Z).
  { assert (Hlt : IZR m < IZR 60) by (simpl; lra).
    apply lt_IZR in Hlt. lia. }
  split; [lia|]. split; [lra|]. split; [field|].
  split; [|split].
  - intros Hv. destruct (trunc_bounds_nonneg v Hv). assumption.
  - intros Hv. destruct (trunc_bounds_nonneg (- v)) as [Hz _]; [lra|].
    rewrite trunc_opp in Hz. lia.
  - intros Hv.
    destruct (Rle_dec 0 v) as [Hpos|Hneg].
    + apply trunc_nonneg; simpl; lra.
    + apply trunc_neg; simpl; lra.
Qed.

(** The azimuth and right-ascension form takes no absolute value: the
    three fields add up to the value itself for every value, all of them
    are in range for a value that is not negative, and below zero the
    minutes and the seconds are negative numbers too. *)
Theorem sexagesimal_az_fields :
  forall v,
    let e := sexagesimal_az v in
    IZR (sx_d e) + IZR (sx_m e) / 60 + sx_s e / 3600 = v /\
    (0 <= v ->
     (0 <= sx_d e)%Z /\ (0 <= sx_m e <= 59)%Z /\ 0 <= sx_s e < 60) /\
    (v <= 0 ->
     (sx_d e <= 0)%Z /\ (-59 <= sx_m e <= 0)%Z /\ -60 < sx_s e <= 0).
Proof.
  assert (Hpos : forall w, 0 <= w ->
            (0 <= trunc w)%Z /\
            (0 <= trunc ((w - IZR (trunc w)) * 60) <= 59)%Z /\
            0 <= ((w - IZR (trunc w)) * 60
                  - IZR (trunc ((w - IZR (trunc w)) * 60))) * 60 < 60).
  { intros w Hw. destruct (trunc_bounds_nonneg w Hw) as [Hd0 Hd].
    assert (Hf : 0 <= (w - IZR (trunc w)) * 60) by lra.
    destruct (trunc_bounds_nonneg _ Hf) as [Hm0 Hm].
    set (m := trunc ((w - IZR (trunc w)) * 60)) in *.
    assert (Hm59 : (m <= 59)%Z).
    { assert (Hlt : IZR m < IZR 60) by (simpl; lra).
      apply lt_IZR in Hlt. lia. }
    split; [exact Hd0|]. split; [lia | lra]. }
  intros v. cbv zeta. unfold sexagesimal_az. cbn [sx_d sx_m sx_s].
  split; [field|]. split.
  - intros Hv. exact (Hpos v Hv).
  - intros Hv. assert (Hw : 0 <= - v) by lra.
    destruct (Hpos (- v) Hw) as (Hd & Hm & Hs).
    rewrite trunc_opp, opp_IZR in Hm, Hs. rewrite trunc_opp in Hd.
    assert (E : (v - IZR (trunc v)) * 60
                = - ((- v - - IZR (trunc v)) * 60)) by ring.
    rewrite E, trunc_opp, opp_IZR.
    set (m := trunc ((- v - - IZR (trunc v)) * 60)) in *.
    split; [lia|]. split; [lia | lra].
Qed.

(** Mirroring a value only flips the sign of the degrees field. *)
Theorem sexagesimal_alt_opp :
  forall v,
    sx_d (sexagesimal_alt (- v)) = (- sx_d (sexagesimal_alt v))%Z /\
    sx_m (sexagesimal_alt (- v)) = sx_m (sexagesimal_alt v) /\
    sx_s (sexagesimal_alt (- v)) = sx_s (sexagesimal_alt v).
Proof.
  intros v. unfold sexagesimal_alt. cbn [sx_d sx_m sx_s].
  rewrite trunc_opp, Rabs_Ropp, Z.abs_opp. auto.
Qed.

(** Above zero the azimuth form and the altitude form agree. *)
Theorem sexagesimal_az_is_alt_nonneg :
  forall v, 0 <= v -> sexagesimal_az v = sexagesimal_alt v.
Proof.
  intros v Hv. unfold sexagesimal_az, sexagesimal_alt.
  destruct (trunc_bounds_nonneg v Hv) as [Hd0 Hd].
  rewrite (Rabs_pos_eq v Hv), (Z.abs_eq _ Hd0).
  assert (Hf : 0 <= (v - IZR (trunc v)) * 60) by lra.
  destruct (trunc_bounds_nonneg _ Hf) as [Hm0 _].
  rewrite (Z.abs_eq _ Hm0). reflexivity.
Qed.

Lemma sexagesimal_az_is_alt_nonneg_witness :
  0 <= 123456 / 1000 /\
  sexagesimal_az (123456 / 1000) = sexagesimal_alt (123456 / 1000).
Proof.
  split; [lra|]. apply (sexagesimal_az_is_alt_nonneg (123456 / 1000)). lra.
Defined.

(** ** The pixel offset *)

(** The square root of line 669 stands outside the [try]: its argument
    is never negative, and the distance is zero for a target on the
    centre. *)
Theorem objectdistance_defined :
  forall targetX targetY mainviewX mainviewY imagescale,
    let p := pixel_polar targetX targetY mainviewX mainviewY imagescale in
    0 <= objecthorizontal p ^ 2 + objectvertical p ^ 2
         - 2 * (objectvertical p * objecthorizontal p
                * cos (radians (objectangle p))) /\
    (targetX = IZR mainviewX -> targetY = IZR mainviewY ->
     objectdistance p = 0).
Proof.
  intros tx ty mx my scale p. split.
  - destruct (COS_bound (radians (objectangle p))) as [Hlo Hhi].
    set (c := cos (radians (objectangle p))) in *.
    set (h := objecthorizontal p). set (v := objectvertical p).
    pose proof (Rle_0_sqr (h - v)) as Q1. pose proof (Rle_0_sqr (h + v)) as Q2.
    unfold Rsqr in Q1, Q2. simpl.
    destruct (Rle_dec 0 (v * h)) as [Hp|Hn].
    + assert (v * h * (1 - c) >= 0) by (apply Rle_ge, Rmult_le_pos; lra). lra.
    + assert (- (v * h) * (1 + c) >= 0) by (apply Rle_ge, Rmult_le_pos; lra).
      lra.
  - intros -> ->. unfold p, pixel_polar. cbn [objectdistance].
    match goal with |- sqrt ?a = 0 => replace a with 0 by ring end.
    apply sqrt_0.
Qed.

(** With the mount at the zenith the conversion divides by zero whatever
    the offset is, and yields nothing. *)
Lemma sky_delta_zenith :
  forall p, sky_delta 90 p = None.
Proof.
  intros p.
  assert (E0 : radians (90 - 90) = 0) by (unfold radians; ring).
  unfold sky_delta.
  destruct (object_alt 90 p) as [oa|]; [|reflexivity].
  unfold diffinaz_unsigned. rewrite E0, sin_0.
  unfold div_checked.
  destruct (Req_dec_T (0 * sin (radians (90 - oa))) 0) as [_|H];
    [reflexivity | exfalso; apply H; ring].
Qed.

End CodecFacts.

(* ================================================================== *)
(** * Properties of the calibration estimator *)
(* ================================================================== *)

Module CalibrationFacts.

Import Transport Calibration.
Local Open Scope R_scope.

Lemma distance_moved_stalled x y k : distance_moved x y (stalled x y k) = 0.
Proof.
  unfold distance_moved, stalled. cbn [targetX targetY].
  replace ((x - x) ^ 2 + (y - y) ^ 2) with 0 by ring. apply sqrt_0.
Qed.

(** ** The ASCOM loops *)

Lemma ascom_loop_exits_on_cancel rate startx starty obs n :
  forall fuel k distmoved,
    calibratestart (obs (k + n)%nat) = false ->
    (n < fuel)%nat ->
    exists r, ascom_loop rate startx starty obs fuel k distmoved = Some r.
Proof.
  induction n as [|n IH]; intros fuel k d Hflag Hfuel;
    (destruct fuel as [|fuel]; [lia|]); cbn [ascom_loop].
  - rewrite Nat.add_0_r in Hflag. rewrite Hflag.
    destruct (Rlt_dec d 100); eauto.
  - destruct (Rlt_dec d 100); [|eauto].
    destruct (calibratestart (obs k)); [|eauto].
    destruct (IH fuel (S k) (distance_moved startx starty (obs k))) as [[d' c] ->].
    + rewrite <- Hflag. f_equal. f_equal. lia.
    + lia.
    + eauto.
Qed.

Lemma ascom_loop_exits_on_threshold rate startx starty obs n :
  forall fuel k distmoved,
    100 <= distance_moved startx starty (obs (k + n)%nat) ->
    (S n < fuel)%nat ->
    exists r, ascom_loop rate startx starty obs fuel k distmoved = Some r.
Proof.
  induction n as [|n IH]; intros fuel k d Hdist Hfuel;
    (destruct fuel as [|fuel]; [lia|]); cbn [ascom_loop].
  - rewrite Nat.add_0_r in Hdist.
    destruct (Rlt_dec d 100); [|eauto].
    destruct (calibratestart (obs k)); [|eauto].
    destruct fuel as [|fuel]; [lia|]. cbn [ascom_loop].
    destruct (Rlt_dec _ 100); [lra|]. eauto.
  - destruct (Rlt_dec d 100); [|eauto].
    destruct (calibratestart (obs k)); [|eauto].
    destruct (IH fuel (S k) (distance_moved startx starty (obs k))) as [[d' c] ->].
    + replace (S k + n)%nat with (k + S n)%nat by lia. exact Hdist.
    + lia.
    + eauto.
Qed.

(** Whenever an ASCOM move returns, its last call stops the axis. *)
Lemma ascom_move_stops_axis rate startx starty obs fuel d cmds :
  ascom_move rate startx starty obs fuel = Some (d, cmds) ->
  exists before, cmds = before ++ [MoveAxis 1 0].
Proof.
  unfold ascom_move. intros H.
  destruct (ascom_loop _ _ _ _ _ _ _) as [[d' c]|]; [|discriminate].
  injection H as <- <-. exists (MoveAxis 1 rate :: c). reflexivity.
Qed.

(** ** The LX200 loops *)

Lemma lx200_loop_exits_on_threshold move startx starty obs n :
  forall fuel k distmoved,
    100 <= distance_moved startx starty (obs (k + n)%nat) ->
    (S n < fuel)%nat ->
    exists r, lx200_loop move startx starty obs fuel k distmoved = Some r.
Proof.
  induction n as [|n IH]; intros fuel k d Hdist Hfuel;
    (destruct fuel as [|fuel]; [lia|]); cbn [lx200_loop].
  - rewrite Nat.add_0_r in Hdist.
    destruct (Rlt_dec d 100); [|eauto].
    destruct fuel as [|fuel]; [lia|]. cbn [lx200_loop].
    destruct (Rlt_dec _ 100); [lra|]. eauto.
  - destruct (Rlt_dec d 100); [|eauto].
    destruct (IH fuel (S k) (distance_moved startx starty (obs k))) as [[d' c] ->].
    + replace (S k + n)%nat with (k + S n)%nat by lia. exact Hdist.
    + lia.
    + eauto.
Qed.

Lemma lx200_move_quits move quit startx starty obs fuel d cmds :
  lx200_move move quit startx starty obs fuel = Some (d, cmds) ->
  exists before, cmds = before ++ [quit].
Proof.
  unfold lx200_move. intros H.
  destruct (lx200_loop _ _ _ _ _ _ _) as [[d' c]|]; [|discriminate].
  injection H as <- <-. exists (RC :: c). reflexivity.
Qed.

(** While the displacement stays below the threshold the LX200 loop
    goes on, whatever [calibratestart] says. *)
Lemma lx200_loop_below_threshold move startx starty obs :
  (forall k, distance_moved startx starty (obs k) < 100) ->
  forall fuel k distmoved,
    distmoved < 100 ->
    lx200_loop move startx starty obs fuel k distmoved = None.
Proof.
  intros Hobs. induction fuel as [|fuel IH]; intros k d Hd; cbn [lx200_loop];
    [reflexivity|].
  destruct (Rlt_dec d 100); [|lra].
  rewrite IH; [reflexivity | apply Hobs].
Qed.

(** ** The claim about cancellation *)

(** C5.  On the LX200 transport the motion loop does not look at
    [calibratestart]: with a target that never moves and the calibration
    cancelled from the first round on, the loop is still running after any
    number of rounds and never reaches its [:Qn#] or [:Qs#]; the ASCOM loop
    on the same observations leaves at once and stops the axis. *)
Theorem C5_lx200_calibration_ignores_cancel :
  forall mounttype height startx starty fuel,
    set_calibration "LX200" mounttype height startx starty
                    (stalled startx starty) fuel = None /\
    set_calibration "ASCOM" "AltAz" height startx starty
                    (stalled startx starty) (S fuel)
    = Some (0, [MoveAxis 1 (if Rlt_dec starty (height / 2) then 0.1 else -0.1);
                MoveAxis 1 0], []).
Proof.
  intros mounttype height startx starty fuel. split.
  - unfold set_calibration. cbn [String.eqb Ascii.eqb Bool.eqb].
    unfold lx200_move.
    destruct (Rlt_dec starty (height / 2));
      (rewrite lx200_loop_below_threshold;
       [reflexivity | intros k; rewrite distance_moved_stalled; lra | lra]).
  - unfold set_calibration. cbn [String.eqb Ascii.eqb Bool.eqb orb].
    unfold ascom_move. cbn [ascom_loop stalled calibratestart].
    destruct (Rlt_dec 0 100); [|lra]. reflexivity.
Qed.

(** ** What a calibration move sends *)

Lemma ascom_loop_result rate startx starty obs :
  forall fuel k distmoved d cmds,
    ascom_loop rate startx starty obs fuel k distmoved = Some (d, cmds) ->
    cmds = repeat (MoveAxis 1 rate) (length cmds) /\
    (100 <= d \/ calibratestart (obs (k + length cmds)%nat) = false).
Proof.
  induction fuel as [|fuel IH]; intros k d0 d cmds H; cbn [ascom_loop] in H;
    [discriminate|].
  destruct (Rlt_dec d0 100) as [Hlt|Hge].
  - destruct (calibratestart (obs k)) eqn:Hflag.
    + destruct (ascom_loop _ _ _ _ fuel (S k) _) as [[d' c]|] eqn:E;
        [|discriminate].
      injection H as <- <-. destruct (IH _ _ _ _ E) as [Hc Hexit].
      cbn [length repeat]. split; [f_equal; exact Hc|].
      replace (k + S (length c))%nat with (S k + length c)%nat by lia.
      exact Hexit.
    + injection H as <- <-. cbn [length]. rewrite Nat.add_0_r. auto.
  - injection H as <- <-. split; [reflexivity|]. left. lra.
Qed.

Lemma ascom_loop_rounds rate startx starty obs n :
  forall fuel k distmoved d cmds,
    calibratestart (obs (k + n)%nat) = false \/
      100 <= distance_moved startx starty (obs (k + n)%nat) ->
    ascom_loop rate startx starty obs fuel k distmoved = Some (d, cmds) ->
    (length cmds <= S n)%nat.
Proof.
  induction n as [|n IH]; intros fuel k d0 d cmds Hn H;
    (destruct fuel as [|fuel]; [discriminate|]); cbn [ascom_loop] in H.
  - rewrite Nat.add_0_r in Hn.
    destruct (Rlt_dec d0 100); [|injection H as _ <-; simpl; lia].
    destruct (calibratestart (obs k)) eqn:Hflag;
      [|injection H as _ <-; simpl; lia].
    destruct Hn as [Hn|Hn]; [congruence|].
    destruct fuel as [|fuel]; [discriminate|]. cbn [ascom_loop] in H.
    destruct (Rlt_dec _ 100); [lra|].
    injection H as _ <-. simpl. lia.
  - destruct (Rlt_dec d0 100); [|injection H as _ <-; simpl; lia].
    destruct (calibratestart (obs k)); [|injection H as _ <-; simpl; lia].
    destruct (ascom_loop _ _ _ _ fuel (S k) _) as [[d' c]|] eqn:E;
      [|discriminate].
    injection H as _ <-. cbn [length].
    assert (length c <= S n)%nat; [|lia].
    eapply IH; [|exact E].
    replace (S k + n)%nat with (k + S n)%nat by lia. exact Hn.
Qed.

(** An ASCOM calibration move returns once a round sees the cancellation
    or the threshold: it has started the axis, repeated the rate once per
    round, and its last call stops the axis; it leaves only at the
    threshold or on cancellation. *)
Theorem ascom_move_on_cancel_or_threshold :
  forall rate startx starty obs n fuel,
    calibratestart (obs n) = false \/
      100 <= distance_moved startx starty (obs n) ->
    (S n < fuel)%nat ->
    exists d rounds,
      ascom_move rate startx starty obs fuel
        = Some (d, MoveAxis 1 rate :: repeat (MoveAxis 1 rate) rounds
                     ++ [MoveAxis 1 0]) /\
      (rounds <= S n)%nat /\
      (100 <= d \/ calibratestart (obs rounds) = false).
Proof.
  intros rate sx sy obs n fuel Hn Hfuel. unfold ascom_move.
  assert (Hret : exists r, ascom_loop rate sx sy obs fuel 0 0 = Some r).
  { destruct Hn as [Hn|Hn].
    - apply ascom_loop_exits_on_cancel with (n := n); [exact Hn | lia].
    - apply ascom_loop_exits_on_threshold with (n := n); [exact Hn | lia]. }
  destruct Hret as [[d cmds] E]. rewrite E.
  destruct (ascom_loop_result _ _ _ _ _ _ _ _ _ E) as [Hc Hexit].
  pose proof (ascom_loop_rounds rate sx sy obs n fuel 0%nat 0 d cmds Hn E) as Hr.
  exists d, (length cmds). rewrite <- Hc. auto.
Qed.

Lemma ascom_move_on_cancel_or_threshold_witness :
  exists d rounds,
    ascom_move 0.1 320 100 (stalled 320 100) 2
      = Some (d, MoveAxis 1 0.1 :: repeat (MoveAxis 1 0.1) rounds
                   ++ [MoveAxis 1 0]) /\
    (rounds <= 1)%nat /\
    (100 <= d \/ calibratestart (stalled 320 100 rounds) = false).
Proof.
  apply (ascom_move_on_cancel_or_threshold 0.1 320 100 (stalled 320 100) 0 2).
  - left. reflexivity.
  - lia.
Defined.

Lemma lx200_loop_result move startx starty obs :
  forall fuel k distmoved d cmds,
    lx200_loop move startx starty obs fuel k distmoved = Some (d, cmds) ->
    cmds = repeat move (length cmds) /\ 100 <= d.
Proof.
  induction fuel as [|fuel IH]; intros k d0 d cmds H; cbn [lx200_loop] in H;
    [discriminate|].
  destruct (Rlt_dec d0 100) as [Hlt|Hge].
  - destruct (lx200_loop _ _ _ _ fuel (S k) _) as [[d' c]|] eqn:E;
      [|discriminate].
    injection H as <- <-. destruct (IH _ _ _ _ E) as [Hc Hd].
    cbn [length repeat]. split; [f_equal; exact Hc | exact Hd].
  - injection H as <- <-. split; [reflexivity | lra].
Qed.

(** An LX200 calibration move returns once a round sees the threshold:
    it has selected the rate, sent one move command per round and ends
    with the quit command; the distance it returns is at least 100
    pixels, so the image scale is never a division by zero. *)
Theorem lx200_move_on_threshold :
  forall move quit startx starty obs n fuel,
    100 <= distance_moved startx starty (obs n) ->
    (S n < fuel)%nat ->
    exists d rounds,
      lx200_move move quit startx starty obs fuel
        = Some (d, RC :: repeat move rounds ++ [quit]) /\
      100 <= d.
Proof.
  intros move quit sx sy obs n fuel Hn Hfuel. unfold lx200_move.
  destruct (lx200_loop_exits_on_threshold move sx sy obs n fuel 0%nat 0)
    as [[d cmds] E]; [exact Hn | lia |].
  rewrite E. destruct (lx200_loop_result _ _ _ _ _ _ _ _ _ E) as [Hc Hd].
  exists d, (length cmds). rewrite <- Hc. auto.
Qed.

Lemma lx200_move_on_threshold_witness :
  exists d rounds,
    lx200_move Mn Qn 320 100 (drifting 320 100) 2
      = Some (d, RC :: repeat Mn rounds ++ [Qn]) /\
    100 <= d.
Proof.
  apply (lx200_move_on_threshold Mn Qn 320 100 (drifting 320 100) 0 2).
  - unfold distance_moved, drifting. cbn [targetX targetY].
    replace ((320 - (320 + 150)) ^ 2 + (100 - 100) ^ 2) with (150 * 150) by ring.
    rewrite sqrt_square; lra.
  - lia.
Defined.

End CalibrationFacts.

(* ================================================================== *)
(** * Properties of the tracking controller *)
(* ================================================================== *)

Module ControllerFacts.

Import Codec Transport Controller.
Local Open Scope R_scope.

(** ** Rate clamping *)

Lemma clamp_rate_within (rate limit : R) :
  0 <= limit -> - limit <= clamp_rate rate limit <= limit.
Proof.
  intros Hl. unfold clamp_rate.
  destruct (Rgt_dec rate limit); destruct (Rlt_dec _ (-1 * limit)); lra.
Qed.

(** The two examples of the description: limit 2, rates 5 and -9. *)
Lemma clamp_rate_examples : clamp_rate 5 2 = 2 /\ clamp_rate (-9) 2 = -2.
Proof.
  unfold clamp_rate. split.
  - destruct (Rgt_dec 5 2); [|lra]. destruct (Rlt_dec 2 (-1 * 2)); lra.
  - destruct (Rgt_dec (-9) 2); [lra|]. destruct (Rlt_dec (-9) (-1 * 2)); lra.
Qed.

Section Limits.

Variables axis0rate axis1rate : R.
Hypothesis axis0_nonneg : 0 <= axis0rate.
Hypothesis axis1_nonneg : 0 <= axis1rate.

Let within := rate_within axis0rate axis1rate.

Lemma move_axes_within rate0 rate1 :
  Forall within (move_axes axis0rate axis1rate rate0 rate1).
Proof.
  unfold move_axes. constructor; [|constructor; [|constructor]].
  - split; intros H; [|discriminate].
    apply (clamp_rate_within rate0 axis0rate axis0_nonneg).
  - split; intros H; [discriminate|].
    apply (clamp_rate_within rate1 axis1rate axis1_nonneg).
Qed.

Lemma first_slew_ascom_within e :
  Forall within (first_slew_ascom axis0rate axis1rate e).
Proof.
  unfold first_slew_ascom. apply Forall_app. split.
  - destruct (is_AltAz e && trackingsat e); [|constructor].
    constructor; [exact I | apply move_axes_within].
  - destruct (is_Eq e && trackingsat e); [|constructor].
    constructor; [exact I | apply move_axes_within].
Qed.

Lemma follow_ephemeris_within e s :
  Forall within (snd (fst (follow_ephemeris axis0rate axis1rate e s))).
Proof.
  unfold follow_ephemeris.
  destruct (is_ASCOM e).
  - cbn [fst snd]. apply Forall_app. split.
    + destruct (is_AltAz e && trackingsat e); [|constructor].
      apply move_axes_within.
    + destruct (is_Eq e && trackingsat e); [|constructor].
      apply move_axes_within.
  - destruct (is_LX200 e); [|constructor].
    destruct (is_AltAz e).
    + unfold ephemeris_lx200_altaz. destruct (i s + 1 >? 100)%Z; constructor.
    + destruct (is_Eq e); constructor.
Qed.

Lemma visual_ascom_altaz_within e s :
  Forall within (visual_ascom_altaz axis0rate axis1rate e s).
Proof.
  unfold visual_ascom_altaz.
  destruct (Rgt_dec (dnow e) (dlast s)); [|constructor].
  destruct (sky_delta _ _) as [[objectalt diffinaz]|]; [|constructor].
  apply move_axes_within.
Qed.

Lemma visual_ascom_eq_within e s :
  Forall within (snd (visual_ascom_eq axis0rate axis1rate e s)).
Proof.
  unfold visual_ascom_eq.
  destruct (Rgt_dec (dnow e) (dlast s)); [|constructor].
  destruct (object_alt _ _); [|constructor].
  destruct (diffinaz_unsigned _ _ _); [|constructor].
  apply move_axes_within.
Qed.

Lemma follow_visual_within e s :
  Forall within (snd (fst (follow_visual axis0rate axis1rate e s))).
Proof.
  unfold follow_visual.
  destruct (is_ASCOM e).
  - pose proof (visual_ascom_eq_within e s) as Heq.
    destruct (is_Eq e && trackingsat e).
    + destruct (visual_ascom_eq axis0rate axis1rate e s) as [[od dr] eq].
      cbn [fst snd] in *. apply Forall_app. split; [|exact Heq].
      destruct (is_AltAz e && trackingsat e); [|constructor].
      apply visual_ascom_altaz_within.
    + cbn [fst snd]. apply Forall_app. split; [|constructor].
      destruct (is_AltAz e && trackingsat e); [|constructor].
      apply visual_ascom_altaz_within.
  - destruct (is_LX200 e); [|constructor].
    destruct (is_AltAz e).
    + unfold visual_lx200_altaz.
      destruct (Rgt_dec (dnow e) (dlast s)).
      * destruct (sky_delta _ _) as [[objectalt diffinaz]|].
        -- destruct (Rlt_dec (lasttotaldiff s) _); constructor.
        -- constructor.
      * constructor.
    + destruct (is_EQ e); [|constructor].
      unfold visual_lx200_EQ.
      destruct (Rgt_dec (dnow e) (dlast s)).
      * destruct (visual_lx200_EQ_try e s) as [dr [[decdiff radiff]|]].
        -- destruct (Rlt_dec (lasttotaldiff s) _); constructor.
        -- constructor.
      * constructor.
Qed.

Lemma follow_within e s :
  Forall within (snd (fst (follow axis0rate axis1rate e s))).
Proof.
  unfold follow. destruct (objectfollow e);
    [apply follow_visual_within | apply follow_ephemeris_within].
Qed.

Lemma first_slew_within e s s1 tel ser :
  first_slew axis0rate axis1rate e s = Some (s1, tel, ser) -> Forall within tel.
Proof.
  unfold first_slew. intros H.
  destruct (if is_LX200 e then _ else _) as [[[last dl] c]|]; [|discriminate].
  injection H as _ <- _.
  destruct (is_ASCOM e); [apply first_slew_ascom_within | constructor].
Qed.

Lemma sat_track_cycle_within e s s' tel ser :
  sat_track_cycle axis0rate axis1rate e s = Some (s', tel, ser) ->
  Forall within tel.
Proof.
  unfold sat_track_cycle. intros H.
  destruct (if firstslew s then _ else _) as [[[s1 tel1] ser1]|] eqn:E1;
    [|discriminate].
  pose proof (follow_within e s1) as Hf.
  destruct (follow axis0rate axis1rate e s1) as [[s2 tel2] ser2].
  injection H as _ <- _. cbn [fst snd] in Hf.
  apply Forall_app. split; [|exact Hf].
  destruct (firstslew s).
  - eapply first_slew_within; eauto.
  - injection E1 as _ <- _. constructor.
Qed.

Lemma sat_track_loop_within es : forall s s' tel ser stopped,
  sat_track_loop axis0rate axis1rate es s = Some (s', tel, ser, stopped) ->
  Forall within tel.
Proof.
  induction es as [|e es IH]; intros s s' tel ser stopped H; cbn [sat_track_loop] in H.
  - injection H as _ <- _ _. constructor.
  - destruct (trackingsat e).
    + destruct (sat_track_cycle _ _ e s) as [[[s1 tel1] ser1]|] eqn:E1;
        [|discriminate].
      destruct (sat_track_loop _ _ es s1) as [[[[s2 tel2] ser2] st]|] eqn:E2;
        [|discriminate].
      injection H as _ <- _ _. apply Forall_app. split.
      * eapply sat_track_cycle_within; eauto.
      * eapply IH; eauto.
    + injection H as _ <- _ _.
      destruct (is_ASCOM e); [constructor; [exact I | constructor] | constructor].
Qed.

End Limits.

(** C1.  With axis limits that are not negative, every rate that the
    controller hands to [MoveAxis] lies between minus the limit of its axis
    and the limit: in the first slew, in following the ephemeris and in
    following the visual lock, for both mount types, and so throughout any
    run of [sat_track]. *)
Theorem C1_move_axis_rates_clamped :
  forall axis0rate axis1rate e s es s0 s' tel ser stopped,
    0 <= axis0rate -> 0 <= axis1rate ->
    Forall (rate_within axis0rate axis1rate)
           (first_slew_ascom axis0rate axis1rate e) /\
    Forall (rate_within axis0rate axis1rate)
           (snd (fst (follow_ephemeris axis0rate axis1rate e s))) /\
    Forall (rate_within axis0rate axis1rate)
           (snd (fst (follow_visual axis0rate axis1rate e s))) /\
    (sat_track_loop axis0rate axis1rate es s0 = Some (s', tel, ser, stopped) ->
     Forall (rate_within axis0rate axis1rate) tel).
Proof.
  intros a0 a1 e s es s0 s' tel ser stopped H0 H1.
  split; [apply first_slew_ascom_within; assumption|].
  split; [apply follow_ephemeris_within; assumption|].
  split; [apply follow_visual_within; assumption|].
  apply sat_track_loop_within; assumption.
Qed.

Lemma C1_move_axis_rates_clamped_witness :
  0 <= 2 /\ 0 <= 2 /\
  Forall (rate_within 2 2) (first_slew_ascom 2 2 env_ascom_altaz) /\
  Forall (rate_within 2 2)
         (snd (fst (follow_ephemeris 2 2 env_ascom_altaz sat_track_init))) /\
  Forall (rate_within 2 2)
         (snd (fst (follow_visual 2 2 env_ascom_altaz sat_track_init))) /\
  (sat_track_loop 2 2 [] sat_track_init = Some (sat_track_init, [], [], false) ->
   Forall (rate_within 2 2) []).
Proof.
  split; [lra|]. split; [lra|].
  apply (C1_move_axis_rates_clamped 2 2 env_ascom_altaz sat_track_init []
           sat_track_init sat_track_init [] [] false); lra.
Defined.

(** ** The correction accumulators *)

Lemma follow_visual_corrections axis0rate axis1rate e s :
  let s' := fst (fst (follow_visual axis0rate axis1rate e s)) in
  corrections s' = corrections s \/ lasttotaldiff s < lasttotaldiff s'.
Proof.
  unfold follow_visual.
  destruct (is_ASCOM e).
  - destruct (if is_Eq e && trackingsat e then _ else _) as [[od dr] eq].
    left. reflexivity.
  - destruct (is_LX200 e); [|left; reflexivity].
    destruct (is_AltAz e).
    + unfold visual_lx200_altaz.
      destruct (Rgt_dec (dnow e) (dlast s)); [|left; reflexivity].
      destruct (sky_delta _ _) as [[objectalt diffinaz]|]; [|left; reflexivity].
      destruct (Rlt_dec (lasttotaldiff s) _) as [Hlt|_]; [|left; reflexivity].
      right. exact Hlt.
    + destruct (is_EQ e); [|left; reflexivity].
      unfold visual_lx200_EQ.
      destruct (Rgt_dec (dnow e) (dlast s)); [|left; reflexivity].
      destruct (visual_lx200_EQ_try e s) as [dr [[decdiff radiff]|]];
        [|left; reflexivity].
      destruct (Rlt_dec (lasttotaldiff s) _) as [Hlt|_]; [|left; reflexivity].
      right. exact Hlt.
Qed.

Lemma follow_ephemeris_corrections axis0rate axis1rate e s :
  objectfollow e = false ->
  let s' := fst (fst (follow_ephemeris axis0rate axis1rate e s)) in
  corrections s' = corrections s \/
  lasttotaldiff s < lasttotaldiff s' \/
  periodic_correction e s \/
  (is_ASCOM e = true /\ kept_or_zeroed s s').
Proof.
  intros Hof. unfold follow_ephemeris.
  destruct (is_ASCOM e) eqn:Ea.
  - right. right. right. split; [reflexivity|].
    unfold kept_or_zeroed. cbn [fst altcorrect azcorrect deccorrect racorrect].
    destruct (is_AltAz e && trackingsat e); destruct (is_Eq e && trackingsat e);
      auto.
  - destruct (is_LX200 e) eqn:El; [|left; reflexivity].
    destruct (is_AltAz e) eqn:Em.
    + unfold ephemeris_lx200_altaz.
      destruct (i s + 1 >? 100)%Z eqn:Ei; [|left; reflexivity].
      right. right. left. unfold periodic_correction.
      repeat split; auto. apply Z.gtb_lt in Ei. exact Ei.
    + destruct (is_Eq e); [|left; reflexivity].
      unfold ephemeris_lx200_eq. cbn [fst corrections lasttotaldiff
        altcorrect azcorrect deccorrect racorrect].
      destruct (Rlt_dec (lasttotaldiff s) _) as [Hlt|_]; [|left; reflexivity].
      right. left. exact Hlt.
Qed.

(** One following step: the accumulators are untouched unless the
    recorded total error grew, the periodic gate opened, or an ASCOM
    ephemeris cycle put them back to zero. *)
Lemma follow_corrections axis0rate axis1rate e s :
  let s' := fst (fst (follow axis0rate axis1rate e s)) in
  corrections s' = corrections s \/
  lasttotaldiff s < lasttotaldiff s' \/
  periodic_correction e s \/
  (is_ASCOM e = true /\ objectfollow e = false /\ kept_or_zeroed s s').
Proof.
  unfold follow. destruct (objectfollow e) eqn:Hof.
  - destruct (follow_visual_corrections axis0rate axis1rate e s); auto.
  - destruct (follow_ephemeris_corrections axis0rate axis1rate e s Hof)
      as [H|[H|[H|[H1 H2]]]]; auto.
    right. right. right. auto.
Qed.

Lemma follow_run_calm axis0rate axis1rate es : forall s,
  corrections s = (0, 0, 0, 0) ->
  calm axis0rate axis1rate es s ->
  corrections (follow_run axis0rate axis1rate es s) = (0, 0, 0, 0).
Proof.
  induction es as [|e es IH]; intros s Hz Hcalm; cbn [follow_run]; [exact Hz|].
  cbn [calm] in Hcalm. destruct Hcalm as [Hle [Hgate Hrest]].
  apply IH; [|exact Hrest].
  destruct (follow_corrections axis0rate axis1rate e s)
    as [H|[H|[H|[_ [_ Hk]]]]].
  - congruence.
  - lra.
  - contradiction.
  - unfold corrections in *. injection Hz as Ha Hb Hc Hd.
    destruct Hk as [[-> | ->] [[-> | ->] [[-> | ->] [-> | ->]]]];
      rewrite ?Ha, ?Hb, ?Hc, ?Hd; reflexivity.
Qed.

Lemma first_slew_corrections axis0rate axis1rate e s s1 tel ser :
  first_slew axis0rate axis1rate e s = Some (s1, tel, ser) ->
  corrections s1 = corrections s.
Proof.
  unfold first_slew. intros H.
  destruct (if is_LX200 e then _ else _) as [[[last dl] c]|]; [|discriminate].
  injection H as <- _ _. reflexivity.
Qed.

Lemma follow_firstslew axis0rate axis1rate e s :
  firstslew (fst (fst (follow axis0rate axis1rate e s))) = firstslew s.
Proof.
  unfold follow, follow_visual, follow_ephemeris.
  destruct (objectfollow e).
  - destruct (is_ASCOM e).
    + destruct (if is_Eq e && trackingsat e then _ else _) as [[od dr] eq].
      reflexivity.
    + destruct (is_LX200 e); [|reflexivity].
      destruct (is_AltAz e).
      * unfold visual_lx200_altaz.
        destruct (if Rgt_dec (dnow e) (dlast s) then _ else _) as [[[a b] c] d].
        reflexivity.
      * destruct (is_EQ e); [|reflexivity].
        unfold visual_lx200_EQ.
        destruct (if Rgt_dec (dnow e) (dlast s) then _ else _)
          as [[[[a b] c] d] r].
        reflexivity.
  - destruct (is_ASCOM e); [reflexivity|].
    destruct (is_LX200 e); [|reflexivity].
    destruct (is_AltAz e).
    + unfold ephemeris_lx200_altaz. destruct (i s + 1 >? 100)%Z; reflexivity.
    + destruct (is_Eq e); reflexivity.
Qed.

(** After an iteration the first-slew flag is down: a new slew starts
    only from the head of [sat_track]. *)
Lemma sat_track_cycle_firstslew axis0rate axis1rate e s s' tel ser :
  sat_track_cycle axis0rate axis1rate e s = Some (s', tel, ser) ->
  firstslew s' = false.
Proof.
  unfold sat_track_cycle. intros H.
  destruct (firstslew s) eqn:Hfs.
  - destruct (first_slew axis0rate axis1rate e s) as [[[s1 tel1] ser1]|] eqn:E1;
      [|discriminate].
    pose proof (follow_firstslew axis0rate axis1rate e s1) as Hf.
    destruct (follow axis0rate axis1rate e s1) as [[s2 tel2] ser2].
    injection H as <- _ _. cbn [fst] in Hf. rewrite Hf.
    unfold first_slew in E1.
    destruct (if is_LX200 e then _ else _) as [[[last dl] c]|]; [|discriminate].
    injection E1 as <- _ _. reflexivity.
  - pose proof (follow_firstslew axis0rate axis1rate e s) as Hf.
    destruct (follow axis0rate axis1rate e s) as [[s2 tel2] ser2].
    injection H as <- _ _. cbn [fst] in Hf. congruence.
Qed.

Lemma periodic_step :
  let s' := fst (fst (follow 0 0 env_lx200_altaz state_before_gate)) in
  altcorrect s' = 1 / 2 /\ lasttotaldiff s' = 1 / 2.
Proof.
  cbv zeta. unfold follow, follow_ephemeris, is_ASCOM, is_LX200, is_AltAz.
  cbn [objectfollow telescopetype mounttype env_lx200_altaz String.eqb
       Ascii.eqb Bool.eqb].
  unfold ephemeris_lx200_altaz.
  cbn [i state_before_gate]. change (100 + 1 >? 100)%Z with true.
  cbn [fst altcorrect lasttotaldiff sat sat_alt sat_az].
  assert (Halt : radians (telalt env_lx200_altaz) = 0).
  { unfold radians, telalt, respdegrees. cbn. lra. }
  assert (Haz : flip_az 0 - radians (telaz env_lx200_altaz) = 0).
  { unfold flip_az, radians, telaz, respdegrees, degrees. cbn.
    destruct (Rgt_dec (0 * (180 / PI) + 180) 360) as [Hgt|_]; [lra|]. lra. }
  change (sat_alt (sat env_lx200_altaz)) with (1 / 2).
  change (sat_az (sat env_lx200_altaz)) with 0.
  change (altcorrect state_before_gate) with 0.
  rewrite Halt, Haz. split; [lra|].
  replace ((1 / 2 - 0) ^ 2 + 0 ^ 2) with ((1 / 2) * (1 / 2)) by lra.
  apply sqrt_square. lra.
Qed.

(** C2, as the description states it, fails: on the LX200 alt-az branch
    that follows the ephemeris the accumulator moves from 0 to one half
    while the recorded total error falls from 1 to one half. *)
Lemma C2_counterexample :
  ~ (forall axis0rate axis1rate e s,
        firstslew s = false ->
        let s' := fst (fst (follow axis0rate axis1rate e s)) in
        corrections s' <> corrections s ->
        lasttotaldiff s < lasttotaldiff s').
Proof.
  intros Hclaim.
  specialize (Hclaim 0 0 env_lx200_altaz state_before_gate eq_refl).
  destruct periodic_step as [Ha Hl].
  cbv zeta in Hclaim. rewrite Hl in Hclaim.
  assert (Hne : corrections (fst (fst (follow 0 0 env_lx200_altaz state_before_gate)))
                <> corrections state_before_gate).
  { intros E. apply (f_equal (fun t => fst (fst (fst t)))) in E.
    unfold corrections in E. cbn [fst] in E. rewrite Ha in E.
    cbn in E. lra. }
  specialize (Hclaim Hne). cbn in Hclaim. lra.
Qed.

(** C2, as the code has it.  In the following part of an iteration the
    accumulators change only when the recorded total error grew, or when
    the LX200 alt-az ephemeris branch reaches its periodic gate (counter
    above 100), or when an ASCOM ephemeris cycle puts them back to zero;
    from zero they stay at zero along a run without the periodic gate in
    which the recorded error never grows; they are zero at the head of
    [sat_track], the only place where a slew starts (every iteration
    leaves the first-slew flag down), and the first-slew block does not
    touch them. *)
Theorem C2_corrections_change_only_when :
  forall axis0rate axis1rate e s es s0 s1 tel ser,
    (let s' := fst (fst (follow axis0rate axis1rate e s)) in
     corrections s' = corrections s \/
     lasttotaldiff s < lasttotaldiff s' \/
     periodic_correction e s \/
     (is_ASCOM e = true /\ objectfollow e = false /\ kept_or_zeroed s s')) /\
    (corrections s0 = (0, 0, 0, 0) ->
     calm axis0rate axis1rate es s0 ->
     corrections (follow_run axis0rate axis1rate es s0) = (0, 0, 0, 0)) /\
    corrections sat_track_init = (0, 0, 0, 0) /\
    firstslew sat_track_init = true /\
    (first_slew axis0rate axis1rate e s = Some (s1, tel, ser) ->
     corrections s1 = corrections s) /\
    (sat_track_cycle axis0rate axis1rate e s = Some (s1, tel, ser) ->
     firstslew s1 = false).
Proof.
  intros a0 a1 e s es s0 s1 tel ser.
  split; [apply follow_corrections|].
  split; [apply follow_run_calm|].
  split; [reflexivity|]. split; [reflexivity|].
  split; [apply first_slew_corrections | apply sat_track_cycle_firstslew].
Qed.

(** A following step of an LX200 equatorial mount whose error [d] is
    not above the recorded one. *)
Lemma ephemeris_lx200_eq_step (d : R) (s : state) :
  0 <= d -> d <= lasttotaldiff s ->
  let s' := fst (fst (follow 0 0 (env_lx200_eq d) s)) in
  corrections s' = corrections s /\ lasttotaldiff s' = d.
Proof.
  intros Hd Hle. cbv zeta.
  unfold follow, follow_ephemeris, is_ASCOM, is_LX200, is_AltAz, is_Eq.
  cbn [objectfollow telescopetype mounttype env_lx200_eq String.eqb
       Ascii.eqb Bool.eqb].
  unfold ephemeris_lx200_eq.
  cbn [fst corrections altcorrect azcorrect deccorrect racorrect lasttotaldiff].
  assert (Hdec : radians (teldec (env_lx200_eq d)) = 0).
  { unfold radians, teldec, respdegrees. cbn. lra. }
  assert (Hra : radians (telra (env_lx200_eq d)) = 0).
  { unfold radians, telra, resphours. cbn. lra. }
  change (sat_dec (sat (env_lx200_eq d))) with d.
  change (sat_ra (sat (env_lx200_eq d))) with 0.
  rewrite Hdec, Hra.
  assert (Hsq : sqrt ((d - 0) ^ 2 + (0 - 0) ^ 2) = d).
  { replace ((d - 0) ^ 2 + (0 - 0) ^ 2) with (d * d) by ring.
    now apply sqrt_square. }
  rewrite Hsq.
  destruct (Rlt_dec (lasttotaldiff s) d) as [Hlt|_]; [lra|].
  split; reflexivity.
Qed.

Lemma C2_corrections_change_only_when_witness :
  corrections (follow_run 0 0 [env_lx200_eq (1 / 2); env_lx200_eq (1 / 4)]
                          state_before_gate) = (0, 0, 0, 0).
Proof.
  apply (proj1 (proj2 (C2_corrections_change_only_when 0 0 env_lx200_altaz
                         state_before_gate
                         [env_lx200_eq (1 / 2); env_lx200_eq (1 / 4)]
                         state_before_gate state_before_gate [] []))).
  - reflexivity.
  - assert (H1 : 0 <= 1 / 2) by lra.
    assert (H2 : 1 / 2 <= lasttotaldiff state_before_gate) by (cbn; lra).
    destruct (ephemeris_lx200_eq_step (1 / 2) state_before_gate H1 H2)
      as [_ Hl1].
    assert (H3 : 0 <= 1 / 4) by lra.
    assert (H4 : 1 / 4 <= lasttotaldiff
                            (fst (fst (follow 0 0 (env_lx200_eq (1 / 2))
                                              state_before_gate))))
      by (rewrite Hl1; lra).
    destruct (ephemeris_lx200_eq_step (1 / 4) _ H3 H4) as [_ Hl2].
    cbn [calm]. repeat split.
    + rewrite Hl1. cbn. lra.
    + intros [_ [Haltaz _]]. discriminate Haltaz.
    + rewrite Hl2, Hl1. lra.
    + intros [_ [Haltaz _]]. discriminate Haltaz.
Defined.

(** ** The LX200 equatorial mount under visual lock *)

Lemma follow_lx200_eq_visual axis0rate axis1rate e s :
  telescopetype e = "LX200"%string ->
  mounttype e = "Eq"%string ->
  objectfollow e = true ->
  follow axis0rate axis1rate e s = (s, [], []).
Proof.
  intros Ht Hm Hof.
  unfold follow, follow_visual, is_ASCOM, is_LX200, is_AltAz, is_EQ.
  rewrite Hof, Ht, Hm. reflexivity.
Qed.

(** The first cycle of an LX200 equatorial mount under visual lock when
    the first poll finds the mount on the target: the goto and one round
    of position queries. *)
Lemma first_cycle_lx200_eq_visual axis0rate axis1rate :
  sat_track_cycle axis0rate axis1rate env_lx200_eq_visual_first sat_track_init
  = Some (mkState false 0 0 0 0 0 0 1 None None, [],
          goto_radec 0 0 ++ [GA; GA; GZ]).
Proof.
  assert (Hd : slew_distance 0 0 (mkResponse 0 0 0, mkResponse 0 0 0) = 0).
  { unfold slew_distance, respdegrees, degrees. cbn [fst snd r_deg r_min r_sec].
    replace ((0 * (180 / PI) - ((0 / 60 + 0) / 60 + 0)) ^ 2
             + (0 * (180 / PI) - ((0 / 60 + 0) / 60 + 0)) ^ 2) with 0
      by (simpl; field; apply PI_neq0).
    apply sqrt_0. }
  assert (E : first_slew_lx200 env_lx200_eq_visual_first
              = Some (0, goto_radec 0 0 ++ [GA; GA; GZ])).
  { unfold first_slew_lx200, is_AltAz, is_Eq.
    cbn [mounttype slew_polls sat sat_alt sat_az sat_ra sat_dec
         env_lx200_eq_visual_first String.eqb Ascii.eqb Bool.eqb slew_wait].
    rewrite Hd. destruct (Rgt_dec 0 1); [lra|]. reflexivity. }
  unfold sat_track_cycle. cbn [firstslew sat_track_init].
  unfold first_slew, is_LX200, is_ASCOM.
  cbn [telescopetype env_lx200_eq_visual_first String.eqb Ascii.eqb Bool.eqb].
  rewrite E.
  rewrite (follow_lx200_eq_visual axis0rate axis1rate env_lx200_eq_visual_first)
    by reflexivity.
  cbn [altcorrect azcorrect deccorrect racorrect i objectdec diffinra
       sat_track_init dnow env_lx200_eq_visual_first app].
  rewrite app_nil_r. reflexivity.
Qed.

(** C10, as the description states it, fails: in the first cycle the
    first-slew block does not look at the visual lock, and an LX200
    equatorial mount under visual lock is sent its goto and a round of
    position queries. *)
Lemma C10_counterexample :
  ~ (forall axis0rate axis1rate e s s' tel ser,
        telescopetype e = "LX200"%string ->
        mounttype e = "Eq"%string ->
        objectfollow e = true ->
        sat_track_cycle axis0rate axis1rate e s = Some (s', tel, ser) ->
        ser = [] /\ corrections s' = corrections s).
Proof.
  intros Hclaim.
  destruct (Hclaim 2 2 env_lx200_eq_visual_first sat_track_init _ _ _
              eq_refl eq_refl eq_refl (first_cycle_lx200_eq_visual 2 2))
    as [Hser _].
  unfold goto_radec in Hser.
  destruct (rad_to_sexagesimal_ra 0 0) as [r d]. discriminate Hser.
Qed.

(** C10, as the code has it.  With the telescope type ['LX200'], the
    mount type ['Eq'] and the visual lock on, the following part of an
    iteration does nothing, so every cycle after the first slew leaves the
    whole state, accumulators included, unchanged and calls neither
    transport.  In the first cycle the first-slew block, which does not
    test the visual lock, writes the goto and the position queries to the
    serial port; the accumulators are still unchanged and the ASCOM driver
    is not called.  The equatorial branch under visual lock tests for
    ['EQ']: the four menu handlers assign ['AltAz'] or ['Eq'] only, but
    the configuration load takes the twelfth line of the file as it is,
    and with ['EQ'] the branch does run and writes to the serial port. *)
Theorem C10_lx200_eq_visual_lock_silent_after_first_slew :
  forall axis0rate axis1rate e s,
    telescopetype e = "LX200"%string ->
    mounttype e = "Eq"%string ->
    objectfollow e = true ->
    follow axis0rate axis1rate e s = (s, [], []) /\
    (firstslew s = false ->
     sat_track_cycle axis0rate axis1rate e s = Some (s, [], [])) /\
    (firstslew s = true ->
     forall s' tel ser,
       sat_track_cycle axis0rate axis1rate e s = Some (s', tel, ser) ->
       tel = [] /\ corrections s' = corrections s /\
       exists polls,
         ser = goto_radec (sat_ra (sat e)) (sat_dec (sat e))
                 ++ [GA; GA; GZ] ++ polls) /\
    Forall (fun handler => snd handler = "AltAz"%string \/
                           snd handler = "Eq"%string)
           [setLX200AltAz; setLX200Eq; setASCOMAltAz; setASCOMEq] /\
    (forall before clines current,
        current <> "EQ"%string ->
        nth_error clines 11 <> Some "EQ"%string ->
        config_mounttype before clines current <> "EQ"%string) /\
    (forall clines current,
        nth_error clines 11 = Some "EQ"%string ->
        config_mounttype true clines current = "EQ"%string) /\
    (forall e' s0,
        telescopetype e' = "LX200"%string ->
        mounttype e' = "EQ"%string ->
        objectfollow e' = true ->
        snd (follow axis0rate axis1rate e' s0) <> []).
Proof.
  intros a0 a1 e s Ht Hm Hof.
  pose proof (follow_lx200_eq_visual a0 a1 e) as Hf.
  split; [apply Hf; assumption|]. split; [|split; [|split; [|split; [|split]]]].
  - intros Hfs. unfold sat_track_cycle. rewrite Hfs, Hf by assumption.
    reflexivity.
  - intros Hfs s' tel ser H. unfold sat_track_cycle in H. rewrite Hfs in H.
    destruct (first_slew a0 a1 e s) as [[[s1 tel1] ser1]|] eqn:E1;
      [|discriminate].
    rewrite Hf in H by assumption. injection H as <- <- <-.
    rewrite !app_nil_r.
    split; [|split; [exact (first_slew_corrections _ _ _ _ _ _ _ E1)|]].
    + unfold first_slew in E1.
      destruct (if is_LX200 e then _ else _) as [[[last dl] c]|];
        [|discriminate].
      unfold is_ASCOM in E1. rewrite Ht in E1.
      cbn [String.eqb Ascii.eqb Bool.eqb] in E1.
      injection E1 as _ <- _. reflexivity.
    + unfold first_slew, is_LX200 in E1. rewrite Ht in E1.
      cbn [String.eqb Ascii.eqb Bool.eqb] in E1.
      unfold first_slew_lx200, is_AltAz, is_Eq in E1. rewrite Hm in E1.
      cbn [String.eqb Ascii.eqb Bool.eqb app] in E1.
      destruct (slew_polls e) as [|poll polls]; [discriminate|].
      destruct (slew_wait _ _ polls _) as [cmds|]; [|discriminate].
      injection E1 as _ _ <-. exists cmds. reflexivity.
  - repeat (apply Forall_cons;
            [first [left; reflexivity | right; reflexivity]|]).
    apply Forall_nil.
  - intros before clines current Hc Hl. unfold config_mounttype.
    destruct before; [|exact Hc].
    destruct (nth_error clines 11) as [line|]; [|exact Hc].
    intros ->. now apply Hl.
  - intros clines current Hl. unfold config_mounttype. now rewrite Hl.
  - intros e' s0 Ht' Hm' Hof'.
    unfold follow, follow_visual, is_ASCOM, is_LX200, is_AltAz, is_EQ.
    rewrite Hof', Ht', Hm'. cbn [String.eqb Ascii.eqb Bool.eqb].
    unfold visual_lx200_EQ.
    destruct (if Rgt_dec (dnow e') (dlast s0) then _ else _)
      as [[[[dr dc] rc] last] reads].
    cbn [snd]. unfold goto_radec.
    destruct (rad_to_sexagesimal_ra _ _) as [r d].
    intros H. apply (f_equal (@length _)) in H.
    rewrite length_app in H. cbn [length] in H. lia.
Qed.

Lemma C10_lx200_eq_visual_lock_silent_after_first_slew_witness :
  sat_track_cycle 2 2 env_lx200_eq_visual state_before_gate
    = Some (state_before_gate, [], []) /\
  (exists s' polls,
      sat_track_cycle 2 2 env_lx200_eq_visual_first sat_track_init
        = Some (s', [], goto_radec 0 0 ++ [GA; GA; GZ] ++ polls) /\
      corrections s' = corrections sat_track_init).
Proof.
  split.
  - apply (proj1 (proj2 (C10_lx200_eq_visual_lock_silent_after_first_slew
                           2 2 env_lx200_eq_visual state_before_gate
                           eq_refl eq_refl eq_refl))).
    reflexivity.
  - destruct (proj1 (proj2 (proj2
                (C10_lx200_eq_visual_lock_silent_after_first_slew
                   2 2 env_lx200_eq_visual_first sat_track_init
                   eq_refl eq_refl eq_refl)))
                eq_refl _ _ _ (first_cycle_lx200_eq_visual 2 2))
      as (_ & Hc & polls & Hser).
    exists (mkState false 0 0 0 0 0 0 1 None None), [].
    split; [apply first_cycle_lx200_eq_visual | exact Hc].
Defined.

(** ** Saturation of the clamp *)

(** With a limit that is not negative the clamp is the projection on
    the interval between minus the limit and the limit: a rate inside
    passes unchanged, a rate outside becomes the nearer end, and clamping
    twice changes nothing more. *)
Theorem clamp_rate_saturates :
  forall rate limit,
    0 <= limit ->
    (- limit <= rate <= limit -> clamp_rate rate limit = rate) /\
    (limit < rate -> clamp_rate rate limit = limit) /\
    (rate < - limit -> clamp_rate rate limit = - limit) /\
    clamp_rate (clamp_rate rate limit) limit = clamp_rate rate limit.
Proof.
  intros rate limit Hl. unfold clamp_rate.
  repeat split; intros;
    repeat (destruct (Rgt_dec _ _) || destruct (Rlt_dec _ _)); lra.
Qed.

Lemma clamp_rate_saturates_witness :
  (- 2 <= 5 <= 2 -> clamp_rate 5 2 = 5) /\
  (2 < 5 -> clamp_rate 5 2 = 2) /\
  (5 < - 2 -> clamp_rate 5 2 = - 2) /\
  clamp_rate (clamp_rate 5 2) 2 = clamp_rate 5 2.
Proof. apply (clamp_rate_saturates 5 2). lra. Defined.

(** With a negative limit the two tests overlap and every rate comes out
    as minus the limit, outside the interval the limit describes. *)
Theorem clamp_rate_negative_limit :
  forall rate limit, limit < 0 -> clamp_rate rate limit = - limit.
Proof.
  intros rate limit Hl. unfold clamp_rate.
  destruct (Rgt_dec rate limit); destruct (Rlt_dec _ _); lra.
Qed.

Lemma clamp_rate_negative_limit_witness : clamp_rate 0 (- 2) = - - 2.
Proof. apply (clamp_rate_negative_limit 0 (- 2)). lra. Defined.

(** ** One transport per mount *)

Lemma ascom_not_lx200 e : is_ASCOM e = true -> is_LX200 e = false.
Proof.
  unfold is_ASCOM, is_LX200. intros H. apply String.eqb_eq in H.
  rewrite H. reflexivity.
Qed.

Lemma follow_one_transport axis0rate axis1rate e s :
  (is_ASCOM e = true -> snd (follow axis0rate axis1rate e s) = []) /\
  (is_ASCOM e = false -> snd (fst (follow axis0rate axis1rate e s)) = []).
Proof.
  unfold follow, follow_visual, follow_ephemeris.
  destruct (objectfollow e).
  - destruct (is_ASCOM e).
    + destruct (if is_Eq e && trackingsat e then _ else _) as [[od dr] eq].
      split; [reflexivity | discriminate].
    + split; [discriminate|]. intros _.
      destruct (is_LX200 e); [|reflexivity].
      destruct (is_AltAz e).
      * unfold visual_lx200_altaz.
        destruct (if Rgt_dec (dnow e) (dlast s) then _ else _) as [[[a b] c] d].
        reflexivity.
      * destruct (is_EQ e); [|reflexivity].
        unfold visual_lx200_EQ.
        destruct (if Rgt_dec (dnow e) (dlast s) then _ else _)
          as [[[[a b] c] d] r].
        reflexivity.
  - destruct (is_ASCOM e); [split; [reflexivity | discriminate]|].
    split; [discriminate|]. intros _.
    destruct (is_LX200 e); [|reflexivity].
    destruct (is_AltAz e).
    + unfold ephemeris_lx200_altaz. destruct (i s + 1 >? 100)%Z; reflexivity.
    + destruct (is_Eq e); reflexivity.
Qed.

Lemma first_slew_one_transport axis0rate axis1rate e s s1 tel ser :
  first_slew axis0rate axis1rate e s = Some (s1, tel, ser) ->
  (is_ASCOM e = true -> ser = []) /\ (is_ASCOM e = false -> tel = []).
Proof.
  unfold first_slew. intros H.
  destruct (is_ASCOM e) eqn:Ea.
  - rewrite (ascom_not_lx200 e Ea) in H. injection H as _ _ <-.
    split; [reflexivity | discriminate].
  - destruct (if is_LX200 e then _ else _) as [[[last dl] c]|]; [|discriminate].
    injection H as _ <- _. split; [discriminate | reflexivity].
Qed.

Lemma sat_track_cycle_one_transport axis0rate axis1rate e s s' tel ser :
  sat_track_cycle axis0rate axis1rate e s = Some (s', tel, ser) ->
  (is_ASCOM e = true -> ser = []) /\ (is_ASCOM e = false -> tel = []).
Proof.
  unfold sat_track_cycle. intros H.
  destruct (if firstslew s then _ else _) as [[[s1 tel1] ser1]|] eqn:E1;
    [|discriminate].
  assert (H1 : (is_ASCOM e = true -> ser1 = []) /\
               (is_ASCOM e = false -> tel1 = [])).
  { destruct (firstslew s).
    - exact (first_slew_one_transport _ _ _ _ _ _ _ E1).
    - injection E1 as _ <- <-. auto. }
  destruct (follow_one_transport axis0rate axis1rate e s1) as [F1 F2].
  destruct (follow axis0rate axis1rate e s1) as [[s2 tel2] ser2].
  cbn [fst snd] in F1, F2. injection H as _ <- <-.
  destruct H1 as [H1 H2].
  split; intros Ha.
  - rewrite (H1 Ha), (F1 Ha). reflexivity.
  - rewrite (H2 Ha), (F2 Ha). reflexivity.
Qed.

(** A run of the loop talks to one transport only: while the telescope
    type is ['ASCOM'] nothing is written to the serial port, and while it
    is anything else no call reaches the ASCOM driver. *)
Theorem sat_track_one_transport :
  forall axis0rate axis1rate es s s' tel ser stopped,
    sat_track_loop axis0rate axis1rate es s = Some (s', tel, ser, stopped) ->
    (Forall (fun e => is_ASCOM e = true) es -> ser = []) /\
    (Forall (fun e => is_ASCOM e = false) es -> tel = []).
Proof.
  intros a0 a1 es. induction es as [|e es IH];
    intros s s' tel ser stopped H; cbn [sat_track_loop] in H.
  - injection H as _ <- <- _. auto.
  - destruct (trackingsat e).
    + destruct (sat_track_cycle a0 a1 e s) as [[[s1 tel1] ser1]|] eqn:E1;
        [|discriminate].
      destruct (sat_track_loop a0 a1 es s1) as [[[[s2 tel2] ser2] st]|] eqn:E2;
        [|discriminate].
      injection H as _ <- <- _.
      destruct (sat_track_cycle_one_transport _ _ _ _ _ _ _ E1) as [C1 C2].
      destruct (IH _ _ _ _ _ E2) as [L1 L2].
      split; intros Hall; inversion Hall; subst.
      * rewrite C1, L1 by assumption. reflexivity.
      * rewrite C2, L2 by assumption. reflexivity.
    + injection H as _ <- <- _. split; [reflexivity|].
      intros Hall. inversion Hall as [|? ? Ha _]; subst. rewrite Ha. reflexivity.
Qed.

Lemma sat_track_one_transport_witness :
  (exists s' tel stopped,
      sat_track_loop 2 2 [env_ascom_altaz; env_stopped] sat_track_init
        = Some (s', tel, [], stopped) /\
      (5 <= length tel)%nat) /\
  (exists s' ser stopped,
      sat_track_loop 2 2 [env_lx200_altaz; env_lx200_altaz] state_before_gate
        = Some (s', [], ser, stopped) /\
      (6 <= length ser)%nat).
Proof.
  split.
  - assert (E : exists s' tel ser stopped,
               sat_track_loop 2 2 [env_ascom_altaz; env_stopped] sat_track_init
                 = Some (s', tel, ser, stopped) /\ (5 <= length tel)%nat).
    { do 4 eexists. split; [reflexivity|].
      unfold is_ASCOM, is_AltAz, is_Eq, first_slew_ascom,
        ephemeris_ascom_altaz, move_axes, is_AltAz, is_Eq.
      cbn [telescopetype mounttype trackingsat env_ascom_altaz env_stopped
           String.eqb Ascii.eqb Bool.eqb andb app length].
      lia. }
    destruct E as (s' & tel & ser & stopped & E & Hlen).
    assert (Hser : ser = []).
    { apply (proj1 (sat_track_one_transport 2 2 _ _ _ _ _ _ E)).
      repeat constructor. }
    subst ser. exists s', tel, stopped. split; [exact E | exact Hlen].
  - assert (E : exists s' tel ser stopped,
               sat_track_loop 2 2 [env_lx200_altaz; env_lx200_altaz]
                              state_before_gate
                 = Some (s', tel, ser, stopped) /\ (6 <= length ser)%nat).
    { do 4 eexists. split; [reflexivity|].
      unfold goto_altaz.
      repeat match goal with
             | |- context [rad_to_sexagesimal_alt ?a ?b] =>
                 destruct (rad_to_sexagesimal_alt a b)
             end.
      cbn [length app]. lia. }
    destruct E as (s' & tel & ser & stopped & E & Hlen).
    assert (Htel : tel = []).
    { apply (proj2 (sat_track_one_transport 2 2 _ _ _ _ _ _ E)).
      repeat constructor. }
    subst tel. exists s', ser, stopped. split; [exact E | exact Hlen].
Defined.

(** ** The LX200 azimuth convention *)

Lemma degrees_le_180 az : degrees az + 180 > 360 <-> PI < az.
Proof.
  unfold degrees. pose proof PI_RGT_0 as Hpi.
  pose proof CodecFacts.degrees_pos_factor as Hk.
  assert (E : PI * (180 / PI) = 180) by (field; lra).
  split; intros H.
  - destruct (Rlt_dec PI az) as [|Hn]; [assumption|].
    assert (az * (180 / PI) <= PI * (180 / PI))
      by (apply Rmult_le_compat_r; lra).
    lra.
  - assert (PI * (180 / PI) < az * (180 / PI))
      by (apply Rmult_lt_compat_r; lra).
    lra.
Qed.

(** The flip adds half a turn and takes a full turn off above 360
    degrees: an azimuth between 0 and a full turn comes out above 0 and
    at most a full turn, so south becomes 360 degrees and never 0; and
    flipping twice gives the azimuth back, except at 0. *)
Theorem flip_az_half_turn :
  forall az,
    (az <= PI -> flip_az az = az + PI) /\
    (PI < az -> flip_az az = az - PI) /\
    (0 <= az <= 2 * PI -> 0 < flip_az az <= 2 * PI) /\
    (0 < az <= 2 * PI -> flip_az (flip_az az) = az) /\
    flip_az (flip_az 0) = 2 * PI.
Proof.
  pose proof PI_RGT_0 as Hpi.
  assert (Hlo : forall az, az <= PI -> flip_az az = az + PI).
  { intros az H. unfold flip_az.
    destruct (Rgt_dec (degrees az + 180) 360) as [Hgt|_].
    - apply degrees_le_180 in Hgt. lra.
    - unfold degrees, radians. field. lra. }
  assert (Hhi : forall az, PI < az -> flip_az az = az - PI).
  { intros az H. unfold flip_az.
    destruct (Rgt_dec (degrees az + 180) 360) as [_|Hn].
    - unfold degrees, radians. field. lra.
    - exfalso. apply Hn. apply degrees_le_180. exact H. }
  intros az. split; [apply Hlo|]. split; [apply Hhi|]. split; [|split].
  - intros [H0 H2]. destruct (Rle_dec az PI) as [H|H].
    + rewrite (Hlo az H). lra.
    + rewrite (Hhi az) by lra. lra.
  - intros [H0 H2]. destruct (Rle_dec az PI) as [H|H].
    + rewrite (Hlo az H). rewrite Hhi by lra. lra.
    + rewrite (Hhi az) by lra. rewrite Hlo by lra. lra.
  - rewrite (Hlo 0) by lra. rewrite Hlo by lra. lra.
Qed.

(** ** The periodic gate of the LX200 alt-az mount *)





(** ** Frames under visual lock *)

Lemma lx200_altaz_visual_follow axis0rate axis1rate e s :
  lx200_altaz_visual e ->
  follow axis0rate axis1rate e s = visual_lx200_altaz e s.
Proof.
  intros (Ht & Hm & Hof).
  unfold follow, follow_visual, is_ASCOM, is_LX200, is_AltAz.
  rewrite Hof, Ht, Hm. reflexivity.
Qed.

(** On an LX200 alt-az mount under visual lock a frame corrects at most
    once: a cycle records the time of the frame it saw, and a later cycle
    whose frame is not newer neither queries the mount nor touches the
    accumulators or the recorded error; it only repeats the goto with the
    corrections as they stand. *)
Theorem visual_lx200_frame_used_once :
  forall axis0rate axis1rate e e2 s,
    lx200_altaz_visual e ->
    lx200_altaz_visual e2 ->
    dnow e2 <= dnow e ->
    let s1 := fst (fst (follow axis0rate axis1rate e s)) in
    let r := follow axis0rate axis1rate e2 s1 in
    dlast s1 = dnow e /\
    corrections (fst (fst r)) = corrections s1 /\
    lasttotaldiff (fst (fst r)) = lasttotaldiff s1 /\
    snd r = goto_altaz (flip_az (sat_az (sat e2)) + azcorrect s1)
                       (sat_alt (sat e2) + altcorrect s1).
Proof.
  intros a0 a1 e e2 s He He2 Hle. cbv zeta.
  rewrite (lx200_altaz_visual_follow _ _ e s He).
  assert (Hd : dlast (fst (fst (visual_lx200_altaz e s))) = dnow e).
  { unfold visual_lx200_altaz.
    destruct (if Rgt_dec (dnow e) (dlast s) then _ else _) as [[[a b] c] d].
    reflexivity. }
  split; [exact Hd|].
  rewrite (lx200_altaz_visual_follow _ _ e2 _ He2).
  set (s1 := fst (fst (visual_lx200_altaz e s))) in *.
  unfold visual_lx200_altaz at 1 2 3.
  destruct (Rgt_dec (dnow e2) (dlast s1)) as [Hgt|_]; [lra|].
  cbn [fst snd app]. auto.
Qed.

Lemma visual_lx200_frame_used_once_witness :
  let s1 := fst (fst (follow 0 0 (env_lx200_altaz_visual 2) state_before_gate)) in
  let r := follow 0 0 (env_lx200_altaz_visual 2) s1 in
  dlast s1 = dnow (env_lx200_altaz_visual 2) /\
  corrections (fst (fst r)) = corrections s1 /\
  lasttotaldiff (fst (fst r)) = lasttotaldiff s1 /\
  snd r = goto_altaz
            (flip_az (sat_az (sat (env_lx200_altaz_visual 2))) + azcorrect s1)
            (sat_alt (sat (env_lx200_altaz_visual 2)) + altcorrect s1).
Proof.
  assert (He : lx200_altaz_visual (env_lx200_altaz_visual 2))
    by (repeat split; reflexivity).
  apply (visual_lx200_frame_used_once 0 0 (env_lx200_altaz_visual 2)
           (env_lx200_altaz_visual 2) state_before_gate He He).
  cbn [dnow env_lx200_altaz_visual]. lra.
Defined.

(** With the mount at the zenith the visual correction cannot be
    computed: an ASCOM alt-az cycle then changes nothing and sends no
    rate, so the axes keep the rates of the cycle before; an LX200 alt-az
    cycle keeps the accumulators and the recorded error and still sends
    its goto. *)
Theorem visual_skipped_at_zenith :
  forall axis0rate axis1rate e s,
    mounttype e = "AltAz"%string ->
    objectfollow e = true ->
    (telescopetype e = "ASCOM"%string -> Altitude e = 90 ->
     follow axis0rate axis1rate e s = (s, [], [])) /\
    (telescopetype e = "LX200"%string -> telalt e = 90 ->
     let r := follow axis0rate axis1rate e s in
     corrections (fst (fst r)) = corrections s /\
     lasttotaldiff (fst (fst r)) = lasttotaldiff s /\
     exists reads,
       snd r = reads ++ goto_altaz (flip_az (sat_az (sat e)) + azcorrect s)
                                   (sat_alt (sat e) + altcorrect s)).
Proof.
  intros a0 a1 e s Hm Hof. split.
  - intros Ht Halt.
    unfold follow, follow_visual, is_ASCOM, is_AltAz, is_Eq.
    rewrite Hof, Ht, Hm. cbn [String.eqb Ascii.eqb Bool.eqb andb].
    assert (Hv : (if trackingsat e then visual_ascom_altaz a0 a1 e s else [])
                 = []).
    { destruct (trackingsat e); [|reflexivity].
      unfold visual_ascom_altaz. rewrite Halt.
      rewrite (CodecFacts.sky_delta_zenith (polar_of e)).
      destruct (Rgt_dec (dnow e) (dlast s)); reflexivity. }
    rewrite Hv. destruct s. reflexivity.
  - intros Ht Halt. cbv zeta.
    assert (He : lx200_altaz_visual e) by (repeat split; assumption).
    rewrite (lx200_altaz_visual_follow _ _ e s He).
    unfold visual_lx200_altaz. rewrite Halt.
    rewrite (CodecFacts.sky_delta_zenith (polar_of e)).
    destruct (Rgt_dec (dnow e) (dlast s)); cbn [fst snd];
      (split; [reflexivity|]; split; [reflexivity|]; eexists; reflexivity).
Qed.

Lemma visual_skipped_at_zenith_witness :
  follow 2 2 env_ascom_zenith sat_track_init = (sat_track_init, [], []).
Proof.
  apply (proj1 (visual_skipped_at_zenith 2 2 env_ascom_zenith sat_track_init
                  eq_refl eq_refl)).
  - reflexivity.
  - reflexivity.
Defined.

(** ** The wait after the first goto *)

Lemma slew_wait_arrives radalt radaz : forall polls totaldiff cmds,
  slew_wait radalt radaz polls totaldiff = Some cmds ->
  totaldiff <= 1 \/
  Exists (fun poll => slew_distance radalt radaz poll <= 1) polls.
Proof.
  induction polls as [|poll polls IH]; intros d cmds H; cbn [slew_wait] in H.
  - destruct (Rgt_dec d 1); [discriminate | left; lra].
  - destruct (Rgt_dec d 1); [|left; lra].
    destruct (slew_wait radalt radaz polls _) as [c|] eqn:E; [|discriminate].
    right. destruct (IH _ _ E) as [Hd|Hex].
    + now apply Exists_cons_hd.
    + now apply Exists_cons_tl.
Qed.

Lemma slew_wait_never radalt radaz : forall polls totaldiff,
  1 < totaldiff ->
  Forall (fun poll => 1 < slew_distance radalt radaz poll) polls ->
  slew_wait radalt radaz polls totaldiff = None.
Proof.
  induction polls as [|poll polls IH]; intros d Hd Hall; cbn [slew_wait].
  - destruct (Rgt_dec d 1); [reflexivity | lra].
  - inversion Hall as [|? ? Hp Hps]; subst.
    destruct (Rgt_dec d 1); [|lra].
    rewrite (IH _ Hp Hps). reflexivity.
Qed.

(** The first-slew block of an LX200 mount ends only after a poll that
    puts the mount within one degree of the target in altitude and
    azimuth, and it never ends while every poll is farther away; the
    error it records is the distance of the first poll, taken one second
    after the goto was sent, not that of the poll that ended the wait. *)
Theorem first_slew_lx200_waits :
  forall e d cmds,
    first_slew_lx200 e = Some (d, cmds) ->
    let radalt := sat_alt (sat e) in
    let radaz := if is_AltAz e then flip_az (sat_az (sat e))
                 else sat_az (sat e) in
    (exists poll polls,
        slew_polls e = poll :: polls /\
        d = slew_distance radalt radaz poll) /\
    Exists (fun poll => slew_distance radalt radaz poll <= 1) (slew_polls e) /\
    ~ Forall (fun poll => 1 < slew_distance radalt radaz poll) (slew_polls e).
Proof.
  intros e d cmds H. cbv zeta. unfold first_slew_lx200 in H.
  destruct (slew_polls e) as [|poll polls] eqn:Ep; [discriminate|].
  set (radalt := sat_alt (sat e)) in *.
  set (radaz := if is_AltAz e then flip_az (sat_az (sat e))
                else sat_az (sat e)) in *.
  destruct (slew_wait radalt radaz polls _) as [c|] eqn:E; [|discriminate].
  injection H as <- _.
  assert (Hex : Exists (fun p => slew_distance radalt radaz p <= 1)
                       (poll :: polls)).
  { destruct (slew_wait_arrives _ _ _ _ _ E) as [Hd|Hx].
    - now apply Exists_cons_hd.
    - now apply Exists_cons_tl. }
  split; [exists poll, polls; auto|]. split; [exact Hex|].
  intros Hall. apply Exists_exists in Hex. destruct Hex as (p & Hin & Hp).
  rewrite Forall_forall in Hall. specialize (Hall p Hin). lra.
Qed.

Lemma first_slew_lx200_waits_witness :
  exists d cmds,
    first_slew_lx200 env_lx200_arrived = Some (d, cmds) /\
    Exists (fun poll => slew_distance 0 0 poll <= 1)
           (slew_polls env_lx200_arrived).
Proof.
  assert (Hd : slew_distance 0 0 (mkResponse 0 0 0, mkResponse 0 0 0) = 0).
  { unfold slew_distance, respdegrees, degrees. cbn [fst snd r_deg r_min r_sec].
    replace ((0 * (180 / PI) - ((0 / 60 + 0) / 60 + 0)) ^ 2
             + (0 * (180 / PI) - ((0 / 60 + 0) / 60 + 0)) ^ 2) with 0
      by (simpl; field; apply PI_neq0).
    apply sqrt_0. }
  assert (E : first_slew_lx200 env_lx200_arrived
              = Some (0, goto_radec 0 0 ++ [GA; GA; GZ])).
  { unfold first_slew_lx200, is_AltAz, is_Eq.
    cbn [mounttype slew_polls sat sat_alt sat_az sat_ra sat_dec
         env_lx200_arrived String.eqb Ascii.eqb Bool.eqb slew_wait].
    rewrite Hd. destruct (Rgt_dec 0 1); [lra|]. reflexivity. }
  exists 0, (goto_radec 0 0 ++ [GA; GA; GZ]). split; [exact E|].
  exact (proj1 (proj2 (first_slew_lx200_waits env_lx200_arrived _ _ E))).
Defined.

(** ** The right ascension of an LX200 mount *)

(** The hours that the mount answers are multiplied by 15 in
    [read_to_hash] and by 15 again in [LX200_ra_degrees], so the
    controller takes the mount to be at 225 times the hours.  An
    equatorial LX200 mount that answers exactly the target's position is
    therefore not seen on target: the error recorded by the cycle is 14
    times the target's right ascension. *)
Theorem lx200_eq_ra_error_on_target :
  forall axis0rate axis1rate e s,
    telescopetype e = "LX200"%string ->
    mounttype e = "Eq"%string ->
    objectfollow e = false ->
    teldec e = degrees (sat_dec (sat e)) ->
    resphours (resp_ra e) = degrees (sat_ra (sat e)) ->
    telra e = 15 * degrees (sat_ra (sat e)) /\
    lasttotaldiff (fst (fst (follow axis0rate axis1rate e s)))
      = 14 * Rabs (sat_ra (sat e)).
Proof.
  intros a0 a1 e s Ht Hm Hof Hdec Hra.
  pose proof PI_RGT_0 as Hpi.
  assert (Htel : telra e = 15 * degrees (sat_ra (sat e)))
    by (unfold telra; rewrite Hra; ring).
  split; [exact Htel|].
  unfold follow, follow_ephemeris, is_ASCOM, is_LX200, is_AltAz, is_Eq.
  rewrite Hof, Ht, Hm.
  cbn [String.eqb Ascii.eqb Bool.eqb].
  unfold ephemeris_lx200_eq. cbn [fst lasttotaldiff].
  rewrite Hdec, Htel.
  set (ra := sat_ra (sat e)). set (dec := sat_dec (sat e)).
  assert (E1 : dec - radians (degrees dec) = 0)
    by (unfold radians, degrees; field; lra).
  assert (E2 : ra - radians (15 * degrees ra) = - (14 * ra))
    by (unfold radians, degrees; field; lra).
  rewrite E1, E2.
  replace (0 ^ 2 + (- (14 * ra)) ^ 2) with (Rsqr (14 * ra))
    by (unfold Rsqr; ring).
  rewrite sqrt_Rsqr_abs, Rabs_mult, (Rabs_pos_eq 14) by lra.
  reflexivity.
Qed.

Lemma lx200_eq_ra_error_on_target_witness :
  telra env_lx200_eq_on_target
    = 15 * degrees (sat_ra (sat env_lx200_eq_on_target)) /\
  lasttotaldiff (fst (fst (follow 0 0 env_lx200_eq_on_target
                                  state_before_gate)))
    = 14 * Rabs (sat_ra (sat env_lx200_eq_on_target)).
Proof.
  pose proof PI_RGT_0 as Hpi.
  apply (lx200_eq_ra_error_on_target 0 0 env_lx200_eq_on_target
           state_before_gate); try reflexivity.
  - unfold teldec, respdegrees, degrees.
    cbn [resp_dec r_deg r_min r_sec sat sat_dec env_lx200_eq_on_target].
    field. lra.
  - unfold resphours, degrees, radians.
    cbn [resp_ra r_deg r_min r_sec sat sat_ra env_lx200_eq_on_target].
    unfold radians. field. lra.
Defined.

End ControllerFacts.

(* ================================================================== *)
(** * Properties of the pointer box and the target selection *)
(* ================================================================== *)

Module InterfaceFacts.

Import Videotrak Interface.
Local Open Scope Z_scope.

(** ** The size of the pointer box *)

Lemma on_mousewheel_min (boxSize : Q) (delta : Z) :
  (5 <= on_mousewheel boxSize delta)%Q.
Proof.
  unfold on_mousewheel.
  destruct (Qlt_le_dec _ 5) as [_|H]; [apply Qle_refl | exact H].
Qed.

(** The wheel never takes the box size below 5: from a size of at least
    5, or after at least one event, the size is at least 5 whatever the
    events were. *)
Theorem wheel_keeps_box_size :
  forall boxSize deltas,
    (5 <= boxSize)%Q \/ deltas <> [] ->
    (5 <= wheel_run boxSize deltas)%Q.
Proof.
  intros b deltas. revert b. unfold wheel_run.
  induction deltas as [|d ds IH]; intros b H; cbn [fold_left].
  - destruct H as [H|H]; [exact H | contradiction].
  - apply IH. left. apply on_mousewheel_min.
Qed.

Lemma wheel_keeps_box_size_witness :
  (5 <= wheel_run 50 [-120; -120; -1200; 24]%Z)%Q.
Proof.
  apply (wheel_keeps_box_size 50 [-120; -120; -1200; 24]%Z).
  left. unfold Qle. simpl. lia.
Defined.

(** ** The pointer box *)







(** ** Selecting a target *)

Lemma shape_template_of (m : image) : shape (template_of m) = shape m.
Proof.
  unfold shape, template_of. rewrite length_map.
  destruct m as [|row m]; cbn [map hd]; [reflexivity|].
  now rewrite length_map.
Qed.

Lemma rectangular_template_of (m : image) :
  rectangular m -> rectangular (template_of m).
Proof.
  unfold rectangular. rewrite shape_template_of. unfold template_of.
  intros H. apply Forall_forall. intros row Hin.
  apply in_map_iff in Hin. destruct Hin as [row0 [<- Hin0]].
  rewrite length_map. rewrite Forall_forall in H. now apply H.
Qed.

Lemma cut_shape (img : image) (x0 y0 x1 y1 : Z) :
  rectangular img ->
  0 <= x0 -> x0 <= x1 <= snd (shape img) ->
  0 <= y0 < y1 -> y1 <= fst (shape img) ->
  let cut := map (fun row => pyslice row x0 x1) (pyslice img y0 y1) in
  shape cut = (y1 - y0, x1 - x0) /\ rectangular cut /\
  cut = crop img y0 x0 (y1 - y0) (x1 - x0).
Proof.
  intros Himg Hx0 Hx1 Hy0 Hy1. cbv zeta.
  assert (Ey : y1 = y0 + (y1 - y0)) by lia.
  assert (Ex : x1 = x0 + (x1 - x0)) by lia.
  assert (Hrows : Forall (fun row => Z.of_nat (length row) = x1 - x0)
                         (map (fun row => pyslice row x0 x1)
                              (pyslice img y0 y1))).
  { apply Forall_forall. intros row Hin. apply in_map_iff in Hin.
    destruct Hin as [row0 [<- Hin0]].
    apply VideotrakFacts.pyslice_incl in Hin0.
    unfold rectangular in Himg. rewrite Forall_forall in Himg.
    specialize (Himg _ Hin0).
    rewrite Ex at 1. apply VideotrakFacts.pyslice_length; lia. }
  assert (Hlen : Z.of_nat (length (map (fun row => pyslice row x0 x1)
                                       (pyslice img y0 y1))) = y1 - y0).
  { rewrite length_map. rewrite Ey at 1.
    apply VideotrakFacts.pyslice_length; try lia.
    unfold shape in Hy1. cbn [fst] in Hy1. lia. }
  assert (Hshape : shape (map (fun row => pyslice row x0 x1)
                              (pyslice img y0 y1)) = (y1 - y0, x1 - x0)).
  { unfold shape. rewrite Hlen. f_equal.
    destruct (map (fun row => pyslice row x0 x1) (pyslice img y0 y1))
      as [|row rest] eqn:E.
    - cbn [length] in Hlen. simpl in Hlen. lia.
    - cbn [hd]. inversion Hrows; subst. assumption. }
  split; [exact Hshape|]. split.
  - unfold rectangular. rewrite Hshape. cbn [snd]. exact Hrows.
  - unfold crop. rewrite <- Ex, <- Ey. reflexivity.
Qed.

(** A click cuts a template of the size of the pointer box, and the
    locator finds that template on the frame it was cut from, provided it
    is not black and the clock allows one full pass. *)
Theorem selected_target_is_found :
  forall budget cv found0 img mb,
    rectangular img ->
    0 <= fst (fst mb) < fst (snd mb) -> fst (snd mb) <= snd (shape img) ->
    0 <= snd (fst mb) < snd (snd mb) -> snd (snd mb) <= fst (shape img) ->
    let roibox := fst (left_click_select img mb) in
    let imageroi := snd (left_click_select img mb) in
    roibox = mb /\
    shape imageroi
      = (snd (snd mb) - snd (fst mb), fst (snd mb) - fst (fst mb)) /\
    ((0 < array_qsum imageroi)%Q -> (930 <= budget)%nat ->
     exists roibox' imageroi',
       get_x_y "Features" budget cv found0 img roibox imageroi
         = Some (roibox', imageroi', true)).
Proof.
  intros budget cv found0 img [[x0 y0] [x1 y1]] Himg Hx Hx1 Hy Hy1.
  cbn [fst snd] in Hx, Hx1, Hy, Hy1. cbv zeta.
  unfold left_click_select. cbn [fst snd].
  destruct (cut_shape img x0 y0 x1 y1 Himg) as (Hs & Hr & Hc); try lia.
  set (cut := map (fun row => pyslice row x0 x1) (pyslice img y0 y1)) in *.
  assert (Hst : shape (template_of cut) = (y1 - y0, x1 - x0))
    by (rewrite shape_template_of; exact Hs).
  split; [reflexivity|]. split; [exact Hst|].
  intros Hsum Hb.
  destruct (VideotrakFacts.exact_match_score budget img (template_of cut)
              x0 y0 Himg (rectangular_template_of cut Hr))
    as [s [Hsearch Hlt]]; try assumption.
  - rewrite Hst. cbn [fst snd]. lia.
  - rewrite Hst. cbn [fst snd]. lia.
  - rewrite Hst. cbn [fst snd]. now rewrite Hc.
  - pose proof (VideotrakFacts.feature_search_ok _ _ _ _ _ _ Hsearch) as Hok.
    destruct (VideotrakFacts.accept_features_found img ((x0, y0), (x1, y1))
                (template_of cut) s Hok Hlt)
      as [x [y [t [_ [_ [_ Hacc]]]]]].
    rewrite VideotrakFacts.get_x_y_features. cbn [fst snd].
    rewrite Hsearch, Hacc. eauto.
Qed.

Lemma selected_target_is_found_witness :
  let roibox := fst (left_click_select frame_3x4 ((1, 1), (2, 2))) in
  let imageroi := snd (left_click_select frame_3x4 ((1, 1), (2, 2))) in
  roibox = ((1, 1), (2, 2)) /\
  shape imageroi = (2 - 1, 2 - 1) /\
  ((0 < array_qsum imageroi)%Q -> (930 <= 1000)%nat ->
   exists roibox' imageroi',
     get_x_y "Features" 1000 (mkBright [] 0 0 0) false frame_3x4 roibox
             imageroi
       = Some (roibox', imageroi', true)).
Proof.
  apply (selected_target_is_found 1000 (mkBright [] 0 0 0) false frame_3x4
           ((1, 1), (2, 2))).
  - repeat constructor.
  - simpl; lia.
  - simpl; lia.
  - simpl; lia.
  - simpl; lia.
Defined.

(** ** The target point *)

Lemma same_shape_shape {A B : Type} (m1 : list (list A)) (m2 : list (list B)) :
  same_shape m1 m2 -> shape m1 = shape m2.
Proof.
  unfold same_shape, shape. intros H.
  destruct H as [|r1 r2 m1 m2 Hr Hm]; [reflexivity|].
  apply Forall2_length in Hm. cbn [length hd]. now rewrite Hr, Hm.
Qed.

Lemma zip_strict_result_length {A B C : Type} (f : A -> B -> option C) :
  forall l1 l2 r, zip_strict f l1 l2 = Some r -> length r = length l1.
Proof.
  induction l1 as [|a l1 IH]; intros [|b l2] r H; cbn [zip_strict] in H;
    try discriminate.
  - now injection H as <-.
  - destruct (f a b); [|discriminate].
    destruct (zip_strict f l1 l2) as [rest|] eqn:E; [|discriminate].
    injection H as <-. cbn [length]. f_equal. eapply IH; eauto.
Qed.

Lemma array_map2_result_shape {A B C : Type} (f : A -> B -> C) m1 m2 r :
  array_map2 f m1 m2 = Some r -> shape r = shape m1.
Proof.
  unfold array_map2, shape. intros H.
  rewrite (zip_strict_result_length _ _ _ _ H). f_equal.
  destruct m1 as [|r1 m1], m2 as [|r2 m2]; cbn [zip_strict] in H;
    try discriminate.
  - now injection H as <-.
  - destruct (zip_strict _ r1 r2) as [row|] eqn:E1; [|discriminate].
    destruct (zip_strict _ m1 m2) as [rest|]; [|discriminate].
    injection H as <-. cbn [hd].
    now rewrite (zip_strict_result_length _ _ _ _ E1).
Qed.

(** The point that the controller reads as the target stays on the
    frame: after the feature strategy the template has the shape it had,
    and the corner plus half the template size lies between 0 and the
    frame size in both coordinates. *)
Theorem target_stays_in_frame :
  forall budget cv found0 img roibox imageroi roibox' imageroi' found,
    0 <= fst (fst roibox) <= snd (shape img) - snd (shape imageroi) ->
    0 <= snd (fst roibox) <= fst (shape img) - fst (shape imageroi) ->
    get_x_y "Features" budget cv found0 img roibox imageroi
      = Some (roibox', imageroi', found) ->
    shape imageroi' = shape imageroi /\
    (0 <= fst (target roibox' imageroi') <= inject_Z (snd (shape img)))%Q /\
    (0 <= snd (target roibox' imageroi') <= inject_Z (fst (shape img)))%Q.
Proof.
  intros budget cv found0 img roibox imageroi roibox' imageroi' found
         Hx Hy H.
  assert (Hpos : 0 <= fst (shape imageroi) /\ 0 <= snd (shape imageroi))
    by (unfold shape; cbn [fst snd]; lia).
  assert (Hcorner : shape imageroi' = shape imageroi /\
                    0 <= fst (fst roibox')
                      <= snd (shape img) - snd (shape imageroi) /\
                    0 <= snd (fst roibox')
                      <= fst (shape img) - fst (shape imageroi)).
  { rewrite VideotrakFacts.get_x_y_features in H.
    destruct (feature_search _ _ _ _ _) as [s|] eqn:Es; [|discriminate].
    apply VideotrakFacts.feature_search_ok in Es.
    destruct (flt (finalroidiff s) (Fin 20)) eqn:Hlt.
    - destruct (VideotrakFacts.accept_features_found img roibox imageroi s
                  Es Hlt)
        as [x [y [t [_ [[xc [yc [Ex Ey]]] [Hb Hacc]]]]]].
      rewrite Hacc in H. injection H as <- <- _. cbn [fst snd].
      split; [unfold blend in Hb; exact (array_map2_result_shape _ _ _ _ Hb)|].
      subst x y.
      split; apply VideotrakFacts.clamp_check_range; lia.
    - rewrite (VideotrakFacts.accept_features_not_found _ _ _ _ Hlt) in H.
      injection H as <- <- _. auto. }
  destruct Hcorner as (Hs & Hcx & Hcy).
  split; [exact Hs|].
  unfold target. rewrite Hs.
  destruct (shape imageroi) as [h w]. cbn [fst snd] in *.
  set (cx := fst (fst roibox')) in *. set (cy := snd (fst roibox')) in *.
  assert (Q1 : (0 <= inject_Z cx)%Q) by (rewrite (Zle_Qle 0 cx) in Hcx; tauto).
  assert (Q2 : (0 <= inject_Z cy)%Q) by (rewrite (Zle_Qle 0 cy) in Hcy; tauto).
  assert (Q3 : (0 <= inject_Z w)%Q) by (rewrite (Zle_Qle 0 w) in Hpos; tauto).
  assert (Q4 : (0 <= inject_Z h)%Q) by (rewrite (Zle_Qle 0 h) in Hpos; tauto).
  assert (Q5 : (inject_Z cx + inject_Z w <= inject_Z (snd (shape img)))%Q).
  { rewrite <- inject_Z_plus, <- Zle_Qle. lia. }
  assert (Q6 : (inject_Z cy + inject_Z h <= inject_Z (fst (shape img)))%Q).
  { rewrite <- inject_Z_plus, <- Zle_Qle. lia. }
  assert (E1 : (inject_Z w / 2 == inject_Z w * (1 # 2))%Q) by reflexivity.
  assert (E2 : (inject_Z h / 2 == inject_Z h * (1 # 2))%Q) by reflexivity.
  cbn [fst snd]. rewrite E1, E2.
  split; split; lra.
Qed.

Lemma target_stays_in_frame_witness :
  shape [[(11 * (9 # 10) + inject_Z 10 * (1 # 10))%Q]]
    = shape [[inject_Z 11]] /\
  (0 <= fst (target ((0, 0), (1, 1))%Z
                    [[(11 * (9 # 10) + inject_Z 10 * (1 # 10))%Q]])
     <= inject_Z (snd (shape frame_3x4)))%Q /\
  (0 <= snd (target ((0, 0), (1, 1))%Z
                    [[(11 * (9 # 10) + inject_Z 10 * (1 # 10))%Q]])
     <= inject_Z (fst (shape frame_3x4)))%Q.
Proof.
  apply (target_stays_in_frame 5000 (mkBright [] 0 0 0) false frame_3x4
           ((1, 1), (2, 2)) [[inject_Z 11]] ((0, 0), (1, 1))
           [[(11 * (9 # 10) + inject_Z 10 * (1 # 10))%Q]] true).
  - simpl; lia.
  - simpl; lia.
  - vm_compute. reflexivity.
Defined.

End InterfaceFacts.

(* ================================================================== *)
(** * Properties of the LX200 response reader *)
(* ================================================================== *)

Module ReaderFacts.

Import Codec Reader.
Local Open Scope Z_scope.

(** [py_int] on sample strings, as [int()] answers them. *)
Lemma py_int_examples :
  map py_int ["5"; "+05"; "-5"; " 12  "; "1_0"; "007"; "-0"]%string
    = map Some [5; 5; -5; 12; 10; 7; 0] /\
  map py_int [""; " "; "+"; "+ 5"; "_1"; "1_"; "1__0"; "+-5"; "*3"; "0'";
              "5#"; "1 2"; "5.0"]%string
    = repeat None 13.
Proof. split; vm_compute; reflexivity. Qed.

Lemma last_char_append (resp : string) (c : ascii) :
  last_char (append resp (String c EmptyString)) = Some c.
Proof.
  induction resp as [|a resp IH]; [reflexivity|].
  cbn [append last_char].
  destruct (append resp (String c EmptyString)) eqn:E; [|exact IH].
  destruct resp; discriminate.
Qed.

Lemma append_assoc (a b c : string) :
  append (append a b) c = append a (append b c).
Proof.
  induction a as [|x a IH]; [reflexivity|]. cbn [append]. now rewrite IH.
Qed.

Lemma read_more_done (resp : string) (p : port) :
  last_char resp = Some "#"%char -> read_more resp p = Some (resp, p).
Proof. intros H. destruct p; cbn [read_more]; rewrite H; reflexivity. Qed.

Lemma append_empty (a : string) : append a EmptyString = a.
Proof. induction a as [|x a IH]; [reflexivity|]. cbn [append]. now rewrite IH. Qed.

(** The read loop on an answer: it takes what the reads decode to up to
    the first ['#'] and leaves the rest on the port. *)
Lemma read_more_answer (rest : port) (rs : list (option ascii)) :
  Forall continues rs ->
  forall resp c,
    last_char resp = Some c -> Ascii.eqb c "#" = false ->
    read_more resp (rs ++ Some "#"%char :: rest)
    = Some (append resp
                   (fold_right (fun r acc => append (decode r) acc)
                               (String "#" EmptyString) rs), rest).
Proof.
  induction 1 as [|r rs Hr _ IH]; intros resp c Hl Hc.
  - cbn [app read_more fold_right]. rewrite Hl, Hc.
    cbn [decode]. change (is_ascii "#") with true. cbv iota.
    rewrite read_more_done by apply last_char_append. reflexivity.
  - cbn [app read_more fold_right]. rewrite Hl, Hc.
    destruct Hr as [He|[c0 [-> [Ha Hh]]]].
    + rewrite He, append_empty. rewrite (IH resp c Hl Hc).
      reflexivity.
    + cbn [decode]. rewrite Ha.
      rewrite (IH _ c0 (last_char_append resp c0) Hh).
      rewrite append_assoc. reflexivity.
Qed.

Lemma continues_plain (c : ascii) : plain c -> continues (Some c).
Proof. intros H. right. exists c. auto. Qed.

Lemma continues_dropped (b : ascii) : is_ascii b = false -> continues (Some b).
Proof. intros H. left. cbn [decode]. now rewrite H. Qed.

(** ** The fields of an answer *)

(** An answer whose degrees are followed by a byte that the decoding
    drops, such as the degree sign of the Meade handbox, is cut at the
    right places: three characters of degrees, two of minutes and two of
    seconds, each read by [int()].  An answer in hours, with a plain
    separator after two characters, is cut in the same way.  What follows
    the ['#'] stays on the port. *)
Theorem read_to_hash_fields :
  forall previous f0 f1 f2 sep m0 m1 q s0 s1 rest,
    Forall plain [f0; f1; f2; m0; m1; q; s0; s1] ->
    is_ascii sep = false ->
    read_to_hash "Degrees" previous
      (map Some [f0; f1; f2; sep; m0; m1; q; s0; s1; "#"%char] ++ rest)
    = match py_int (String f0 (String f1 (String f2 EmptyString))),
            py_int (String m0 (String m1 EmptyString)),
            py_int (String s0 (String s1 EmptyString)) with
      | Some deg, Some min, Some sec => Parsed (mkResponse deg min sec) rest
      | _, _, _ => ValueError
      end /\
    read_to_hash "Hours" previous
      (map Some [f0; f1; f2; m0; m1; q; s0; s1; "#"%char] ++ rest)
    = match py_int (String f0 (String f1 EmptyString)),
            py_int (String m0 (String m1 EmptyString)),
            py_int (String s0 (String s1 EmptyString)) with
      | Some hr, Some min, Some sec => Parsed (mkResponse hr min sec) rest
      | _, _, _ => ValueError
      end.
Proof.
  intros previous f0 f1 f2 sep m0 m1 q s0 s1 rest Hall Hsep.
  apply Forall_cons_iff in Hall. destruct Hall as [Pf0 Hall].
  apply Forall_cons_iff in Hall. destruct Hall as [Pf1 Hall].
  apply Forall_cons_iff in Hall. destruct Hall as [Pf2 Hall].
  apply Forall_cons_iff in Hall. destruct Hall as [Pm0 Hall].
  apply Forall_cons_iff in Hall. destruct Hall as [Pm1 Hall].
  apply Forall_cons_iff in Hall. destruct Hall as [Pq Hall].
  apply Forall_cons_iff in Hall. destruct Hall as [Ps0 Hall].
  apply Forall_cons_iff in Hall. destruct Hall as [Ps1 _].
  pose proof (continues_dropped sep Hsep) as Csep.
  assert (Hdec : forall c, plain c -> decode (Some c) = String c EmptyString).
  { intros c [Ha _]. cbn [decode]. now rewrite Ha. }
  assert (Hdrop : decode (Some sep) = EmptyString)
    by (cbn [decode]; now rewrite Hsep).
  split; unfold read_to_hash; cbn [map app]; rewrite (Hdec f0 Pf0).
  - rewrite (read_more_answer rest
               [Some f1; Some f2; Some sep; Some m0; Some m1; Some q;
                Some s0; Some s1]) with (c := f0);
      [|repeat (apply Forall_cons; [auto using continues_plain|]);
        apply Forall_nil | reflexivity | apply Pf0].
    cbn [fold_right].
    rewrite Hdrop, !Hdec by assumption.
    cbn [append]. unfold fields. cbn [String.eqb Ascii.eqb Bool.eqb substring].
    destruct (py_int (String f0 _)); [|reflexivity].
    destruct (py_int (String m0 _)); [|reflexivity].
    destruct (py_int (String s0 _)); reflexivity.
  - rewrite (read_more_answer rest
               [Some f1; Some f2; Some m0; Some m1; Some q;
                Some s0; Some s1]) with (c := f0);
      [|repeat (apply Forall_cons; [auto using continues_plain|]);
        apply Forall_nil | reflexivity | apply Pf0].
    cbn [fold_right].
    rewrite !Hdec by assumption.
    cbn [append]. unfold fields. cbn [String.eqb Ascii.eqb Bool.eqb substring].
    destruct (py_int (String f0 _)); [|reflexivity].
    destruct (py_int (String m0 _)); [|reflexivity].
    destruct (py_int (String s0 _)); reflexivity.
Qed.

Lemma read_to_hash_fields_witness :
  read_to_hash "Degrees" (mkResponse 0 0 0) answer_degrees
    = Parsed (mkResponse 123 45 30) [] /\
  read_to_hash "Hours" (mkResponse 0 0 0)
    (map Some ["1"; "2"; "3"; "4"; "5"; "'"; "3"; "0"; "#"]%char)
    = Parsed (mkResponse 12 45 30) [].
Proof.
  apply (read_to_hash_fields (mkResponse 0 0 0) "1" "2" "3" (ascii_of_nat 223)
           "4" "5" "'" "3" "0" []).
  - repeat (apply Forall_cons; [split; reflexivity|]). apply Forall_nil.
  - reflexivity.
Defined.

(** With the degrees followed by a plain ['*'], the separator that the
    controller writes in its own commands, the minutes are cut as ['*']
    and one digit, and the call ends in a [ValueError] whatever the
    digits are. *)
Theorem read_to_hash_ascii_separator :
  forall previous f0 f1 f2 m0 m1 q s0 s1 rest,
    Forall plain [f0; f1; f2; m0; m1; q; s0; s1] ->
    read_to_hash "Degrees" previous
      (map Some [f0; f1; f2; "*"%char; m0; m1; q; s0; s1; "#"%char] ++ rest)
    = ValueError.
Proof.
  intros previous f0 f1 f2 m0 m1 q s0 s1 rest Hall.
  assert (Hstar : plain "*"%char) by (split; reflexivity).
  assert (Hdec : forall c, plain c -> decode (Some c) = String c EmptyString).
  { intros c [Ha _]. cbn [decode]. now rewrite Ha. }
  apply Forall_cons_iff in Hall. destruct Hall as [Pf0 Hall].
  apply Forall_cons_iff in Hall. destruct Hall as [Pf1 Hall].
  apply Forall_cons_iff in Hall. destruct Hall as [Pf2 Hall].
  apply Forall_cons_iff in Hall. destruct Hall as [Pm0 Hall].
  apply Forall_cons_iff in Hall. destruct Hall as [Pm1 Hall].
  apply Forall_cons_iff in Hall. destruct Hall as [Pq Hall].
  apply Forall_cons_iff in Hall. destruct Hall as [Ps0 Hall].
  apply Forall_cons_iff in Hall. destruct Hall as [Ps1 _].
  assert (Hc : Forall continues
                 [Some f1; Some f2; Some "*"%char; Some m0; Some m1; Some q;
                  Some s0; Some s1]).
  { repeat (apply Forall_cons; [auto using continues_plain|]).
    apply Forall_nil. }
  unfold read_to_hash. cbn [map app]. rewrite (Hdec f0 Pf0).
  rewrite (read_more_answer rest
             [Some f1; Some f2; Some "*"%char; Some m0; Some m1; Some q;
              Some s0; Some s1]) with (c := f0);
    [|exact Hc | reflexivity | apply Pf0].
  cbn [fold_right]. rewrite !Hdec by assumption.
  cbn [append]. unfold fields. cbn [String.eqb Ascii.eqb Bool.eqb substring].
  destruct (py_int (String f0 _)); reflexivity.
Qed.

Lemma read_to_hash_ascii_separator_witness :
  read_to_hash "Degrees" (mkResponse 0 0 0)
    (map Some ["1"; "2"; "3"; "*"; "4"; "5"; "'"; "3"; "0"; "#"]%char)
  = ValueError.
Proof.
  apply (read_to_hash_ascii_separator (mkResponse 0 0 0) "1" "2" "3"
           "4" "5" "'" "3" "0" []).
  repeat (apply Forall_cons; [split; reflexivity|]). apply Forall_nil.
Defined.

(** ** Answers that do not come *)

Lemma read_more_silence (c : ascii) (n : nat) :
  Ascii.eqb c "#" = false ->
  read_more (String c EmptyString) (repeat None n) = None.
Proof.
  intros Hc. induction n as [|n IH]; cbn [repeat read_more last_char].
  - now rewrite Hc.
  - rewrite Hc. cbn [decode append]. exact IH.
Qed.

(** When the first read gives nothing, a byte the decoding drops or the
    ['#'] itself, the loop is left at once and the empty fields end the
    call in a [ValueError]; and after a first plain character the loop
    has no way out but a ['#']: it does not end on any number of reads
    that time out. *)
Theorem read_to_hash_no_answer :
  forall degorhours previous,
    degorhours = "Degrees"%string \/ degorhours = "Hours"%string ->
    (forall r rest,
        decode r = EmptyString \/ r = Some "#"%char ->
        read_to_hash degorhours previous (r :: rest) = ValueError) /\
    (forall c n,
        plain c ->
        read_to_hash degorhours previous (Some c :: repeat None n) = Pending).
Proof.
  intros m previous Hm. split.
  - intros r rest [He| ->]; unfold read_to_hash.
    + rewrite He. destruct rest; cbn [read_more last_char];
        destruct Hm as [-> | ->]; reflexivity.
    + cbn [decode]. change (is_ascii "#") with true. cbv iota.
      rewrite read_more_done by reflexivity.
      destruct Hm as [-> | ->]; reflexivity.
  - intros c n [Ha Hh]. unfold read_to_hash. cbn [decode]. rewrite Ha.
    now rewrite read_more_silence.
Qed.

Lemma read_to_hash_no_answer_witness :
  (forall r rest,
      decode r = EmptyString \/ r = Some "#"%char ->
      read_to_hash "Degrees" (mkResponse 0 0 0) (r :: rest) = ValueError) /\
  (forall c n,
      plain c ->
      read_to_hash "Degrees" (mkResponse 0 0 0) (Some c :: repeat None n)
        = Pending).
Proof.
  apply (read_to_hash_no_answer "Degrees" (mkResponse 0 0 0)).
  left. reflexivity.
Defined.

End ReaderFacts.
